(** * scanpy.neighbors: neighbour graph, transitions, diffusion pseudotime

    A shallow embedding of [src/scanpy/neighbors/__init__.py].

    Conventions.
    - A Python exception is a value of [exn]; a call that may raise returns
      [result A]. [Unmodelled] marks an input on which numpy's behaviour
      lies outside this embedding (a [nan] where the embedding has reals).
    - A [float64] is idealised as a real number ([R]); where the code produces
      [inf] or [nan] the value type is [xreal].
    - A dense 2-d array is a list of rows; a CSR matrix is a list of rows of
      stored [(column, value)] pairs, in storage order. *)

From Stdlib Require Import List ZArith Arith Bool String Ascii Lia.
From Stdlib Require Import Reals Lra Permutation Sorted.
Import ListNotations.

Set Implicit Arguments.

(** ** Exceptions and the error monad *)

Inductive exn : Type :=
| ValueError (msg : string)
| AttributeError (attr : string)
| KeyError (key : string)
| IndexError
| TypeError
| ZeroDivisionError
| Unmodelled (what : string).

Inductive result (A : Type) : Type :=
| Ok (a : A)
| Raise (e : exn).
Arguments Ok {A} a.
Arguments Raise {A} e.

Definition bind {A B : Type} (m : result A) (k : A -> result B) : result B :=
  match m with
  | Ok a => k a
  | Raise e => Raise e
  end.

Notation "x <- m ;; k" := (bind m (fun x => k))
  (at level 61, m at next level, right associativity).

Fixpoint mapM {A B : Type} (f : A -> result B) (l : list A) : result (list B) :=
  match l with
  | [] => Ok []
  | a :: l' => b <- f a ;; bs <- mapM f l' ;; Ok (b :: bs)
  end.

(** Python's [a[i]] on a sequence, for an index that is not negative. *)
Definition index {A : Type} (l : list A) (i : nat) : result A :=
  match nth_error l i with
  | Some a => Ok a
  | None => Raise IndexError
  end.

(** Python's [a[i]] for any integer index: a negative index counts from the
    end. *)
Definition index_z {A : Type} (l : list A) (i : Z) : result A :=
  if (0 <=? i)%Z then index l (Z.to_nat i)
  else if (- Z.of_nat (List.length l) <=? i)%Z
       then index l (Z.to_nat (Z.of_nat (List.length l) + i))
       else Raise IndexError.

(** Python's [a[start:end]] and [a[start:]] for indices that are not negative:
    a slice never raises, it clips. *)
Definition slice {A : Type} (l : list A) (start stop : nat) : list A :=
  firstn (stop - start) (skipn start l).

Definition slice_from {A : Type} (l : list A) (start : nat) : list A :=
  skipn start l.

(** ** The random-projection forest: [_make_forest_dict], [_rp_forest_generate] *)

Module Forest.
Section WithRow.

(** One row of a tree's array. The four arrays of a forest are copied row by
    row, so the row type is left open; all trees share [dtype] and row width,
    as the [np.empty(dims, dtype)] buffer of the source requires. *)
Variable row : Type.

Definition ndarray : Type := list row.

(** [class FlatTree(NamedTuple)] *)
Record FlatTree : Type := mkFlatTree {
  hyperplanes : ndarray;
  offsets : ndarray;
  children : ndarray;
  indices : ndarray
}.

(** [FlatTree._fields] *)
Definition FlatTree_fields : list string :=
  ["hyperplanes"; "offsets"; "children"; "indices"]%string.

(** [getattr(tree, prop)] *)
Definition getattr (t : FlatTree) (prop : string) : result ndarray :=
  if String.eqb prop "hyperplanes" then Ok (hyperplanes t)
  else if String.eqb prop "offsets" then Ok (offsets t)
  else if String.eqb prop "children" then Ok (children t)
  else if String.eqb prop "indices" then Ok (indices t)
  else Raise (AttributeError prop).

(** [FlatTree] applied to the unpacked list [tree]: four positional
    arguments, or a [TypeError]. *)
Definition FlatTree_of_list (tree : list ndarray) : result FlatTree :=
  match tree with
  | [h; o; c; i] => Ok (mkFlatTree h o c i)
  | _ => Raise TypeError
  end.

(** The inner mapping [d[prop]]: keys ['start'] and ['data']. *)
Record flat_prop : Type := mkFlatProp {
  start : list nat;
  data : ndarray
}.

(** [RPForestDict]: a Python dict, in insertion order. *)
Definition RPForestDict : Type := list (string * flat_prop).

Fixpoint dict_get (d : RPForestDict) (k : string) : result flat_prop :=
  match d with
  | [] => Raise (KeyError k)
  | (k', v) :: d' => if String.eqb k' k then Ok v else dict_get d' k
  end.

(** The offsets written by the loop
    [for i, size in enumerate(sizes): d[prop]['start'][i] = start; ...]. *)
Fixpoint starts_from (start0 : nat) (sizes : list nat) : list nat :=
  match sizes with
  | [] => []
  | size :: sizes' => start0 :: starts_from (start0 + size) sizes'
  end.

(** One turn of [for prop in props] in [_make_forest_dict]. *)
Definition flatten_prop (forest : list FlatTree) (prop : string)
  : result flat_prop :=
  arrays <- mapM (fun tree => getattr tree prop) forest ;;
  (* [getattr(forest[0], prop)] for [dims] and [dtype] *)
  _ <- index forest 0 ;;
  Ok (mkFlatProp (starts_from 0 (map (@List.length row) arrays))
                 (List.concat arrays)).

Definition _make_forest_dict (forest : list FlatTree) : result RPForestDict :=
  mapM (fun prop => p <- flatten_prop forest prop ;; Ok (prop, p))
       FlatTree_fields.

(** Iterating a Python [str] yields its characters as strings of length 1. *)
Definition chars (s : string) : list string :=
  map (fun c => String c EmptyString) (list_ascii_of_string s).

(** A generator run to exhaustion: the items it yielded, and the exception
    that ended it, if one did. *)
Definition generated (A : Type) : Type := (list A * option exn)%type.

(** The body of the first loop of [_rp_forest_generate] for tree [i]. *)
Definition tree_between (d : RPForestDict) (props : list string) (i : nat)
  : result FlatTree :=
  tree <- mapM (fun prop =>
                  p <- dict_get d prop ;;
                  s <- index (start p) i ;;
                  p' <- dict_get d prop ;;
                  e <- index (start p') (i + 1) ;;
                  p'' <- dict_get d prop ;;
                  Ok (slice (data p'') s e)) props ;;
  FlatTree_of_list tree.

(** The block after the loop: the last tree runs to the end of the data. *)
Definition tree_last (d : RPForestDict) (props : list string) (num_trees : Z)
  : result FlatTree :=
  tree <- mapM (fun prop =>
                  p <- dict_get d prop ;;
                  s <- index_z (start p) num_trees ;;
                  p' <- dict_get d prop ;;
                  Ok (slice_from (data p') s)) props ;;
  FlatTree_of_list tree.

Fixpoint yield_all (steps : list (result FlatTree)) : generated FlatTree :=
  match steps with
  | [] => ([], None)
  | Ok t :: steps' =>
      let (ts, e) := yield_all steps' in (t :: ts, e)
  | Raise e :: _ => ([], Some e)
  end.

(** The generator, given the key [key] read for [num_trees] and the sequence
    [props] the two loops run over. [range(num_trees)] is empty when
    [num_trees] is not positive. *)
Definition generate_with (key : string) (props : list string)
  (d : RPForestDict) : generated FlatTree :=
  match dict_get d key with
  | Raise e => ([], Some e)
  | Ok p =>
      let num_trees := (Z.of_nat (List.length (start p)) - 1)%Z in
      yield_all (map (tree_between d props) (seq 0 (Z.to_nat num_trees))
                 ++ [tree_last d props num_trees])
  end.

(** [props = FlatTree._fields[0]]: the name ['hyperplanes'], a [str]; the
    loops [for prop in props] then run over its characters. *)
Definition _rp_forest_generate (d : RPForestDict) : generated FlatTree :=
  let props := nth 0 FlatTree_fields EmptyString in
  generate_with props (chars props) d.

End WithRow.
End Forest.

(** ** Numbers *)

Open Scope R_scope.

Definition Rltb (x y : R) : bool := if Rlt_dec x y then true else false.
Definition Rleb (x y : R) : bool := if Rle_dec x y then true else false.
Definition Reqb (x y : R) : bool := if Req_dec_T x y then true else false.

(** A [float64] value where [inf] and [nan] occur. *)
Inductive xreal : Type :=
| Fin (r : R)
| PInf
| NInf
| NaN.

(** [np.sqrt] *)
Definition xsqrt (x : xreal) : xreal :=
  match x with
  | Fin r => if Rltb r 0 then NaN else Fin (sqrt r)
  | PInf => PInf
  | NInf => NaN
  | NaN => NaN
  end.

(** [x / m] for a finite divisor [m] (IEEE 754: [0/0] is [nan], [x/0] is
    an infinity of the sign of [x], [inf/m] is an infinity). *)
Definition xdiv (x : xreal) (m : R) : xreal :=
  match x with
  | Fin r =>
      if Reqb m 0
      then (if Reqb r 0 then NaN else if Rltb 0 r then PInf else NInf)
      else Fin (r / m)
  | PInf => if Rltb m 0 then NInf else PInf
  | NInf => if Rltb m 0 then PInf else NInf
  | NaN => NaN
  end.

(** [x < np.inf] *)
Definition lt_inf (x : xreal) : bool :=
  match x with
  | Fin _ | NInf => true
  | PInf | NaN => false
  end.

(** The finite value of an entry selected by [x < np.inf]. *)
Definition finite_part (x : xreal) : option R :=
  match x with
  | Fin r => Some r
  | _ => None
  end.

(** Sum of a list of reals, left to right. *)
Definition Rsum (l : list R) : R := fold_left Rplus l 0.

(** [sum(f(k) for k in range(n))] *)
Definition rsum (n : nat) (f : nat -> R) : R := Rsum (map f (seq 0 n)).

(** ** Sorting: [np.argsort]

    [argsort a] lists the positions of [a] by increasing value. Equal values
    keep their order here; numpy's default sort leaves it unspecified. *)

Fixpoint insert_key (x : R * nat) (l : list (R * nat)) : list (R * nat) :=
  match l with
  | [] => [x]
  | y :: l' => if Rltb (fst y) (fst x) then y :: insert_key x l' else x :: l
  end.

Fixpoint sort_keys (l : list (R * nat)) : list (R * nat) :=
  match l with
  | [] => []
  | x :: l' => insert_key x (sort_keys l')
  end.

(** The order of the sort: by value. *)
Definition le_key (a b : R * nat) : Prop := fst a <= fst b.

Definition argsort (a : list R) : list nat :=
  map snd (sort_keys (combine a (seq 0 (List.length a)))).

(** [np.sort] *)
Definition sorted_values (a : list R) : list R :=
  map fst (sort_keys (combine a (seq 0 (List.length a)))).

(** [a[idx]] for an index array [idx] within bounds. *)
Definition take_at {A : Type} (d : A) (a : list A) (idx : list nat) : list A :=
  map (fun i => nth i a d) idx.

(** [np.median] of a row that is not empty. *)
Definition median (a : list R) : R :=
  let s := sorted_values a in
  let n := List.length a in
  if Nat.even n then (nth (n / 2 - 1) s 0 + nth (n / 2) s 0) / 2
  else nth (n / 2) s 0.

Arguments Rltb : simpl never.
Arguments Rleb : simpl never.
Arguments Reqb : simpl never.

(** ** Diffusion pseudotime: [_get_dpt_row], [_set_pseudotime],
    [_set_iroot_via_xroot] *)

Module Dpt.

(** The attributes of a [Neighbors] object these methods read.
    [connected_components] is [self._connected_components], set only when
    the connectivities are sparse: the pair [(n_components, labels)] of
    [scipy.sparse.csgraph.connected_components]. *)
Record state : Type := mkState {
  eigen_values : list R;
  eigen_basis : list (list R);
  number_connected_components : nat;
  connected_components : option (nat * list nat);
  X : list (list R);
  n_vars : nat;
  iroot : option nat
}.

(** A computed spectral decomposition and partition: at least one
    eigenvalue, one row of [eigen_basis] per observation and one column per
    eigenvalue; when the components were computed, their count and one
    label below it per observation. *)
Definition well_formed (s : state) : Prop :=
  eigen_values s <> []
  /\ Forall (fun r => List.length r = List.length (eigen_values s))
            (eigen_basis s)
  /\ match connected_components s with
     | Some (n, labels) =>
         number_connected_components s = n
         /\ List.length labels = List.length (eigen_basis s)
         /\ Forall (fun l => (l < n)%nat) labels
     | None => number_connected_components s = 1%nat
     end.

(** A numpy value that is a scalar or a 1-d array. *)
Inductive ndval : Type :=
| Scalar (x : xreal)
| Arr (a : list xreal).

(** [self.eigen_basis[:, l]] *)
Definition column (basis : list (list R)) (l : nat) : result (list R) :=
  mapM (fun r => index r l) basis.

(** [(w(self.eigen_basis[i, l] - self.eigen_basis[:, l]))**2], where [w]
    is the weighting of the difference. *)
Definition term (basis : list (list R)) (i l : nat) (w : R -> R)
  : result (list R) :=
  r <- index basis i ;;
  x <- index r l ;;
  col <- column basis l ;;
  Ok (map (fun y => (w (x - y)) ^ 2) col).

(** The components of the first sum, [eigen_values[l] < 0.9994], and of
    the second, [eigen_values[l] >= 0.9994]. *)
Definition decaying_components (s : state) : list nat :=
  filter (fun l => Rltb (nth l (eigen_values s) 0) 0.9994)
         (seq 0 (List.length (eigen_values s))).

Definition stationary_components (s : state) : list nat :=
  filter (fun l => negb (Rltb (nth l (eigen_values s) 0) 0.9994))
         (seq 0 (List.length (eigen_values s))).

(** The generator of the first sum: one array per decaying component. *)
Definition decaying_terms (s : state) (i : nat) : result (list (list R)) :=
  mapM (fun l => let ev := nth l (eigen_values s) 0 in
                 term (eigen_basis s) i l (fun d => ev / (1 - ev) * d))
       (decaying_components s).

(** The generator of the second sum. *)
Definition stationary_terms (s : state) (i : nat) : result (list (list R)) :=
  mapM (fun l => term (eigen_basis s) i l (fun d => d))
       (stationary_components s).

(** Python's [sum] starts from the integer 0: the sum of no array is the
    scalar 0, and [0 + a] is [a]. Arrays add elementwise. *)
Definition add_arrays (a b : list R) : list R :=
  map (fun p => fst p + snd p) (combine a b).

Definition py_sum (terms : list (list R)) : option (list R) :=
  match terms with
  | [] => None
  | a :: rest => Some (fold_left add_arrays rest a)
  end.

(** [row += other], each side the scalar 0 ([None]) or an array. *)
Definition py_iadd (row other : option (list R)) : option (list R) :=
  match row, other with
  | Some a, Some b => Some (add_arrays a b)
  | Some a, None => Some a
  | None, Some b => Some b
  | None, None => None
  end.

(** [row[~mask] = np.inf] with [mask = labels == label]. *)
Definition mask_row (labels : list nat) (label : nat) (row : list R)
  : list xreal :=
  map (fun p => if Nat.eqb (fst p) label then Fin (snd p) else PInf)
      (combine labels row).

Definition _get_dpt_row (s : state) (i : nat) : result ndval :=
  mask <- (if Nat.ltb 1 (number_connected_components s)
           then match connected_components s with
                | None => Raise (AttributeError "_connected_components")
                | Some (_, labels) =>
                    label <- index labels i ;; Ok (Some (labels, label))
                end
           else Ok None) ;;
  t1 <- decaying_terms s i ;;
  t2 <- stationary_terms s i ;;
  match py_iadd (py_sum t1) (py_sum t2), mask with
  | None, None => Ok (Scalar (xsqrt (Fin 0)))
  | None, Some _ => Raise TypeError
  | Some row, None => Ok (Arr (map (fun x => xsqrt (Fin x)) row))
  | Some row, Some (labels, label) =>
      if Nat.eqb (List.length labels) (List.length row)
      then Ok (Arr (map xsqrt (mask_row labels label row)))
      else Raise IndexError
  end.

(** [OnFlySymMatrix.__getitem__] for an integer index on the fresh,
    unrestricted matrix that the property [distances_dpt] builds: the row
    cache is empty, so the row is computed. *)
Definition distances_dpt_getitem (s : state) (index : option nat)
  : result ndval :=
  match index with
  | Some i => _get_dpt_row s i
  | None => Raise TypeError
  end.

(** [np.max] of the entries below [inf]. *)
Definition finite_entries (a : list xreal) : list R :=
  flat_map (fun x => if lt_inf x
                     then match finite_part x with Some r => [r] | None => [] end
                     else []) a.

Definition np_max (l : list R) : result R :=
  match l with
  | [] => Raise (ValueError "zero-size array to reduction operation maximum")
  | x :: rest => Ok (fold_left Rmax rest x)
  end.

(** The value bound to [self.pseudotime]. *)
Definition _set_pseudotime (s : state) : result ndval :=
  row <- distances_dpt_getitem s (iroot s) ;;
  match row with
  | Scalar x =>
      m <- np_max (finite_entries [x]) ;; Ok (Scalar (xdiv x m))
  | Arr a =>
      m <- np_max (finite_entries a) ;;
      Ok (Arr (map (fun x => xdiv x m) a))
  end.

(** [diff @ diff] with [diff = self._adata.X[i, :] - xroot] *)
Definition dsq_to (xroot x : list R) : R :=
  Rsum (map (fun p => (fst p - snd p) * (fst p - snd p)) (combine x xroot)).

(** The loop of [_set_iroot_via_xroot] from observation [i] on, with the
    current [dsqroot] and [iroot]. *)
Fixpoint scan_root (xroot : list R) (rows : list (list R)) (i : nat)
  (dsqroot : R) (iroot : nat) : nat :=
  match rows with
  | [] => iroot
  | x :: rest =>
      let dsq := dsq_to xroot x in
      if Rltb dsq dsqroot
      then if Rltb (sqrt dsq) (/ 10 ^ 10) then i
           else scan_root xroot rest (S i) dsq i
      else scan_root xroot rest (S i) dsqroot iroot
  end.

(** The value assigned to [self.iroot]. *)
Definition _set_iroot_via_xroot (s : state) (xroot : list R) : result nat :=
  if negb (Nat.eqb (n_vars s) (List.length xroot))
  then Raise (ValueError
    "The root vector you provided does not have the correct dimension.")
  else Ok (scan_root xroot (X s) 0 (10 ^ 10) 0).

(** The entries in closed form. [total] adds the values of the two
    families of terms as [sum] and [+=] do. *)
Definition total (v1 v2 : list R) : R :=
  match v1, v2 with
  | [], [] => 0
  | a :: r, [] => fold_left Rplus r a
  | [], b :: r => fold_left Rplus r b
  | a :: r, b :: r' => fold_left Rplus r a + fold_left Rplus r' b
  end.

Definition basis_at (s : state) (i l : nat) : R :=
  nth l (nth i (eigen_basis s) []) 0.

Definition squared_distance (s : state) (i j : nat) : R :=
  total
    (map (fun l => let ev := nth l (eigen_values s) 0 in
                   (ev / (1 - ev) * (basis_at s i l - basis_at s j l)) ^ 2)
         (decaying_components s))
    (map (fun l => (basis_at s i l - basis_at s j l) ^ 2)
         (stationary_components s)).

Definition distance (s : state) (i j : nat) : xreal :=
  match connected_components s with
  | Some (_, labels) =>
      if Nat.ltb 1 (number_connected_components s)
         && negb (Nat.eqb (nth j labels O) (nth i labels O))
      then PInf
      else xsqrt (Fin (squared_distance s i j))
  | None => xsqrt (Fin (squared_distance s i j))
  end.

End Dpt.

(** ** The class [OnFlySymMatrix]

    A matrix whose rows are computed by [get_row] when first read and kept
    in the dict [rows]. [restrict] hands the same dict to the view it
    builds, so the dicts live in a store and an object holds a reference. *)

Module OnFlySymMatrix.
Section WithEntries.

Variable A : Type.

(** A dict from global row indices to rows. *)
Definition dict : Type := list (BinNums.Z * list A).

Fixpoint dict_get (d : dict) (k : BinNums.Z) : option (list A) :=
  match d with
  | [] => None
  | (k', v) :: d' => if Z.eqb k' k then Some v else dict_get d' k
  end.

Definition dict_set (d : dict) (k : BinNums.Z) (v : list A) : dict :=
  (k, v) :: filter (fun e => negb (Z.eqb (fst e) k)) d.

(** The store of dicts, and a reference into it. *)
Definition store : Type := list dict.
Definition ref : Type := nat.

Definition cell (st : store) (r : ref) : dict := nth r st [].

Definition set_cell (st : store) (r : ref) (d : dict) : store :=
  firstn r st ++ d :: skipn (S r) st.

Record t : Type := mk {
  get_row : BinNums.Z -> result (list A);
  shape : nat * nat;
  DC_start : BinNums.Z;
  DC_end : BinNums.Z;
  rows : ref;
  restrict_array : option (list BinNums.Z)
}.

(** [OnFlySymMatrix(get_row, shape, DC_start, DC_end, rows, restrict_array)]:
    [rows=None] allocates an empty dict, a dict passed in is shared. *)
Definition __init__ (get_row : BinNums.Z -> result (list A))
  (shape : nat * nat) (DC_start DC_end : BinNums.Z) (rows : option ref)
  (restrict_array : option (list BinNums.Z)) (st : store) : t * store :=
  match rows with
  | None =>
      (mk get_row shape DC_start DC_end (List.length st) restrict_array,
       st ++ [[]])
  | Some r => (mk get_row shape DC_start DC_end r restrict_array, st)
  end.

(** The index of [__getitem__]: an integer, or a pair. *)
Inductive index_arg : Type :=
| Int (i : BinNums.Z)
| Pair (i j : BinNums.Z).

(** What [__getitem__] returns: a row or an entry. *)
Inductive item : Type :=
| Row (r : list A)
| Entry (x : A).

(** [if glob_index not in self.rows:
         self.rows[glob_index] = self.get_row(glob_index)]
    and then [self.rows[glob_index]]. *)
Definition cached_row (self : t) (glob_index : BinNums.Z) (st : store)
  : result (list A) * store :=
  match dict_get (cell st (rows self)) glob_index with
  | Some row => (Ok row, st)
  | None =>
      match get_row self glob_index with
      | Ok row =>
          (Ok row,
           set_cell st (rows self)
                    (dict_set (cell st (rows self)) glob_index row))
      | Raise e => (Raise e, st)
      end
  end.

Definition __getitem__ (self : t) (index : index_arg) (st : store)
  : result item * store :=
  match index with
  | Int i =>
      match (match restrict_array self with
             | None => Ok i
             | Some a => index_z a i
             end) with
      | Raise e => (Raise e, st)
      | Ok glob_index =>
          match cached_row self glob_index st with
          | (Raise e, st') => (Raise e, st')
          | (Ok row, st') =>
              match restrict_array self with
              | None => (Ok (Row row), st')
              | Some a =>
                  (* [row[self.restrict_array]] *)
                  (r <- mapM (index_z row) a ;; Ok (Row r), st')
              end
          end
      end
  | Pair i j =>
      match (match restrict_array self with
             | None => Ok (i, j)
             | Some a =>
                 g0 <- index_z a i ;; g1 <- index_z a j ;; Ok (g0, g1)
             end) with
      | Raise e => (Raise e, st)
      | Ok (glob_index_0, glob_index_1) =>
          match cached_row self glob_index_0 st with
          | (Raise e, st') => (Raise e, st')
          | (Ok row, st') =>
              (x <- index_z row glob_index_1 ;; Ok (Entry x), st')
          end
      end
  end.

(** [restrict(index_array)]: a view on the same dict of rows. *)
Definition restrict (self : t) (index_array : list BinNums.Z) (st : store)
  : t * store :=
  __init__ (get_row self)
           (List.length index_array, List.length index_array)
           (DC_start self) (DC_end self) (Some (rows self))
           (Some index_array) st.

End WithEntries.
End OnFlySymMatrix.

(** ** Sparse matrices and the neighbour arrays *)

(** A CSR matrix with its rows in storage order, each a list of stored
    [(column, value)] entries; [n_cols] is [shape[1]]. *)
Record csr : Type := mkCsr {
  n_cols : nat;
  csr_rows : list (list (nat * R))
}.

(** [M[i, j]]: the sum of the entries stored at [(i, j)], 0 if there is none. *)
Definition row_get (row : list (nat * R)) (j : nat) : R :=
  Rsum (map snd (filter (fun e => Nat.eqb (fst e) j) row)).

Definition csr_get (M : csr) (i j : nat) : R :=
  row_get (nth i (csr_rows M) []) j.

(** [eliminate_zeros] on one row *)
Definition eliminate_zeros_row (row : list (nat * R)) : list (nat * R) :=
  filter (fun e => negb (Reqb (snd e) 0)) row.

(** [sum_duplicates]: entries sorted by column, equal columns added up. *)
Fixpoint insert_entry (e : nat * R) (row : list (nat * R))
  : list (nat * R) :=
  match row with
  | [] => [e]
  | e' :: row' =>
      if Nat.ltb (fst e) (fst e') then e :: row
      else if Nat.eqb (fst e) (fst e') then (fst e', snd e' + snd e) :: row'
      else e' :: insert_entry e row'
  end.

Definition sum_duplicates (row : list (nat * R)) : list (nat * R) :=
  fold_left (fun acc e => insert_entry e acc) row [].

Module SparseBuilder.

(** A COO matrix: the triples [(row, col, val)] in array order. *)
Definition coo : Type := list (nat * Z * R).

(** The slot [i * n_neighbors + j] of [rows], [cols] and [vals] after the
    loops of [get_sparse_matrix_from_indices_distances_umap]: a slot the loop
    skips keeps the zeros of [np.zeros]. Writing to a slot of a row
    [i >= n_obs] is out of bounds. *)
Definition slot (knn_indices : list (list Z)) (knn_dists : list (list R))
  (n_obs i j : nat) : result (nat * Z * R) :=
  r <- index knn_indices i ;;
  c <- index r j ;;
  if (c =? -1)%Z then Ok (O, 0%Z, 0)
  else
    val <- (if (c =? Z.of_nat i)%Z then Ok 0
            else dr <- index knn_dists i ;; index dr j) ;;
    if Nat.leb n_obs i then Raise IndexError else Ok (i, c, val).

Definition slots (knn_indices : list (list Z)) (knn_dists : list (list R))
  (n_obs n_neighbors : nat) : result coo :=
  written <- mapM (fun i => mapM (slot knn_indices knn_dists n_obs i)
                                 (seq 0 n_neighbors))
                  (seq 0 (List.length knn_indices)) ;;
  (* rows of [i >= knn_indices.shape[0]] are never written *)
  Ok (List.concat written
      ++ repeat (O, 0%Z, 0)
           ((n_obs - List.length knn_indices) * n_neighbors)).

(** [coo_matrix((vals, (rows, cols)), shape=(n_obs, n_obs))] checks the
    indices against the shape when there is at least one entry. *)
Definition coo_matrix (entries : coo) (n_obs : nat) : result coo :=
  if forallb (fun e => Nat.ltb (fst (fst e)) n_obs) entries then
    if forallb (fun e => (snd (fst e) <? Z.of_nat n_obs)%Z) entries then
      if forallb (fun e => (0 <=? snd (fst e))%Z) entries then Ok entries
      else Raise (ValueError "negative column index found")
    else Raise (ValueError "column index exceeds matrix dimensions")
  else Raise (ValueError "row index exceeds matrix dimensions").

(** [result.eliminate_zeros()] on the COO matrix *)
Definition coo_eliminate_zeros (entries : coo) : coo :=
  filter (fun e => negb (Reqb (snd e) 0)) entries.

(** [result.tocsr()]: the entries of each row, duplicates summed. *)
Definition tocsr (entries : coo) (n_obs : nat) : csr :=
  mkCsr n_obs
    (map (fun i =>
            sum_duplicates
              (map (fun e => (Z.to_nat (snd (fst e)), snd e))
                   (filter (fun e => Nat.eqb (fst (fst e)) i) entries)))
         (seq 0 n_obs)).

Definition get_sparse_matrix_from_indices_distances_umap
  (knn_indices : list (list Z)) (knn_dists : list (list R))
  (n_obs n_neighbors : nat) : result csr :=
  entries <- slots knn_indices knn_dists n_obs n_neighbors ;;
  result <- coo_matrix entries n_obs ;;
  Ok (tocsr (coo_eliminate_zeros result) n_obs).

(** [get_sparse_matrix_from_indices_distances_numpy]:
    [indptr = np.arange(0, n_nonzero + 1, n_neighbors)] raises on a zero
    step; the raveled arrays are cut into rows of [n_neighbors] entries by
    [indptr]; the constructor checks the lengths only; [eliminate_zeros]
    drops the zero values. *)
Definition get_sparse_matrix_from_indices_distances_numpy
  (indices : list (list nat)) (distances : list (list R))
  (n_obs n_neighbors : nat) : result csr :=
  if Nat.eqb n_neighbors 0 then Raise ZeroDivisionError else
  let data := List.concat distances in
  let cols := List.concat indices in
  if negb (Nat.eqb (List.length cols) (List.length data))
  then Raise (ValueError "indices and data should have the same size")
  else if Nat.ltb (List.length cols) (n_obs * n_neighbors)
  then Raise (ValueError "Last value of index pointer should be less than the size of index and data arrays")
  else Ok (mkCsr n_obs
             (map (fun i =>
                     eliminate_zeros_row
                       (slice (combine cols data)
                              (i * n_neighbors) ((i + 1) * n_neighbors)))
                  (seq 0 n_obs))).

(** One row of [get_indices_distances_from_sparse_matrix]:
    [np.zeros] rows of length [n_neighbors], the point itself first, then
    the assignment of the neighbours to the slice [[1:]], which must have
    the length [n_neighbors - 1] of the slice, or length 1 (broadcast). *)
Definition assign_tail {A : Type} (m : nat) (v : list A)
  : result (list A) :=
  if Nat.eqb (List.length v) m then Ok v
  else match v with
       | [x] => Ok (repeat x m)
       | _ => Raise (ValueError "could not broadcast input array")
       end.

Definition row_from_sparse (row : list (nat * R)) (i n_neighbors : nat)
  : result (list nat * list R) :=
  match n_neighbors with
  | O => Raise IndexError
  | S n_neighbors_m1 =>
      (* [D[i].nonzero()]: the stored entries whose value is not zero *)
      let neighbors := map fst (eliminate_zeros_row row) in
      (* [D[i][neighbors]] *)
      let values := map (row_get row) neighbors in
      if Nat.ltb n_neighbors_m1 (List.length neighbors) then
        let sorted_indices := firstn n_neighbors_m1 (argsort values) in
        Ok (i :: take_at O neighbors sorted_indices,
            0 :: take_at 0 values sorted_indices)
      else
        ind <- assign_tail n_neighbors_m1 neighbors ;;
        dis <- assign_tail n_neighbors_m1 values ;;
        Ok (i :: ind, 0 :: dis)
  end.

Definition get_indices_distances_from_sparse_matrix (D : csr)
  (n_neighbors : nat) : result (list (list nat) * list (list R)) :=
  rows <- mapM (fun p => row_from_sparse (snd p) (fst p) n_neighbors)
               (combine (seq 0 (List.length (csr_rows D))) (csr_rows D)) ;;
  Ok (map fst rows, map snd rows).

(** [get_indices_distances_from_dense_matrix]: [argpartition] then
    [argsort] of the [n_neighbors] smallest entries of each row. *)
Definition row_from_dense (row : list R) (n_neighbors : nat)
  : result (list nat * list R) :=
  (* [kth = n_neighbors - 1] must index the row; -1 is its last entry *)
  if Nat.ltb (List.length row) (Nat.max 1 n_neighbors)
  then Raise (ValueError "kth out of bounds")
  else let ind := firstn n_neighbors (argsort row) in
       Ok (ind, take_at 0 row ind).

Definition get_indices_distances_from_dense_matrix (D : list (list R))
  (n_neighbors : nat) : result (list (list nat) * list (list R)) :=
  rows <- mapM (fun row => row_from_dense row n_neighbors) D ;;
  Ok (map fst rows, map snd rows).

(** Closed form of a slot of arrays of the right shape, and of the entry
    [(i, c)] of the matrix built from them: the distances of the slots of
    row [i] that name [c], unless [c] is [i] itself. *)
Definition slot_closed (knn_indices : list (list Z))
  (knn_dists : list (list R)) (i j : nat) : nat * Z * R :=
  let c := nth j (nth i knn_indices []) 0%Z in
  if (c =? -1)%Z then (O, 0%Z, 0)
  else (i, c, if (c =? Z.of_nat i)%Z then 0
              else nth j (nth i knn_dists []) 0).

Definition entry_closed (knn_indices : list (list Z))
  (knn_dists : list (list R)) (n_neighbors i c : nat) : R :=
  rsum n_neighbors
       (fun j => if (nth j (nth i knn_indices []) 0%Z =? Z.of_nat c)%Z
                    && negb (Nat.eqb c i)
                 then nth j (nth i knn_dists []) 0 else 0).

End SparseBuilder.

(** ** The Gauss kernel: [Neighbors._compute_connectivities_diffmap] *)

(** A matrix attribute of a [Neighbors] object: [np.ndarray] or CSR. *)
Inductive matrix : Type :=
| Dense (d : list (list R))
| Sparse (s : csr).

Definition issparse (m : matrix) : bool :=
  match m with
  | Dense _ => false
  | Sparse _ => true
  end.

Module Gauss.
Import SparseBuilder.

(** Dense path: [np.sqrt(Num/Den) * np.exp(-Dsq/Den)] at [(i, j)] with
    [Num = 2 * np.multiply.outer(sigmas, sigmas)] and
    [Den = np.add.outer(sigmas_sq, sigmas_sq)]. *)
Definition weight_dense (sigmas sigmas_sq : list R) (i j : nat) (dsq : R)
  : R :=
  let Num := 2 * (nth i sigmas 0 * nth j sigmas 0) in
  let Den := nth i sigmas_sq 0 + nth j sigmas_sq 0 in
  sqrt (Num / Den) * exp (- dsq / Den).

(** Sparse path: [np.sqrt(num/den) * np.exp(-data/den)] for the entry of
    row [i] stored at column [j], with [num = 2 * sigmas[i] * sigmas[row]]
    and [den = sigmas_sq[i] + sigmas_sq[row]]. *)
Definition weight_sparse (sigmas sigmas_sq : list R) (i j : nat) (dsq : R)
  : result R :=
  sj <- index sigmas j ;;
  ssj <- index sigmas_sq j ;;
  let num := 2 * nth i sigmas 0 * sj in
  let den := nth i sigmas_sq 0 + ssj in
  Ok (sqrt (num / den) * exp (- dsq / den)).

(** [a[:, 1:]] *)
Definition drop_first {A : Type} (a : list (list A)) : list (list A) :=
  map (@tl A) a.

(** [knn == False]: the distances are a dense array. *)
Definition gauss_dense (distances : list (list R)) (n_neighbors : nat)
  : result (list (list R)) :=
  let Dsq := map (map (fun d => d ^ 2)) distances in
  r <- get_indices_distances_from_dense_matrix Dsq n_neighbors ;;
  let distances_sq := drop_first (snd r) in
  (* [distances_sq[:, -1]]: the slice has [n_neighbors - 1] columns *)
  if Nat.leb n_neighbors 1 then Raise IndexError else
  sigmas_sq <- mapM (fun row => x <- index_z row (-1) ;; Ok (x / 4))
                    distances_sq ;;
  let sigmas := map sqrt sigmas_sq in
  let n := List.length Dsq in
  if negb (forallb (fun row => Nat.eqb (List.length row) n) Dsq)
  then Raise (ValueError "operands could not be broadcast together")
  else
    Ok (map (fun ir =>
               map (fun jd =>
                      let w := weight_dense sigmas sigmas_sq
                                            (fst ir) (fst jd) (snd jd) in
                      (* [mask = W > 1e-14; W[mask == False] = 0] *)
                      if Rltb (/ 10 ^ 14) w then w else 0)
                   (combine (seq 0 n) (snd ir)))
            (combine (seq 0 n) Dsq)).

(** A LIL matrix: rows of stored entries sorted by column. *)
Definition lil : Type := list (list (nat * R)).

(** [W[i, j]] on the LIL matrix of shape [(n, n_cols)] *)
Definition lil_get (n_cols : nat) (W : lil) (i j : nat) : result R :=
  row <- index W i ;;
  if Nat.leb n_cols j then Raise IndexError else Ok (row_get row j).

(** [W[j, i] = x]: a zero deletes the entry, another value replaces or
    inserts it. *)
Definition lil_set (n_cols : nat) (W : lil) (j i : nat) (x : R)
  : result lil :=
  row <- index W j ;;
  if Nat.leb n_cols i then Raise IndexError else
  let rest := filter (fun e => negb (Nat.eqb (fst e) i)) row in
  let row' := if Reqb x 0 then rest else insert_entry (i, x) rest in
  Ok (firstn j W ++ row' :: skipn (S j) W).

(** One turn of the inner loop:
    [if i not in set(indices[j]): W[j, i] = W[i, j]]. *)
Definition borrow (n_cols : nat) (indices : list (list nat)) (W : lil)
  (i j : nat) : result lil :=
  nj <- index indices j ;;
  if existsb (Nat.eqb i) nj then Ok W
  else x <- lil_get n_cols W i j ;; lil_set n_cols W j i x.

(** [for i, row in enumerate(indices): for j in row: ...] *)
Definition edges (indices : list (list nat)) : list (nat * nat) :=
  flat_map (fun ir => map (fun j => (fst ir, j)) (snd ir))
           (combine (seq 0 (List.length indices)) indices).

Definition borrow_all (n_cols : nat) (indices : list (list nat)) (W : lil)
  : result lil :=
  fold_left (fun acc e => W' <- acc ;;
                          borrow n_cols indices W' (fst e) (snd e))
            (edges indices) (Ok W).

(** [knn == True]: the distances are a CSR matrix. *)
Definition gauss_sparse (distances : csr) (n_neighbors : nat) : result csr :=
  let Dsq := map (map (fun e => (fst e, snd e ^ 2))) (csr_rows distances) in
  r <- get_indices_distances_from_sparse_matrix
         (mkCsr (n_cols distances) Dsq) n_neighbors ;;
  let indices := drop_first (fst r) in
  let distances_sq := drop_first (snd r) in
  sigmas_sq <- mapM (fun row =>
                       match row with
                       | [] => Raise (Unmodelled "median of an empty row is nan")
                       | _ => Ok (median row)
                       end) distances_sq ;;
  let sigmas := map sqrt sigmas_sq in
  data <- mapM (fun ir =>
                  mapM (fun e =>
                          w <- weight_sparse sigmas sigmas_sq
                                             (fst ir) (fst e) (snd e) ;;
                          Ok (fst e, w))
                       (snd ir))
               (combine (seq 0 (List.length Dsq)) Dsq) ;;
  (* [W.tolil()] sums duplicates and sorts each row *)
  W <- borrow_all (n_cols distances) indices (map sum_duplicates data) ;;
  Ok (mkCsr (n_cols distances) W).

(** The value assigned to [self._connectivities]. With [knn] set,
    [self._distances.power(2)] exists only on a sparse matrix; numpy's
    [np.power] of a sparse matrix is outside this embedding. *)
Definition _compute_connectivities_diffmap (knn : bool) (distances : matrix)
  (n_neighbors : nat) : result matrix :=
  match knn, distances with
  | true, Sparse D => W <- gauss_sparse D n_neighbors ;; Ok (Sparse W)
  | true, Dense _ => Raise (AttributeError "power")
  | false, Dense D => W <- gauss_dense D n_neighbors ;; Ok (Dense W)
  | false, Sparse _ => Raise (Unmodelled "np.power of a sparse matrix")
  end.

(** Closed forms of the dense path: the bandwidth of observation [i], a
    quarter of the [n_neighbors]-th smallest squared distance of its row,
    and the weight before and after the cut at [1e-14]. *)
Definition sigma_sq_dense (distances : list (list R)) (n_neighbors i : nat)
  : R :=
  nth (n_neighbors - 1)
      (sorted_values (map (fun d => d ^ 2) (nth i distances []))) 0 / 4.

Definition kernel_dense (distances : list (list R)) (n_neighbors i j : nat)
  : R :=
  let si := sigma_sq_dense distances n_neighbors i in
  let sj := sigma_sq_dense distances n_neighbors j in
  sqrt (2 * (sqrt si * sqrt sj) / (si + sj))
  * exp (- (nth j (nth i distances []) 0) ^ 2 / (si + sj)).

Definition cut (w : R) : R := if Rltb (/ 10 ^ 14) w then w else 0.

(** Closed forms of the sparse path: the bandwidths, medians of the
    squared distances stored in each row, and the weight of an entry. *)
Definition sigmas_sq_sparse (distances : csr) : list R :=
  map (fun row => median (map (fun e => snd e ^ 2) row)) (csr_rows distances).

Definition weight_closed (sigmas_sq : list R) (i j : nat) (dsq : R) : R :=
  let si := nth i sigmas_sq 0 in
  let sj := nth j sigmas_sq 0 in
  sqrt (2 * sqrt si * sqrt sj / (si + sj)) * exp (- dsq / (si + sj)).

End Gauss.

(** ** Transition matrices: [compute_transitions] and the property
    [transitions] *)

Module Transitions.

(** [A[i, j]] of a 2-d array *)
Definition get (A : list (list R)) (i j : nat) : R :=
  nth j (nth i A []) 0.

(** The [(n, n)] array with entry [f i j] at [(i, j)]. *)
Definition mk_matrix (n : nat) (f : nat -> nat -> R) : list (list R) :=
  map (fun i => map (fun j => f i j) (seq 0 n)) (seq 0 n).

(** [A @ B] for [(n, n)] arrays *)
Definition matmul (n : nat) (A B : list (list R)) : list (list R) :=
  mk_matrix n (fun i j => rsum n (fun k => get A i k * get B k j)).

(** [A.sum(axis=0)]: the sum of each column *)
Definition sum_axis0 (n : nat) (A : list (list R)) : list R :=
  map (fun j => rsum n (fun i => get A i j)) (seq 0 n).

(** [np.diag(d)] of a vector, or [scipy.sparse.spdiags(d, 0, n, n)] *)
Definition diag (n : nat) (d : list R) : list (list R) :=
  mk_matrix n (fun i j => if Nat.eqb i j then nth i d 0 else 0).

(** [np.diag(A)] of a matrix: its diagonal *)
Definition diagonal (n : nat) (A : list (list R)) : list R :=
  map (fun i => get A i i) (seq 0 n).

(** The entries of a matrix attribute. *)
Definition entries (m : matrix) : list (list R) :=
  match m with
  | Dense d => d
  | Sparse s => map (fun row => map (row_get row) (seq 0 (n_cols s)))
                    (csr_rows s)
  end.

(** A result of the same kind as [m]: an array, or a sparse matrix given
    by its entries that are not zero. *)
Definition like (m : matrix) (A : list (list R)) : matrix :=
  match m with
  | Dense _ => Dense A
  | Sparse _ =>
      Sparse (mkCsr (List.length A)
                (map (fun row =>
                        eliminate_zeros_row
                          (combine (seq 0 (List.length row)) row)) A))
  end.

Definition is_square (n : nat) (A : list (list R)) : bool :=
  Nat.eqb (List.length A) n
  && forallb (fun row => Nat.eqb (List.length row) n) A.

(** The pair [(self.Z, self._transitions_sym)] that [compute_transitions]
    assigns, from [W = self._connectivities]. *)
Definition compute_transitions (connectivities : option matrix)
  (density_normalize : bool) : result (matrix * matrix) :=
  match connectivities with
  | None => Raise (AttributeError "sum")
  | Some Wm =>
      let W := entries Wm in
      let n := List.length W in
      if negb (is_square n W)
      then Raise (ValueError "dimension mismatch")
      else
        let K :=
          if density_normalize then
            let q := sum_axis0 n W in
            let Q := diag n (map (fun x => 1 / x) q) in
            matmul n (matmul n Q W) Q
          else W in
        let z := map sqrt (sum_axis0 n K) in
        let Z := diag n (map (fun x => 1 / x) z) in
        Ok (like Wm Z, like Wm (matmul n (matmul n Z K) Z))
  end.

(** The property [transitions]: [self.Z @ self.transitions_sym @ Zinv],
    with [Zinv] the inverse of the diagonal of [self.Z]. The attribute [Z]
    exists only once [compute_transitions] has run. *)
Definition transitions (Z transitions_sym : option matrix) : result matrix :=
  match Z with
  | None => Raise (AttributeError "Z")
  | Some Zm =>
      let Zd := entries Zm in
      let n := List.length Zd in
      let Zinv := diag n (map (fun x => 1 / x) (diagonal n Zd)) in
      match transitions_sym with
      | None => Raise TypeError
      | Some T =>
          Ok (like Zm (matmul n (matmul n Zd (entries T)) Zinv))
      end
  end.

(** Closed forms: [column_sum n A j] is [A.sum(axis=0)[j]], and [kernel]
    is the entry of [K], which is [Q @ W @ Q] under density normalization
    and [W] without it. *)
Definition column_sum (n : nat) (A : list (list R)) (j : nat) : R :=
  rsum n (fun i => get A i j).

Definition kernel (W : list (list R)) (density_normalize : bool)
  (i j : nat) : R :=
  let n := List.length W in
  if density_normalize
  then 1 / column_sum n W i * get W i j * (1 / column_sum n W j)
  else get W i j.

(** The connectivities of an undirected weighted graph in which every
    observation has an edge: a square array, symmetric, without negative
    weights, each column with a positive sum. *)
Definition weighted_graph (W : list (list R)) : Prop :=
  let n := List.length W in
  is_square n W = true
  /\ (forall i j, (i < n)%nat -> (j < n)%nat -> get W i j = get W j i)
  /\ (forall i j, (i < n)%nat -> (j < n)%nat -> 0 <= get W i j)
  /\ (forall j, (j < n)%nat -> 0 < column_sum n W j).

End Transitions.

(** ** The class [Neighbors] and the function [neighbors] *)

Module Neighbors.
Import SparseBuilder.

(** The parameter record [adata.uns['neighbors']['params']]. *)
Record params : Type := mkParams {
  p_n_neighbors : nat;
  p_method : string;
  p_metric : string;
  p_metric_kwds : option (list (string * R));
  p_use_rep : option string;
  p_n_pcs : option nat
}.

(** The block [adata.uns['neighbors']]; a key that is absent is [None]. *)
Record uns_neighbors : Type := mkUns {
  u_params : option params;
  u_distances : option matrix;
  u_connectivities : option matrix
}.

(** What this module reads of the annotated data. *)
Record AnnData : Type := mkAnnData {
  shape : nat * nat;
  data_X : list (list R);
  uns : option uns_neighbors;
  uns_iroot : option nat;
  xroot : option (list R);
  diffmap : option (list R * list (list R))
}.

(** The attributes of a [Neighbors] object; an attribute that was never
    assigned is [None]. [n_neighbors_attr], [Z], [knn_indices] and
    [_connected_components] are not assigned by every [__init__]. *)
Record obj : Type := mkObj {
  _adata : AnnData;
  iroot : option nat;
  knn : option bool;
  _distances : option matrix;
  _connectivities : option matrix;
  _transitions_sym : option matrix;
  _number_connected_components : option nat;
  _connected_components : option (nat * list nat);
  n_neighbors_attr : option nat;
  Z : option matrix;
  knn_indices : option (list (list BinNums.Z) * list (list R));
  _eigen_values : option (list R);
  _eigen_basis : option (list (list R))
}.

(** A method call: the object after it, and the exception it raised. *)
Definition outcome : Type := (obj * option exn)%type.

Definition try {A : Type} (o : obj) (m : result A) (k : A -> outcome)
  : outcome :=
  match m with
  | Ok a => k a
  | Raise e => (o, Some e)
  end.

Definition set_n_neighbors (o : obj) (n : option nat) : obj :=
  mkObj (_adata o) (iroot o) (knn o) (_distances o) (_connectivities o)
        (_transitions_sym o) (_number_connected_components o)
        (_connected_components o) n (Z o) (knn_indices o)
        (_eigen_values o) (_eigen_basis o).

Definition set_knn (o : obj) (b : option bool) : obj :=
  mkObj (_adata o) (iroot o) b (_distances o) (_connectivities o)
        (_transitions_sym o) (_number_connected_components o)
        (_connected_components o) (n_neighbors_attr o) (Z o) (knn_indices o)
        (_eigen_values o) (_eigen_basis o).

Definition set_distances (o : obj) (d : option matrix) : obj :=
  mkObj (_adata o) (iroot o) (knn o) d (_connectivities o)
        (_transitions_sym o) (_number_connected_components o)
        (_connected_components o) (n_neighbors_attr o) (Z o) (knn_indices o)
        (_eigen_values o) (_eigen_basis o).

Definition set_connectivities (o : obj) (c : option matrix) : obj :=
  mkObj (_adata o) (iroot o) (knn o) (_distances o) c
        (_transitions_sym o) (_number_connected_components o)
        (_connected_components o) (n_neighbors_attr o) (Z o) (knn_indices o)
        (_eigen_values o) (_eigen_basis o).

Definition set_components (o : obj) (n : option nat)
  (cc : option (nat * list nat)) : obj :=
  mkObj (_adata o) (iroot o) (knn o) (_distances o) (_connectivities o)
        (_transitions_sym o) n cc (n_neighbors_attr o) (Z o) (knn_indices o)
        (_eigen_values o) (_eigen_basis o).

Definition set_knn_indices (o : obj)
  (k : option (list (list BinNums.Z) * list (list R))) : obj :=
  mkObj (_adata o) (iroot o) (knn o) (_distances o) (_connectivities o)
        (_transitions_sym o) (_number_connected_components o)
        (_connected_components o) (n_neighbors_attr o) (Z o) k
        (_eigen_values o) (_eigen_basis o).

Definition set_transitions (o : obj) (z t : option matrix) : obj :=
  mkObj (_adata o) (iroot o) (knn o) (_distances o) (_connectivities o)
        t (_number_connected_components o)
        (_connected_components o) (n_neighbors_attr o) z (knn_indices o)
        (_eigen_values o) (_eigen_basis o).

Definition set_eigen (o : obj) (v : option (list R))
  (b : option (list (list R))) : obj :=
  mkObj (_adata o) (iroot o) (knn o) (_distances o) (_connectivities o)
        (_transitions_sym o) (_number_connected_components o)
        (_connected_components o) (n_neighbors_attr o) (Z o) (knn_indices o)
        v b.

Definition set_iroot (o : obj) (r : option nat) : obj :=
  mkObj (_adata o) r (knn o) (_distances o) (_connectivities o)
        (_transitions_sym o) (_number_connected_components o)
        (_connected_components o) (n_neighbors_attr o) (Z o) (knn_indices o)
        (_eigen_values o) (_eigen_basis o).

(** [a.count_nonzero() if issparse(a) else np.count_nonzero(a)] *)
Definition count_nonzero (a : matrix) : nat :=
  match a with
  | Dense d =>
      List.length (filter (fun x => negb (Reqb x 0)) (List.concat d))
  | Sparse s =>
      List.length (List.concat (map eliminate_zeros_row (csr_rows s)))
  end.

Definition shape0 (a : matrix) : nat :=
  match a with
  | Dense d => List.length d
  | Sparse s => List.length (csr_rows s)
  end.

Section External.

(** The collaborators of the class, outside this repository's source:
    [choose_representation], sklearn's [pairwise_distances], umap's
    [nearest_neighbors] and [fuzzy_simplicial_set], scipy's
    [connected_components], and the eigensolvers of [compute_eigen]. *)
Variable choose_representation :
  AnnData -> option string -> option nat -> list (list R).
Variable pairwise_distances : list (list R) -> string -> list (list R).
Variable nearest_neighbors :
  list (list R) -> nat -> string -> list (list BinNums.Z) * list (list R).
Variable fuzzy_simplicial_set :
  nat -> nat -> list (list BinNums.Z) -> list (list R) -> csr.
Variable connected_components : csr -> nat * list nat.
Variable eigensolve :
  matrix -> nat -> string -> list R * list (list R).

(** [_init_iroot] *)
Definition _init_iroot (adata : AnnData) : result (option nat) :=
  match uns_iroot adata with
  | Some r => if Nat.leb (fst (shape adata)) r then Ok None else Ok (Some r)
  | None =>
      match xroot adata with
      | Some x =>
          if Nat.eqb (List.length x) (snd (shape adata))
          then Ok (Some (Dpt.scan_root x (data_X adata) 0 (10 ^ 10) 0))
          else Ok None
      | None => Ok None
      end
  end.

(** [Neighbors.__init__(adata, n_dcs)] *)
Definition __init__ (adata : AnnData) (n_dcs : option nat) : result obj :=
  r <- _init_iroot adata ;;
  let o0 := mkObj adata r None None None None None None None None None
                  None None in
  o1 <- match uns adata with
        | None => Ok o0
        | Some u =>
            let o := match u_distances u with
                     | Some d => set_distances (set_knn o0 (Some (issparse d)))
                                               (Some d)
                     | None => o0
                     end in
            let o := match u_connectivities u with
                     | Some c =>
                         set_connectivities (set_knn o (Some (issparse c)))
                                            (Some c)
                     | None => o
                     end in
            n <- match u_params u with
                 | Some p => Ok (p_n_neighbors p)
                 | None =>
                     match _connectivities o, _distances o with
                     | None, None => Raise (AttributeError "count_nonzero")
                     | None, Some d =>
                         if Nat.eqb (shape0 d) 0
                         then Raise (Unmodelled "division by a zero shape")
                         else Ok (count_nonzero d / shape0 d)%nat
                     | Some c, _ =>
                         if Nat.eqb (shape0 c) 0
                         then Raise (Unmodelled "division by a zero shape")
                         else Ok (count_nonzero c / (shape0 c * 2))%nat
                     end
                 end ;;
            let o := set_n_neighbors o (Some n) in
            Ok (match _connectivities o with
                | Some (Sparse c) =>
                    set_components o (Some (fst (connected_components c)))
                                   (Some (connected_components c))
                | _ => set_components o (Some 1%nat) None
                end)
        end ;;
  match diffmap adata with
  | Some (evals, basis) =>
      match n_dcs with
      | Some n =>
          if Nat.ltb (List.length evals) n
          then Raise (ValueError "Cannot instantiate using `n_dcs`. Compute diffmap/spectrum with more components first.")
          else Ok (set_eigen o1 (Some (firstn n evals))
                             (Some (map (firstn n) basis)))
      | None => Ok (set_eigen o1 (Some evals) (Some basis))
      end
  | None => Ok o1
  end.

(** [n_neighbors = 1 + int(0.5*self._adata.shape[0])] when the request
    exceeds the number of observations. *)
Definition adjust_n_neighbors (n_obs n_neighbors : nat) : nat :=
  if Nat.ltb n_obs n_neighbors then (1 + n_obs / 2)%nat else n_neighbors.

(** [compute_connectivities_umap] *)
Definition compute_connectivities_umap (knn_i : list (list BinNums.Z))
  (knn_d : list (list R)) (n_obs n_neighbors : nat) : result (csr * csr) :=
  let connectivities := fuzzy_simplicial_set n_obs n_neighbors knn_i knn_d in
  distances <- get_sparse_matrix_from_indices_distances_umap
                 knn_i knn_d n_obs n_neighbors ;;
  Ok (distances, connectivities).

(** [Neighbors.compute_neighbors] *)
Definition compute_neighbors (self : obj) (n_neighbors : nat) (knn_arg : bool)
  (n_pcs : option nat) (use_rep : option string) (method : string)
  (write_knn_indices : bool) (metric : string) : outcome :=
  let n_obs := fst (shape (_adata self)) in
  let n_neighbors := adjust_n_neighbors n_obs n_neighbors in
  if String.eqb method "umap" && negb knn_arg
  then (self, Some (ValueError "`method = 'umap' only with `knn = True`."))
  else if negb (String.eqb method "umap" || String.eqb method "gauss")
  then (self, Some (ValueError "`method` needs to be 'umap' or 'gauss'."))
  else
    let self := set_knn (set_n_neighbors self (Some n_neighbors))
                        (Some knn_arg) in
    let X := choose_representation (_adata self) use_rep n_pcs in
    let use_dense_distances :=
      (String.eqb metric "euclidean" && Nat.ltb (List.length X) 8192)
      || negb knn_arg in
    (* neighbor search *)
    let searched : outcome * (list (list BinNums.Z) * list (list R)) :=
      if use_dense_distances then
        let _d := pairwise_distances X metric in
        match get_indices_distances_from_dense_matrix _d n_neighbors with
        | Raise e => ((self, Some e), ([], []))
        | Ok (ki, kd) =>
            let found := (map (map Z.of_nat) ki, kd) in
            if knn_arg then
              match get_sparse_matrix_from_indices_distances_numpy
                      ki kd (List.length X) n_neighbors with
              | Raise e => ((self, Some e), found)
              | Ok D => ((set_distances self (Some (Sparse D)), None), found)
              end
            else ((set_distances self (Some (Dense _d)), None), found)
        end
      else
        let X' := if Nat.ltb (List.length X) 4096
                  then pairwise_distances X metric else X in
        let metric' := if Nat.ltb (List.length X) 4096
                       then "precomputed"%string else metric in
        ((self, None), nearest_neighbors X' n_neighbors metric') in
    match searched with
    | ((self, Some e), _) => (self, Some e)
    | ((self, None), (ki, kd)) =>
        let self := if write_knn_indices
                    then set_knn_indices self (Some (ki, kd)) else self in
        try self
          (if negb use_dense_distances || String.eqb method "umap"
           then
             dc <- compute_connectivities_umap ki kd n_obs n_neighbors ;;
             Ok (set_connectivities
                   (set_distances self (Some (Sparse (fst dc))))
                   (Some (Sparse (snd dc))))
           else Ok self)
          (fun self =>
             try self
               (if String.eqb method "gauss"
                then
                  match _distances self with
                  | None => Raise (AttributeError "power")
                  | Some D =>
                      W <- Gauss._compute_connectivities_diffmap
                             knn_arg D n_neighbors ;;
                      Ok (set_connectivities self (Some W))
                  end
                else Ok self)
               (fun self =>
                  (match _connectivities self with
                   | Some (Sparse c) =>
                       set_components self
                         (Some (fst (connected_components c)))
                         (Some (connected_components c))
                   | _ => set_components self (Some 1%nat)
                                         (_connected_components self)
                   end, None)))
    end.

(** [Neighbors.compute_transitions] *)
Definition compute_transitions (self : obj) (density_normalize : bool)
  : outcome :=
  try self (Transitions.compute_transitions (_connectivities self)
                                            density_normalize)
      (fun zt => (set_transitions self (Some (fst zt)) (Some (snd zt)), None)).

(** The property [transitions] *)
Definition transitions (self : obj) : result matrix :=
  Transitions.transitions (Z self) (_transitions_sym self).

(** [Neighbors.compute_eigen] *)
Definition compute_eigen (self : obj) (n_comps : nat) (sort : string)
  : outcome :=
  match _transitions_sym self with
  | None => (self, Some (ValueError "Run `.compute_transitions` first."))
  | Some m =>
      let ev := eigensolve m n_comps sort in
      (set_eigen self (Some (fst ev)) (Some (snd ev)), None)
  end.

(** The calls made on an object on which [compute_transitions] does not
    run. *)
Inductive call : Type :=
| ComputeNeighbors (n_neighbors : nat) (knn_arg : bool) (n_pcs : option nat)
    (use_rep : option string) (method : string) (write_knn_indices : bool)
    (metric : string)
| ComputeEigen (n_comps : nat) (sort : string)
| ReadTransitions.

Definition run (self : obj) (c : call) : obj :=
  match c with
  | ComputeNeighbors n k p u m w me =>
      fst (compute_neighbors self n k p u m w me)
  | ComputeEigen n s => fst (compute_eigen self n s)
  | ReadTransitions => self
  end.

(** The objects on which [compute_transitions] has not run: built by
    [__init__], then used through other calls only. *)
Inductive fresh : obj -> Prop :=
| fresh_init adata n_dcs o : __init__ adata n_dcs = Ok o -> fresh o
| fresh_run o c : fresh o -> fresh (run o c).

(** The function [neighbors]: the block written to
    [adata.uns['neighbors']], or the exception raised. *)
Definition neighbors (adata : AnnData) (n_neighbors : nat)
  (n_pcs : option nat) (use_rep : option string) (knn_arg : bool)
  (method metric : string) (metric_kwds : list (string * R))
  : result (uns_neighbors * obj) :=
  self <- __init__ adata None ;;
  match compute_neighbors self n_neighbors knn_arg n_pcs use_rep method
                          false metric with
  | (_, Some e) => Raise e
  | (self, None) =>
      Ok (mkUns
            (Some (mkParams n_neighbors method metric
                     (match metric_kwds with
                      | [] => None
                      | _ => Some metric_kwds
                      end)
                     use_rep n_pcs))
            (_distances self) (_connectivities self),
          self)
  end.

End External.

(** The annotated data once [neighbors] has written its block to
    [adata.uns['neighbors']]. *)
Definition with_uns (adata : AnnData) (block : uns_neighbors) : AnnData :=
  mkAnnData (shape adata) (data_X adata) (Some block) (uns_iroot adata)
            (xroot adata) (diffmap adata).

End Neighbors.

(** ** Concrete inputs *)

Module Examples.

(** Two observations of one variable, no earlier results. *)
Definition adata2 : Neighbors.AnnData :=
  Neighbors.mkAnnData (2%nat, 1%nat) [[0]; [1]] None None None None.

(** Collaborators that answer for [adata2]: the distance between the two
    observations is 1. *)
Definition choose_representation (a : Neighbors.AnnData) (_ : option string)
  (_ : option nat) : list (list R) := Neighbors.data_X a.

Definition pairwise_distances (_ : list (list R)) (_ : string)
  : list (list R) := [[0; 1]; [1; 0]].

Definition nearest_neighbors (_ : list (list R)) (_ : nat) (_ : string)
  : list (list Z) * list (list R) :=
  ([[0; 1]; [1; 0]]%Z, [[0; 1]; [0; 1]]).

Definition fuzzy_simplicial_set (_ _ : nat) (_ : list (list Z))
  (_ : list (list R)) : csr :=
  mkCsr 2 [[(1%nat, 1)]; [(0%nat, 1)]].

Definition connected_components (_ : csr) : nat * list nat :=
  (1%nat, [0; 0]%nat).

Definition eigensolve (_ : matrix) (_ : nat) (_ : string)
  : list R * list (list R) := ([], []).

(** The object [Neighbors(adata2)]. *)
Definition fresh2 : Neighbors.obj :=
  Neighbors.mkObj adata2 None None None None None None None None None None
                  None None.

(** Two observations of one variable, at [1e-11] and at [0]. *)
Definition close_pair : Dpt.state :=
  Dpt.mkState [] [] 1 None [[/ 10 ^ 11]; [0]] 1 None.

(** Two observations in two components, one eigencomponent; the root is
    observation 0, alone in its component. *)
Definition two_components : Dpt.state :=
  Dpt.mkState [0.5] [[1]; [2]] 2 (Some (2%nat, [0; 1]%nat)) [] 0 (Some 0%nat).

(** The same observations in one component. *)
Definition one_component : Dpt.state :=
  Dpt.mkState [0.5] [[1]; [2]] 1 (Some (1%nat, [0; 0]%nat)) [] 0 (Some 0%nat).

(** A distance matrix on three observations whose first row stores two
    neighbours although one is asked for: the search was approximate. *)
Definition over_complete : csr :=
  mkCsr 3 [[(1%nat, 1); (2%nat, 2)]; [(0%nat, 1)]; [(1%nat, 1.5)]].

(** A distance matrix on two observations whose first row is empty. *)
Definition under_complete : csr :=
  mkCsr 2 [[]; [(0%nat, 1)]].

(** Two observations that each store the other as their only neighbour. *)
Definition single_neighbour : csr :=
  mkCsr 2 [[(1%nat, 1)]; [(0%nat, 2)]].

(** The connectivities of two observations joined by one edge. *)
Definition pair_graph : matrix := Dense [[0; 1]; [1; 0]].

(** The pairwise distances of three points on a line, at 0, 1 and 3. *)
Definition line3 : list (list R) :=
  [[0; 1; 3]; [1; 0; 2]; [3; 2; 0]].

(** Two observations far from the origin, the second the nearer one. *)
Definition far_points : Dpt.state :=
  Dpt.mkState [] [] 1 None [[10 ^ 6]; [2 * 10 ^ 5]] 1 None.

(** One observation, no diffusion component, rooted at the observation. *)
Definition no_spectrum : Dpt.state :=
  Dpt.mkState [] [[]] 1 None [[0]] 1 (Some 0%nat).

(** An on-the-fly matrix on three observations whose row [i] is
    [[i; i + 1; i + 2]], with its empty dict of rows in a store of its
    own. *)
Definition on_fly : OnFlySymMatrix.t R :=
  OnFlySymMatrix.mk (fun i => Ok [IZR i; IZR i + 1; IZR i + 2]) (3, 3)%nat
                    0%Z (-1)%Z 0%nat None.

Definition on_fly_store : OnFlySymMatrix.store R := [[]].

(** A forest of two trees whose arrays have different sizes. *)
Definition forest2 : list (Forest.FlatTree nat) :=
  [Forest.mkFlatTree [1; 2]%nat [3]%nat [4; 5; 6]%nat [7]%nat;
   Forest.mkFlatTree [8]%nat [9; 10]%nat [11]%nat [12; 13]%nat].

(** Sparse distances on three observations with one neighbour each:
    observations 0 and 1 name each other, observation 2 names 1. *)
Definition one_neighbour_each : csr :=
  mkCsr 3 [[(1%nat, 1)]; [(0%nat, 1)]; [(1%nat, 1.5)]].

(** Two observations of one variable that coincide, and the pairwise
    distances of such a pair. *)
Definition twins : Neighbors.AnnData :=
  Neighbors.mkAnnData (2%nat, 1%nat) [[1]; [1]] None None None None.

Definition coincident_distances (_ : list (list R)) (_ : string)
  : list (list R) := [[0; 0]; [0; 0]].

(** Three observations of two variables whose Manhattan distances are
    1, 2 and 1.5, these pairwise distances, and the result of an
    approximate search for two neighbours each in which observation 0 does
    not list itself: the search gives [over_complete]. *)
Definition adata3 : Neighbors.AnnData :=
  Neighbors.mkAnnData (3%nat, 2%nat) [[0; 0]; [1; 0]; [0.75; 1.25]]
                      None None None None.

Definition manhattan3 (_ : list (list R)) (_ : string) : list (list R) :=
  [[0; 1; 2]; [1; 0; 1.5]; [2; 1.5; 0]].

Definition missed_self (_ : list (list R)) (_ : nat) (_ : string)
  : list (list Z) * list (list R) :=
  ([[1; 2]; [1; 0]; [2; 1]]%Z, [[1; 2]; [0; 1]; [0; 1.5]]).

(** The object [Neighbors(adata3)]. *)
Definition fresh3 : Neighbors.obj :=
  Neighbors.mkObj adata3 None None None None None None None None None None
                  None None.

End Examples.

(** * Properties *)

(** ** Numbers *)

Lemma Rltb_true x y : x < y -> Rltb x y = true.
Proof. intros H. unfold Rltb. destruct (Rlt_dec x y); [reflexivity|lra]. Qed.

Lemma Rltb_false x y : y <= x -> Rltb x y = false.
Proof. intros H. unfold Rltb. destruct (Rlt_dec x y); [lra|reflexivity]. Qed.

Lemma Rltb_spec x y : Rltb x y = true <-> x < y.
Proof.
  unfold Rltb. destruct (Rlt_dec x y); split; intros; try easy.
Qed.

Lemma Reqb_true x y : x = y -> Reqb x y = true.
Proof. intros H. unfold Reqb. destruct (Req_dec_T x y); [reflexivity|lra]. Qed.

Lemma Reqb_false x y : x <> y -> Reqb x y = false.
Proof.
  intros H. unfold Reqb. destruct (Req_dec_T x y); [contradiction|reflexivity].
Qed.

Lemma Reqb_spec x y : Reqb x y = true <-> x = y.
Proof.
  unfold Reqb. destruct (Req_dec_T x y); split; intros; try easy.
Qed.

(** Decide the comparisons of closed real terms met while running a
    definition on a concrete input. *)
Ltac r_step :=
  match goal with
  | |- context [Reqb ?a ?b] =>
      first [ rewrite (@Reqb_true a b) by lra
            | rewrite (@Reqb_false a b) by lra ]
  | |- context [Rltb ?a ?b] =>
      first [ rewrite (@Rltb_true a b) by lra
            | rewrite (@Rltb_false a b) by lra ]
  end.

Ltac r_run := repeat (cbn; r_step); cbn.


(** ** The random-projection forest *)

Lemma mapM_ok {A B : Type} (f : A -> result B) (g : A -> B) (l : list A) :
  (forall a, In a l -> f a = Ok (g a)) -> mapM f l = Ok (map g l).
Proof.
  induction l as [|a l IH]; intros H; simpl.
  - reflexivity.
  - rewrite (H a (or_introl eq_refl)). simpl.
    rewrite IH by (intros b Hb; apply H; right; exact Hb).
    reflexivity.
Qed.

Lemma flatten_prop_cons {row : Type} (t : Forest.FlatTree row)
  (ts : list (Forest.FlatTree row)) (prop : string)
  (proj : Forest.FlatTree row -> list row) :
  (forall t', Forest.getattr t' prop = Ok (proj t')) ->
  Forest.flatten_prop (t :: ts) prop
  = Ok (Forest.mkFlatProp
          (Forest.starts_from 0 (map (@List.length row) (map proj (t :: ts))))
          (List.concat (map proj (t :: ts)))).
Proof.
  intros H. unfold Forest.flatten_prop.
  rewrite (mapM_ok _ proj) by (intros; apply H).
  reflexivity.
Qed.

(** The dictionary [_make_forest_dict] builds from a forest that is not
    empty. *)
Lemma make_forest_dict_cons {row : Type} (t : Forest.FlatTree row)
  (ts : list (Forest.FlatTree row)) :
  exists ph po pc pi,
    Forest._make_forest_dict (t :: ts)
    = Ok [("hyperplanes"%string, ph); ("offsets"%string, po);
          ("children"%string, pc); ("indices"%string, pi)]
    /\ List.length (Forest.start ph) = S (List.length ts).
Proof.
  do 4 eexists. unfold Forest._make_forest_dict, Forest.FlatTree_fields.
  cbn [mapM].
  rewrite (@flatten_prop_cons row t ts "hyperplanes"%string (@Forest.hyperplanes row))
    by reflexivity.
  rewrite (@flatten_prop_cons row t ts "offsets"%string (@Forest.offsets row))
    by reflexivity.
  rewrite (@flatten_prop_cons row t ts "children"%string (@Forest.children row))
    by reflexivity.
  rewrite (@flatten_prop_cons row t ts "indices"%string (@Forest.indices row))
    by reflexivity.
  cbn [bind]. split; [reflexivity|].
  cbn [Forest.start]. 
  assert (Hlen : forall s (l : list nat),
            List.length (Forest.starts_from s l) = List.length l).
  { intros s l; revert s; induction l; intros; simpl; auto. }
  rewrite Hlen, !length_map. reflexivity.
Qed.

(** C8, on the code: whatever the forest (of at least one tree), the
    generator applied to its flattened form yields no tree and ends with
    [KeyError: 'h']: [props] is the string ['hyperplanes'], whose characters
    are looked up as keys. The round trip of the claim does not take place. *)
Theorem C8_rp_forest_generate_raises_key_error {row : Type}
  (t : Forest.FlatTree row) (ts : list (Forest.FlatTree row)) :
  exists d,
    Forest._make_forest_dict (t :: ts) = Ok d
    /\ Forest._rp_forest_generate d = ([], Some (KeyError "h")).
Proof.
  destruct (make_forest_dict_cons t ts) as (ph & po & pc & pi & Hd & Hlen).
  eexists; split; [exact Hd|].
  unfold Forest._rp_forest_generate, Forest.generate_with.
  cbn [nth Forest.FlatTree_fields Forest.dict_get String.eqb Ascii.eqb
       Bool.eqb].
  simpl Forest.dict_get.
  rewrite Hlen.
  replace (Z.to_nat (Z.of_nat (S (List.length ts)) - 1)) with (List.length ts)
    by lia.
  destruct ts as [|t' ts']; simpl; reflexivity.
Qed.

(** ** The object: state order and the recorded parameters *)

Ltac break_if :=
  match goal with
  | |- context [if ?b then _ else _] => destruct b eqn:?
  end.

(** Case analysis on a scrutinee that holds no case analysis itself. *)
Ltac break_inner :=
  match goal with
  | |- context [match ?x with _ => _ end] =>
      lazymatch x with
      | context [match _ with _ => _ end] => fail
      | _ => destruct x eqn:?
      end
  end.

Ltac break_match :=
  match goal with
  | |- context [match ?x with _ => _ end] => destruct x eqn:?
  | H : context [match ?x with _ => _ end] |- _ => destruct x eqn:?
  end.

Section NeighborsFacts.

Variable choose_representation :
  Neighbors.AnnData -> option string -> option nat -> list (list R).
Variable pairwise_distances : list (list R) -> string -> list (list R).
Variable nearest_neighbors :
  list (list R) -> nat -> string -> list (list Z) * list (list R).
Variable fuzzy_simplicial_set :
  nat -> nat -> list (list Z) -> list (list R) -> csr.
Variable connected_components : csr -> nat * list nat.
Variable eigensolve : matrix -> nat -> string -> list R * list (list R).

Notation init := (Neighbors.__init__ connected_components).
Notation compute_neighbors :=
  (Neighbors.compute_neighbors choose_representation pairwise_distances
     nearest_neighbors fuzzy_simplicial_set connected_components).
Notation compute_eigen := (Neighbors.compute_eigen eigensolve).
Notation fresh :=
  (Neighbors.fresh choose_representation pairwise_distances nearest_neighbors
     fuzzy_simplicial_set connected_components eigensolve).
Notation neighbors :=
  (Neighbors.neighbors choose_representation pairwise_distances
     nearest_neighbors fuzzy_simplicial_set connected_components).


Lemma init_state adata n_dcs o :
  init adata n_dcs = Ok o ->
  Neighbors.Z o = None /\ Neighbors._transitions_sym o = None
  /\ Neighbors._adata o = adata.
Proof.
  unfold Neighbors.__init__, bind. intros H.
  repeat break_match; try discriminate;
    repeat match goal with
           | H : Ok _ = Ok _ |- _ => inversion H; clear H; subst
           end; cbn; auto.
Qed.

(** [compute_neighbors] assigns neither [Z] nor [_transitions_sym]. *)
Lemma compute_neighbors_untouched self n k p u m w me :
  let self' := fst (compute_neighbors self n k p u m w me) in
  Neighbors.Z self' = Neighbors.Z self
  /\ Neighbors._transitions_sym self' = Neighbors._transitions_sym self
  /\ Neighbors._adata self' = Neighbors._adata self.
Proof.
  unfold Neighbors.compute_neighbors, Neighbors.try, bind.
  cbv zeta.
  repeat (break_inner; cbn [fst snd]); cbn; auto.
Qed.

Lemma compute_neighbors_n_neighbors self n k p u m w me self' :
  compute_neighbors self n k p u m w me = (self', None) ->
  Neighbors.n_neighbors_attr self'
  = Some (Neighbors.adjust_n_neighbors
            (fst (Neighbors.shape (Neighbors._adata self))) n).
Proof.
  unfold Neighbors.compute_neighbors, Neighbors.try, bind.
  cbv zeta.
  repeat (break_inner; cbn [fst snd]);
    intros H; inversion H; subst; cbn; auto.
Qed.

Lemma fresh_untouched o :
  fresh o ->
  Neighbors.Z o = None /\ Neighbors._transitions_sym o = None.
Proof.
  induction 1 as [adata n_dcs o Hinit | o c Hf [HZ HT]].
  - destruct (init_state _ _ Hinit) as (? & ? & ?); auto.
  - destruct c; cbn [Neighbors.run].
    + destruct (compute_neighbors_untouched o n_neighbors knn_arg n_pcs
                  use_rep method write_knn_indices metric) as (-> & -> & _).
      auto.
    + unfold Neighbors.compute_eigen. rewrite HT. cbn. auto.
    + auto.
Qed.

(** C7, on the code: on an object on which [compute_transitions] has not
    run, [compute_eigen] raises the [ValueError] that asks to run
    [compute_transitions] first, but reading [transitions] raises an
    [AttributeError] on [Z], an attribute that only [compute_transitions]
    assigns: the property carries no state check of its own. *)
Theorem C7_transitions_before_compute_transitions (o : Neighbors.obj) :
  fresh o ->
  Neighbors.transitions o = Raise (AttributeError "Z")
  /\ forall n_comps sort,
       compute_eigen o n_comps sort
       = (o, Some (ValueError "Run `.compute_transitions` first.")).
Proof.
  intros Hf. destruct (fresh_untouched Hf) as [HZ HT]. split.
  - unfold Neighbors.transitions, Transitions.transitions. rewrite HZ.
    reflexivity.
  - intros. unfold Neighbors.compute_eigen. rewrite HT. reflexivity.
Qed.

Lemma adjust_idempotent n_obs n :
  Neighbors.adjust_n_neighbors n_obs (Neighbors.adjust_n_neighbors n_obs n)
  = Neighbors.adjust_n_neighbors n_obs n.
Proof.
  unfold Neighbors.adjust_n_neighbors.
  destruct (Nat.ltb n_obs n) eqn:E.
  - destruct (Nat.ltb n_obs (1 + n_obs / 2)) eqn:E'; reflexivity.
  - rewrite E. reflexivity.
Qed.

Lemma compute_neighbors_adjusted self n k p u m w me :
  compute_neighbors self n k p u m w me
  = compute_neighbors self
      (Neighbors.adjust_n_neighbors
         (fst (Neighbors.shape (Neighbors._adata self))) n) k p u m w me.
Proof.
  unfold Neighbors.compute_neighbors. rewrite adjust_idempotent.
  reflexivity.
Qed.

End NeighborsFacts.

Lemma C7_witness :
  Neighbors.transitions Examples.fresh2 = Raise (AttributeError "Z")
  /\ forall n_comps sort,
       Neighbors.compute_eigen Examples.eigensolve Examples.fresh2 n_comps sort
       = (Examples.fresh2,
          Some (ValueError "Run `.compute_transitions` first.")).
Proof.
  apply (@C7_transitions_before_compute_transitions
           Examples.choose_representation Examples.pairwise_distances
           Examples.nearest_neighbors Examples.fuzzy_simplicial_set
           Examples.connected_components Examples.eigensolve).
  apply Neighbors.fresh_init with (adata := Examples.adata2) (n_dcs := None).
  reflexivity.
Defined.

(** [neighbors(adata2, n_neighbors=5, metric='cosine')] returns. *)
Lemma neighbors_adata2_returns :
  exists block self,
    Neighbors.neighbors Examples.choose_representation
      Examples.pairwise_distances Examples.nearest_neighbors
      Examples.fuzzy_simplicial_set Examples.connected_components
      Examples.adata2 5 None None true "umap" "cosine" []
    = Ok (block, self).
Proof.
  do 2 eexists.
  unfold Neighbors.neighbors, Neighbors.compute_neighbors.
  r_run. reflexivity.
Defined.

(** ** Root selection: [_set_iroot_via_xroot] *)

Section RootScan.

Variable xroot : list R.

Notation d := (Dpt.dsq_to xroot).
Notation close x := (sqrt (Dpt.dsq_to xroot x) < / 10 ^ 10).

(** The scan stops at the first observation within [1e-10] of [xroot]. *)
Lemma scan_root_exit (rows : list (list R)) :
  forall (i : nat) (D : R) (r k : nat) (x : list R),
    ~ sqrt D < / 10 ^ 10 ->
    nth_error rows k = Some x ->
    close x ->
    (forall j y, (j < k)%nat -> nth_error rows j = Some y -> ~ close y) ->
    Dpt.scan_root xroot rows i D r = (i + k)%nat.
Proof.
  induction rows as [|x0 rest IH]; intros i D r k x HD Hk Hx Hbefore.
  - destruct k; discriminate.
  - destruct k as [|k]; cbn [Dpt.scan_root].
    + injection Hk as ->.
      assert (Hlt : d x < D).
      { apply sqrt_lt_0_alt. lra. }
      rewrite (Rltb_true Hlt), (Rltb_true Hx). lia.
    + assert (H0 : ~ close x0) by (apply (Hbefore 0%nat); [lia|reflexivity]).
      assert (Hrest : forall j y, (j < k)%nat -> nth_error rest j = Some y ->
                                  ~ close y).
      { intros j y Hj Hy. apply (Hbefore (S j)); [lia|exact Hy]. }
      destruct (Rlt_dec (d x0) D) as [Hlt|Hge].
      * rewrite (Rltb_true Hlt), (@Rltb_false (sqrt (d x0))) by lra.
        rewrite (@IH (S i) (d x0) i k x H0 Hk Hx Hrest). lia.
      * rewrite (@Rltb_false (d x0) D) by lra.
        rewrite (@IH (S i) D r k x HD Hk Hx Hrest). lia.
Qed.

(** Without such an observation the scan keeps the first strict minimum
    below the starting value [D]. *)
Lemma scan_root_minimum (rows : list (list R)) :
  forall (i : nat) (D : R) (r : nat),
    (forall y, In y rows -> ~ close y) ->
    (Dpt.scan_root xroot rows i D r = r
     /\ forall y, In y rows -> D <= d y)
    \/ exists k x,
         Dpt.scan_root xroot rows i D r = (i + k)%nat
         /\ nth_error rows k = Some x
         /\ d x < D
         /\ (forall y, In y rows -> d x <= d y)
         /\ (forall j y, (j < k)%nat -> nth_error rows j = Some y ->
                         d x < d y).
Proof.
  induction rows as [|x0 rest IH]; intros i D r Hfar.
  - left. split; [reflexivity|]. intros y [].
  - assert (H0 : ~ close x0) by (apply Hfar; left; reflexivity).
    assert (Hrest : forall y, In y rest -> ~ close y)
      by (intros y Hy; apply Hfar; right; exact Hy).
    cbn [Dpt.scan_root].
    destruct (Rlt_dec (d x0) D) as [Hlt|Hge].
    + rewrite (Rltb_true Hlt), (@Rltb_false (sqrt (d x0))) by lra.
      right.
      destruct (IH (S i) (d x0) i Hrest)
        as [[Hr Hall] | (k & x & Hr & Hk & Hx & Hmin & Hfirst)].
      * exists 0%nat, x0. rewrite Hr.
        split; [lia|]. split; [reflexivity|]. split; [exact Hlt|]. split.
        -- intros y [<-|Hy]; [lra|apply Hall; exact Hy].
        -- intros j y Hj; lia.
      * exists (S k), x. rewrite Hr.
        split; [lia|]. split; [exact Hk|]. split; [lra|]. split.
        -- intros y [<-|Hy]; [lra|apply Hmin; exact Hy].
        -- intros [|j] y Hj Hy; cbn in Hy.
           ++ injection Hy as <-. exact Hx.
           ++ apply (Hfirst j); [lia|exact Hy].
    + rewrite (@Rltb_false (d x0) D) by lra.
      destruct (IH (S i) D r Hrest)
        as [[Hr Hall] | (k & x & Hr & Hk & Hx & Hmin & Hfirst)].
      * left. split; [exact Hr|].
        intros y [<-|Hy]; [lra|apply Hall; exact Hy].
      * right. exists (S k), x. rewrite Hr.
        split; [lia|]. split; [exact Hk|]. split; [exact Hx|]. split.
        -- intros y [<-|Hy]; [lra|apply Hmin; exact Hy].
        -- intros [|j] y Hj Hy; cbn in Hy.
           ++ injection Hy as <-. lra.
           ++ apply (Hfirst j); [lia|exact Hy].
Qed.

End RootScan.

Lemma sqrt_1e10_far : ~ sqrt (10 ^ 10) < / 10 ^ 10.
Proof.
  replace (10 ^ 10) with (10 ^ 5 * 10 ^ 5) at 1 by ring.
  rewrite sqrt_square by (apply pow_le; lra).
  assert (0 < / 10 ^ 10) by (apply Rinv_0_lt_compat, pow_lt; lra).
  assert (1 <= 10 ^ 5) by (apply pow_R1_Rle; lra).
  assert (/ 10 ^ 10 <= 1).
  { rewrite <- Rinv_1. apply Rinv_le_contravar; [lra|].
    apply pow_R1_Rle; lra. }
  lra.
Qed.

(** C9, amended: with a reference vector of the right size, root selection
    returns the first observation whose distance to it is below [1e-10],
    when there is one (the scan stops there and sees no later observation);
    when there is none and some observation has a squared distance below
    [1e10], it returns the first index that achieves the minimum squared
    distance over all observations. *)
Theorem C9_root_is_first_close_or_first_minimum (s : Dpt.state)
  (xroot : list R) :
  Dpt.n_vars s = List.length xroot ->
  exists r,
    Dpt._set_iroot_via_xroot s xroot = Ok r
    /\ (forall k x,
          nth_error (Dpt.X s) k = Some x ->
          sqrt (Dpt.dsq_to xroot x) < / 10 ^ 10 ->
          (forall j y, (j < k)%nat -> nth_error (Dpt.X s) j = Some y ->
                       ~ sqrt (Dpt.dsq_to xroot y) < / 10 ^ 10) ->
          r = k)
    /\ ((forall y, In y (Dpt.X s) ->
                   ~ sqrt (Dpt.dsq_to xroot y) < / 10 ^ 10) ->
        (exists y, In y (Dpt.X s) /\ Dpt.dsq_to xroot y < 10 ^ 10) ->
        exists x,
          nth_error (Dpt.X s) r = Some x
          /\ (forall y, In y (Dpt.X s) ->
                        Dpt.dsq_to xroot x <= Dpt.dsq_to xroot y)
          /\ (forall j y, (j < r)%nat -> nth_error (Dpt.X s) j = Some y ->
                          Dpt.dsq_to xroot x < Dpt.dsq_to xroot y)).
Proof.
  intros Hsize. unfold Dpt._set_iroot_via_xroot.
  rewrite Hsize, Nat.eqb_refl. cbn [negb].
  eexists; split; [reflexivity|]. split.
  - intros k x Hk Hx Hbefore.
    erewrite scan_root_exit;
      [reflexivity | exact sqrt_1e10_far | exact Hk | exact Hx
       | exact Hbefore].
  - intros Hfar (y & Hy & Hlt).
    destruct (@scan_root_minimum xroot (Dpt.X s) 0 (10 ^ 10) 0 Hfar)
      as [[_ Hall] | (k & x & Hr & Hk & _ & Hmin & Hfirst)].
    + specialize (Hall y Hy). lra.
    + rewrite Hr. cbn [Nat.add]. exists x. auto.
Qed.

Lemma C9_witness :
  exists r, Dpt._set_iroot_via_xroot Examples.close_pair [0] = Ok r.
Proof.
  destruct (@C9_root_is_first_close_or_first_minimum Examples.close_pair [0])
    as (r & Hr & _).
  - reflexivity.
  - exists r. exact Hr.
Defined.

(** C9 as stated fails: for [X = [[1e-11], [0]]] and [xroot = [0]] the scan
    stops at observation 0, whose squared distance [1e-22] is not the
    minimum: observation 1 is at distance 0. *)
Lemma C9_counterexample :
  exists r x y,
    Dpt._set_iroot_via_xroot Examples.close_pair [0] = Ok r
    /\ nth_error (Dpt.X Examples.close_pair) r = Some x
    /\ In y (Dpt.X Examples.close_pair)
    /\ Dpt.dsq_to [0] y < Dpt.dsq_to [0] x.
Proof.
  assert (Hpos : 0 < / 10 ^ 11) by (apply Rinv_0_lt_compat, pow_lt; lra).
  assert (Hsmall : / 10 ^ 11 < / 10 ^ 10).
  { apply Rinv_lt_contravar.
    - apply Rmult_lt_0_compat; apply pow_lt; lra.
    - replace (10 ^ 11) with (10 * 10 ^ 10) by ring.
      assert (0 < 10 ^ 10) by (apply pow_lt; lra). lra. }
  assert (Hd : Dpt.dsq_to [0] [/ 10 ^ 11] = / 10 ^ 11 * / 10 ^ 11).
  { unfold Dpt.dsq_to, Rsum. cbn. ring. }
  exists 0%nat, [/ 10 ^ 11], [0].
  split; [|split; [reflexivity|split; [right; left; reflexivity|]]].
  - unfold Dpt._set_iroot_via_xroot. cbn [Examples.close_pair Dpt.n_vars
      Dpt.X List.length Nat.eqb negb Dpt.scan_root].
    rewrite Hd.
    assert (H1 : / 10 ^ 11 * / 10 ^ 11 < 10 ^ 10).
    { assert (1 <= 10 ^ 10) by (apply pow_R1_Rle; lra).
      assert (/ 10 ^ 10 <= 1).
      { rewrite <- Rinv_1. apply Rinv_le_contravar; lra. }
      nra. }
    rewrite (Rltb_true H1).
    rewrite sqrt_square by lra.
    rewrite (Rltb_true Hsmall). reflexivity.
  - rewrite Hd. unfold Dpt.dsq_to, Rsum. cbn. nra.
Qed.

(** ** Diffusion pseudotime *)

Lemma index_nth {A : Type} (l : list A) (i : nat) (d : A) :
  (i < List.length l)%nat -> index l i = Ok (nth i l d).
Proof.
  intros H. unfold index.
  rewrite (nth_error_nth' l d H). reflexivity.
Qed.

Lemma map_nth_seq {A B : Type} (g : A -> B) (l : list A) (d : A) :
  map g l = map (fun j => g (nth j l d)) (seq 0 (List.length l)).
Proof.
  induction l as [|a l IH]; [reflexivity|].
  cbn [map List.length seq nth]. f_equal.
  rewrite <- seq_shift, map_map. exact IH.
Qed.

Lemma nth_error_map_seq {B : Type} (F : nat -> B) (n j : nat) :
  (j < n)%nat -> nth_error (map F (seq 0 n)) j = Some (F j).
Proof.
  intros H. rewrite nth_error_map, nth_error_seq.
  apply Nat.ltb_lt in H. rewrite H. reflexivity.
Qed.

Lemma add_arrays_map (a b : nat -> R) (s : list nat) :
  Dpt.add_arrays (map a s) (map b s) = map (fun j => a j + b j) s.
Proof.
  unfold Dpt.add_arrays.
  induction s as [|x s IH]; [reflexivity|].
  cbn [map combine fst snd]. f_equal. exact IH.
Qed.

(** The elementwise sum of arrays given by their entries. *)
Lemma fold_add_arrays (f : nat -> nat -> R) (n : nat) (L : list nat) :
  forall a0 : nat -> R,
    fold_left Dpt.add_arrays (map (fun l => map (f l) (seq 0 n)) L)
              (map a0 (seq 0 n))
    = map (fun j => fold_left Rplus (map (fun l => f l j) L) (a0 j))
          (seq 0 n).
Proof.
  induction L as [|l L IH]; intros a0; [reflexivity|].
  cbn [map fold_left]. rewrite add_arrays_map, IH. reflexivity.
Qed.

Lemma py_rows (f g : nat -> nat -> R) (n : nat) (L1 L2 : list nat) :
  L1 ++ L2 <> [] ->
  Dpt.py_iadd (Dpt.py_sum (map (fun l => map (f l) (seq 0 n)) L1))
              (Dpt.py_sum (map (fun l => map (g l) (seq 0 n)) L2))
  = Some (map (fun j => Dpt.total (map (fun l => f l j) L1)
                                  (map (fun l => g l j) L2))
              (seq 0 n)).
Proof.
  intros Hne.
  destruct L1 as [|l1 L1], L2 as [|l2 L2]; cbn [map Dpt.py_sum Dpt.py_iadd].
  - contradiction Hne; reflexivity.
  - rewrite fold_add_arrays. reflexivity.
  - rewrite fold_add_arrays. reflexivity.
  - rewrite !fold_add_arrays, add_arrays_map. reflexivity.
Qed.

Lemma combine_map {A B : Type} (a : nat -> A) (b : nat -> B) (s : list nat) :
  combine (map a s) (map b s) = map (fun j => (a j, b j)) s.
Proof.
  induction s as [|x s IH]; [reflexivity|]. cbn. f_equal. exact IH.
Qed.

Section DptRow.

Variable s : Dpt.state.
Hypothesis Hwf : Dpt.well_formed s.

Notation n := (List.length (Dpt.eigen_basis s)).
Notation m := (List.length (Dpt.eigen_values s)).

Lemma row_length (i : nat) :
  (i < n)%nat -> List.length (nth i (Dpt.eigen_basis s) []) = m.
Proof.
  intros Hi. destruct Hwf as (_ & Hrows & _).
  rewrite Forall_forall in Hrows. apply Hrows, nth_In, Hi.
Qed.

Lemma term_closed (i l : nat) (w : R -> R) :
  (i < n)%nat -> (l < m)%nat ->
  Dpt.term (Dpt.eigen_basis s) i l w
  = Ok (map (fun j => (w (Dpt.basis_at s i l - Dpt.basis_at s j l)) ^ 2)
            (seq 0 n)).
Proof.
  intros Hi Hl. unfold Dpt.term, Dpt.column.
  rewrite (@index_nth _ (Dpt.eigen_basis s) i [] Hi). cbn [bind].
  rewrite (@index_nth _ (nth i (Dpt.eigen_basis s) []) l 0)
    by (rewrite row_length; assumption).
  cbn [bind].
  rewrite (@mapM_ok _ _ (fun r => index r l) (fun r => nth l r 0)).
  - cbn [bind]. rewrite map_map.
    rewrite (map_nth_seq _ (Dpt.eigen_basis s) []). reflexivity.
  - intros r Hr. apply index_nth.
    destruct Hwf as (_ & Hrows & _). rewrite Forall_forall in Hrows.
    rewrite (Hrows r Hr). exact Hl.
Qed.

Lemma decaying_terms_closed (i : nat) :
  (i < n)%nat ->
  Dpt.decaying_terms s i
  = Ok (map (fun l =>
               map (fun j =>
                      (nth l (Dpt.eigen_values s) 0
                       / (1 - nth l (Dpt.eigen_values s) 0)
                       * (Dpt.basis_at s i l - Dpt.basis_at s j l)) ^ 2)
                   (seq 0 n))
            (Dpt.decaying_components s)).
Proof.
  intros Hi. unfold Dpt.decaying_terms. apply mapM_ok.
  intros l Hl. apply filter_In in Hl. destruct Hl as [Hl _].
  apply in_seq in Hl. cbv zeta.
  apply (@term_closed i l
           (fun d => nth l (Dpt.eigen_values s) 0
                     / (1 - nth l (Dpt.eigen_values s) 0) * d));
    [exact Hi|lia].
Qed.

Lemma stationary_terms_closed (i : nat) :
  (i < n)%nat ->
  Dpt.stationary_terms s i
  = Ok (map (fun l =>
               map (fun j => (Dpt.basis_at s i l - Dpt.basis_at s j l) ^ 2)
                   (seq 0 n))
            (Dpt.stationary_components s)).
Proof.
  intros Hi. unfold Dpt.stationary_terms. apply mapM_ok.
  intros l Hl. apply filter_In in Hl. destruct Hl as [Hl _].
  apply in_seq in Hl.
  apply (@term_closed i l (fun d => d)); [exact Hi|lia].
Qed.

Lemma components_not_empty :
  Dpt.decaying_components s ++ Dpt.stationary_components s <> [].
Proof.
  destruct Hwf as (Hne & _).
  assert (H0 : In 0%nat (seq 0 m)).
  { apply in_seq. destruct (Dpt.eigen_values s); [contradiction|cbn; lia]. }
  intros Hnil. apply app_eq_nil in Hnil. destruct Hnil as [H1 H2].
  unfold Dpt.decaying_components, Dpt.stationary_components in *.
  destruct (Rltb (nth 0 (Dpt.eigen_values s) 0) 0.9994) eqn:E.
  - assert (Hin : In 0%nat
        (filter (fun l => Rltb (nth l (Dpt.eigen_values s) 0) 0.9994)
                (seq 0 m))) by (apply filter_In; auto).
    rewrite H1 in Hin. exact Hin.
  - assert (Hin : In 0%nat
        (filter (fun l => negb (Rltb (nth l (Dpt.eigen_values s) 0) 0.9994))
                (seq 0 m))) by (apply filter_In; rewrite E; auto).
    rewrite H2 in Hin. exact Hin.
Qed.

(** The row that [_get_dpt_row] returns, entry by entry. *)
Lemma get_dpt_row_closed (i : nat) :
  (i < n)%nat ->
  Dpt._get_dpt_row s i = Ok (Dpt.Arr (map (Dpt.distance s i) (seq 0 n))).
Proof.
  intros Hi. unfold Dpt._get_dpt_row.
  rewrite (decaying_terms_closed Hi), (stationary_terms_closed Hi).
  destruct Hwf as (_ & _ & Hcc).
  unfold Dpt.distance.
  destruct (Dpt.connected_components s) as [[nc labels]|].
  - destruct Hcc as (Hn & Hlen & _).
    destruct (Nat.ltb 1 (Dpt.number_connected_components s)) eqn:E.
    + rewrite (@index_nth _ labels i 0%nat) by (rewrite Hlen; exact Hi).
      cbn [bind].
      rewrite (@py_rows _ _ n _ _ components_not_empty).
      rewrite length_map, length_seq, Hlen, Nat.eqb_refl.
      unfold Dpt.mask_row.
      assert (Hlab : labels = map (fun j => nth j labels 0%nat) (seq 0 n)).
      { rewrite <- Hlen, <- (map_nth_seq (fun x => x)), map_id.
        reflexivity. }
      rewrite Hlab at 1.
      rewrite combine_map, !map_map. do 2 f_equal.
      apply map_ext. intros j. cbn [fst snd andb].
      destruct (Nat.eqb (nth j labels 0%nat) (nth i labels 0%nat));
        reflexivity.
    + cbn [bind]. rewrite (@py_rows _ _ n _ _ components_not_empty).
      rewrite map_map. reflexivity.
  - destruct (Nat.ltb 1 (Dpt.number_connected_components s)) eqn:E.
    + rewrite Hcc in E. discriminate.
    + cbn [bind]. rewrite (@py_rows _ _ n _ _ components_not_empty).
      rewrite map_map. reflexivity.
Qed.

End DptRow.

Lemma fold_zeros (v : list R) :
  Forall (fun x => x = 0) v -> fold_left Rplus v 0 = 0.
Proof.
  induction 1 as [|x v Hx _ IH]; [reflexivity|].
  cbn [fold_left]. subst x. rewrite Rplus_0_l. exact IH.
Qed.

Lemma total_zeros (v1 v2 : list R) :
  Forall (fun x => x = 0) v1 -> Forall (fun x => x = 0) v2 ->
  Dpt.total v1 v2 = 0.
Proof.
  intros H1 H2. unfold Dpt.total.
  destruct H1 as [|a r Ha Hr], H2 as [|b r' Hb Hr']; subst;
    rewrite ?fold_zeros by assumption; lra.
Qed.

Lemma squared_distance_diag (s : Dpt.state) (i : nat) :
  Dpt.squared_distance s i i = 0.
Proof.
  unfold Dpt.squared_distance.
  apply total_zeros; apply Forall_forall; intros x Hx;
    apply in_map_iff in Hx; destruct Hx as (l & <- & _); cbv zeta; ring.
Qed.

Lemma squared_distance_sym (s : Dpt.state) (i j : nat) :
  Dpt.squared_distance s i j = Dpt.squared_distance s j i.
Proof.
  unfold Dpt.squared_distance. f_equal; apply map_ext; intros l;
    cbv zeta; ring.
Qed.

Lemma distance_diag (s : Dpt.state) (i : nat) : Dpt.distance s i i = Fin 0.
Proof.
  unfold Dpt.distance. rewrite squared_distance_diag.
  unfold xsqrt. rewrite (@Rltb_false 0 0) by lra. rewrite sqrt_0.
  destruct (Dpt.connected_components s) as [[? ?]|]; [|reflexivity].
  rewrite Nat.eqb_refl. cbn [negb]. rewrite andb_false_r. reflexivity.
Qed.

Lemma distance_sym (s : Dpt.state) (i j : nat) :
  Dpt.distance s i j = Dpt.distance s j i.
Proof.
  unfold Dpt.distance. rewrite (squared_distance_sym s i j).
  destruct (Dpt.connected_components s) as [[nc labels]|]; [|reflexivity].
  rewrite (Nat.eqb_sym (nth j labels 0%nat)). reflexivity.
Qed.

(** C3: for a computed spectral decomposition and partition, the rows
    [_get_dpt_row] returns for two observations [i] and [j] give 0 at
    [(i, i)], the same value at [(i, j)] and [(j, i)], and [+inf] at
    [(i, j)] when the labels of [i] and [j] differ. *)
Theorem C3_dpt_rows_form_a_pseudometric (s : Dpt.state) (i j : nat) :
  Dpt.well_formed s ->
  (i < List.length (Dpt.eigen_basis s))%nat ->
  (j < List.length (Dpt.eigen_basis s))%nat ->
  exists ri rj,
    Dpt._get_dpt_row s i = Ok (Dpt.Arr ri)
    /\ Dpt._get_dpt_row s j = Ok (Dpt.Arr rj)
    /\ nth_error ri i = Some (Fin 0)
    /\ (exists x, nth_error ri j = Some x /\ nth_error rj i = Some x)
    /\ (forall nc labels,
          Dpt.connected_components s = Some (nc, labels) ->
          nth i labels 0%nat <> nth j labels 0%nat ->
          nth_error ri j = Some PInf).
Proof.
  intros Hwf Hi Hj.
  do 2 eexists.
  split; [apply (get_dpt_row_closed Hwf Hi)|].
  split; [apply (get_dpt_row_closed Hwf Hj)|].
  rewrite !nth_error_map_seq by assumption.
  split; [rewrite distance_diag; reflexivity|].
  split.
  - exists (Dpt.distance s i j). rewrite (distance_sym s j i). auto.
  - intros nc labels Hcc Hne. f_equal. unfold Dpt.distance. rewrite Hcc.
    destruct Hwf as (_ & _ & Hlab). rewrite Hcc in Hlab.
    destruct Hlab as (Hn & Hlen & Hlt). rewrite Forall_forall in Hlt.
    assert (Hli : (nth i labels 0 < nc)%nat)
      by (apply Hlt, nth_In; rewrite Hlen; exact Hi).
    assert (Hlj : (nth j labels 0 < nc)%nat)
      by (apply Hlt, nth_In; rewrite Hlen; exact Hj).
    assert (E : Nat.ltb 1 (Dpt.number_connected_components s) = true)
      by (apply Nat.ltb_lt; lia).
    rewrite E.
    assert (E' : Nat.eqb (nth j labels 0%nat) (nth i labels 0%nat) = false)
      by (apply Nat.eqb_neq; congruence).
    rewrite E'. reflexivity.
Qed.

Lemma two_components_well_formed : Dpt.well_formed Examples.two_components.
Proof.
  unfold Dpt.well_formed. cbn.
  split; [discriminate|]. split; [repeat constructor|].
  split; [reflexivity|]. split; [reflexivity|]. repeat constructor.
Defined.

Lemma C3_witness :
  exists ri rj,
    Dpt._get_dpt_row Examples.two_components 0 = Ok (Dpt.Arr ri)
    /\ Dpt._get_dpt_row Examples.two_components 1 = Ok (Dpt.Arr rj)
    /\ nth_error ri 0 = Some (Fin 0)
    /\ nth_error ri 1 = Some PInf.
Proof.
  destruct (@C3_dpt_rows_form_a_pseudometric Examples.two_components 0 1)
    as (ri & rj & Hi & Hj & Hd & _ & Hinf).
  - exact two_components_well_formed.
  - cbn. lia.
  - cbn. lia.
  - exists ri, rj. repeat split; try assumption.
    apply (Hinf 2%nat [0; 1]%nat); [reflexivity|cbn; lia].
Defined.

(** ** Pseudotime: [_set_pseudotime] *)

Lemma fold_nonneg (v : list R) (a : R) :
  0 <= a -> Forall (fun x => 0 <= x) v -> 0 <= fold_left Rplus v a.
Proof.
  intros Ha H. revert a Ha.
  induction H as [|x v Hx _ IH]; intros a Ha; cbn [fold_left]; [exact Ha|].
  apply IH. lra.
Qed.

Lemma total_nonneg (v1 v2 : list R) :
  Forall (fun x => 0 <= x) v1 -> Forall (fun x => 0 <= x) v2 ->
  0 <= Dpt.total v1 v2.
Proof.
  intros H1 H2. unfold Dpt.total.
  destruct H1 as [|a r Ha Hr], H2 as [|b r' Hb Hr'].
  - lra.
  - apply fold_nonneg; assumption.
  - apply fold_nonneg; assumption.
  - pose proof (fold_nonneg Ha Hr). pose proof (fold_nonneg Hb Hr'). lra.
Qed.

Lemma squared_distance_nonneg (s : Dpt.state) (i j : nat) :
  0 <= Dpt.squared_distance s i j.
Proof.
  unfold Dpt.squared_distance.
  apply total_nonneg; apply Forall_forall; intros x Hx;
    apply in_map_iff in Hx; destruct Hx as (l & <- & _); cbv zeta;
    apply pow2_ge_0.
Qed.

(** An entry of a row is [+inf] or a real that is not negative. *)
Lemma distance_cases (s : Dpt.state) (i j : nat) :
  Dpt.distance s i j = PInf
  \/ exists v, 0 <= v /\ Dpt.distance s i j = Fin v.
Proof.
  assert (H : xsqrt (Fin (Dpt.squared_distance s i j))
              = Fin (sqrt (Dpt.squared_distance s i j))).
  { unfold xsqrt. rewrite Rltb_false; [reflexivity|].
    apply squared_distance_nonneg. }
  unfold Dpt.distance.
  destruct (Dpt.connected_components s) as [[nc labels]|].
  - destruct (_ && _); [left; reflexivity|].
    right. eexists. split; [|exact H]. apply sqrt_pos.
  - right. eexists. split; [|exact H]. apply sqrt_pos.
Qed.

Lemma in_finite_entries (a : list xreal) (x : R) :
  In x (Dpt.finite_entries a) <-> In (Fin x) a.
Proof.
  unfold Dpt.finite_entries. rewrite in_flat_map. split.
  - intros (y & Hy & Hx). destruct y; cbn in Hx; try contradiction.
    destruct Hx as [<-|[]]. exact Hy.
  - intros H. exists (Fin x). split; [exact H|]. cbn. left. reflexivity.
Qed.

Lemma fold_Rmax_ge (l : list R) (a : R) :
  a <= fold_left Rmax l a /\ forall x, In x l -> x <= fold_left Rmax l a.
Proof.
  revert a. induction l as [|y l IH]; intros a; cbn [fold_left].
  - split; [lra|]. intros x [].
  - destruct (IH (Rmax a y)) as [H1 H2].
    pose proof (Rmax_l a y). pose proof (Rmax_r a y).
    split; [lra|]. intros x [<-|Hx]; [lra|apply H2; exact Hx].
Qed.

Lemma fold_Rmax_in (l : list R) (a : R) :
  fold_left Rmax l a = a \/ In (fold_left Rmax l a) l.
Proof.
  revert a. induction l as [|y l IH]; intros a; cbn [fold_left].
  - left. reflexivity.
  - destruct (IH (Rmax a y)) as [H|H].
    + rewrite H. unfold Rmax. destruct (Rle_dec a y); [right; left|left];
        reflexivity.
    + right. right. exact H.
Qed.

Lemma np_max_spec (l : list R) (m : R) :
  Dpt.np_max l = Ok m -> In m l /\ forall x, In x l -> x <= m.
Proof.
  destruct l as [|a l]; [discriminate|]. cbn [Dpt.np_max].
  intros H. injection H as <-.
  destruct (fold_Rmax_ge l a) as [H1 H2]. split.
  - destruct (fold_Rmax_in l a) as [->|H]; [left; reflexivity|right; exact H].
  - intros x [<-|Hx]; [exact H1|apply H2; exact Hx].
Qed.

Lemma xdiv_fin_pos (v m : R) : 0 < m -> xdiv (Fin v) m = Fin (v / m).
Proof.
  intros Hm. unfold xdiv. rewrite Reqb_false by lra. reflexivity.
Qed.

Lemma xdiv_inf_pos (m : R) : 0 < m -> xdiv PInf m = PInf.
Proof.
  intros Hm. unfold xdiv. rewrite Rltb_false by lra. reflexivity.
Qed.

(** C4, amended: for a valid root whose diffusion-distance row has a
    positive finite entry, the pseudotime is that row divided by its
    maximum finite entry; the entry of the root is 0, every finite entry
    lies in [0, 1], and the entries [+inf] are left out of the maximum and
    stay [+inf]. *)
Theorem C4_pseudotime_is_row_over_its_finite_maximum (s : Dpt.state)
  (r : nat) (row : list xreal) :
  Dpt.well_formed s ->
  Dpt.iroot s = Some r ->
  (r < List.length (Dpt.eigen_basis s))%nat ->
  Dpt._get_dpt_row s r = Ok (Dpt.Arr row) ->
  (exists j v, nth_error row j = Some (Fin v) /\ 0 < v) ->
  exists m p,
    Dpt.np_max (Dpt.finite_entries row) = Ok m
    /\ 0 < m
    /\ Dpt._set_pseudotime s = Ok (Dpt.Arr p)
    /\ p = map (fun x => xdiv x m) row
    /\ nth_error p r = Some (Fin 0)
    /\ (forall j x, nth_error p j = Some (Fin x) -> 0 <= x <= 1)
    /\ (forall j, nth_error row j = Some PInf ->
                  nth_error p j = Some PInf).
Proof.
  intros Hwf Hroot Hr Hrow (j0 & v0 & Hj0 & Hv0).
  assert (Hclosed := get_dpt_row_closed Hwf Hr).
  rewrite Hrow in Hclosed. injection Hclosed as Hclosed.
  assert (Hentries : forall y, In y row ->
            y = PInf \/ exists v, 0 <= v /\ y = Fin v).
  { intros y Hy. rewrite Hclosed in Hy. apply in_map_iff in Hy.
    destruct Hy as (j & <- & _). apply distance_cases. }
  assert (Hin0 : In v0 (Dpt.finite_entries row))
    by (apply in_finite_entries, (nth_error_In _ _ Hj0)).
  destruct (Dpt.np_max (Dpt.finite_entries row)) as [m|e] eqn:Hmax.
  2:{ destruct (Dpt.finite_entries row); [contradiction|discriminate]. }
  destruct (np_max_spec _ Hmax) as [Hm_in Hm_max].
  assert (Hm : 0 < m) by (specialize (Hm_max v0 Hin0); lra).
  exists m, (map (fun x => xdiv x m) row).
  split; [reflexivity|]. split; [exact Hm|].
  split.
  { unfold Dpt._set_pseudotime, Dpt.distances_dpt_getitem.
    rewrite Hroot, Hrow. cbn [bind]. rewrite Hmax. reflexivity. }
  split; [reflexivity|].
  split.
  { rewrite nth_error_map, Hclosed, nth_error_map_seq by exact Hr.
    cbn [option_map]. rewrite distance_diag, xdiv_fin_pos by exact Hm.
    do 2 f_equal. unfold Rdiv. ring. }
  split.
  - intros j x Hj. rewrite nth_error_map in Hj.
    destruct (nth_error row j) as [y|] eqn:Hy; [|discriminate].
    cbn [option_map] in Hj. injection Hj as Hj.
    destruct (Hentries y (nth_error_In _ _ Hy)) as [->|(v & Hv & ->)].
    + rewrite xdiv_inf_pos in Hj by exact Hm. discriminate.
    + rewrite xdiv_fin_pos in Hj by exact Hm. injection Hj as <-.
      assert (Hle : v <= m).
      { apply Hm_max, in_finite_entries, (nth_error_In _ _ Hy). }
      assert (Hinv : 0 < / m) by (apply Rinv_0_lt_compat; exact Hm).
      unfold Rdiv. split.
      * apply Rmult_le_pos; lra.
      * replace 1 with (m * / m) by (apply Rinv_r; lra).
        apply Rmult_le_compat_r; lra.
  - intros j Hj. rewrite nth_error_map, Hj. cbn [option_map].
    rewrite xdiv_inf_pos by exact Hm. reflexivity.
Qed.

Lemma one_component_well_formed : Dpt.well_formed Examples.one_component.
Proof.
  unfold Dpt.well_formed. cbn.
  split; [discriminate|]. split; [repeat constructor|].
  split; [reflexivity|]. split; [reflexivity|]. repeat constructor.
Defined.

(** The root row of [one_component]: distance 1 to the other observation. *)
Lemma one_component_row :
  Dpt._get_dpt_row Examples.one_component 0 = Ok (Dpt.Arr [Fin 0; Fin 1]).
Proof.
  rewrite (@get_dpt_row_closed _ one_component_well_formed 0%nat)
    by (cbn; lia).
  cbn [Examples.one_component Dpt.eigen_basis List.length seq map].
  rewrite distance_diag. do 3 f_equal.
  unfold Dpt.distance, Dpt.squared_distance, Dpt.decaying_components,
    Dpt.stationary_components, Dpt.basis_at.
  cbn. rewrite (@Rltb_true 0.5 0.9994) by lra. cbn.
  assert (E : 0.5 / (1 - 0.5) = 1).
  { apply Rmult_eq_reg_r with (1 - 0.5); [|lra].
    unfold Rdiv. rewrite Rmult_assoc, Rinv_l by lra. lra. }
  rewrite E.
  replace (1 * (1 - 2) * (1 * (1 - 2) * 1)) with 1 by lra.
  rewrite (@Rltb_false 1 0) by lra. rewrite sqrt_1. reflexivity.
Defined.

Lemma C4_witness :
  exists p,
    Dpt._set_pseudotime Examples.one_component = Ok (Dpt.Arr p)
    /\ nth_error p 0 = Some (Fin 0)
    /\ forall j x, nth_error p j = Some (Fin x) -> 0 <= x <= 1.
Proof.
  destruct (@C4_pseudotime_is_row_over_its_finite_maximum
              Examples.one_component 0%nat [Fin 0; Fin 1])
    as (m & p & _ & _ & Hp & _ & Hroot & Hbound & _).
  - exact one_component_well_formed.
  - reflexivity.
  - cbn. lia.
  - exact one_component_row.
  - exists 1%nat, 1. split; [reflexivity|lra].
  - exists p. auto.
Defined.

(** C4 as stated fails: in [two_components] the root is alone in its
    component, its row is [[0, inf]], the maximum finite entry is 0, and the
    division gives [nan] at the root (0/0) instead of 0. *)
Lemma C4_counterexample :
  Dpt.iroot Examples.two_components = Some 0%nat
  /\ Dpt._set_pseudotime Examples.two_components = Ok (Dpt.Arr [NaN; PInf]).
Proof.
  split; [reflexivity|].
  unfold Dpt._set_pseudotime, Dpt.distances_dpt_getitem.
  cbn [Examples.two_components Dpt.iroot].
  rewrite (@get_dpt_row_closed _ two_components_well_formed 0%nat)
    by (cbn; lia).
  cbn [Examples.two_components Dpt.eigen_basis List.length seq map bind].
  rewrite distance_diag.
  assert (H : Dpt.distance Examples.two_components 0 1 = PInf)
    by reflexivity.
  fold Examples.two_components. rewrite H.
  cbn. unfold xdiv. rewrite (@Reqb_true 0 0) by reflexivity.
  rewrite (@Rltb_false 0 0) by lra. reflexivity.
Qed.

(** ** From neighbour arrays to a sparse matrix *)

Lemma insert_entry_cols (e : nat * R) (row : list (nat * R)) (c : nat)
  (v : R) :
  In (c, v) (insert_entry e row) ->
  c = fst e \/ exists v', In (c, v') row.
Proof.
  induction row as [|e' row IH]; cbn [insert_entry].
  - intros [H|[]]. left. rewrite H. reflexivity.
  - destruct (Nat.ltb (fst e) (fst e')).
    + intros [H|H]; [left; rewrite H; reflexivity|right; exists v; exact H].
    + destruct (Nat.eqb (fst e) (fst e')) eqn:E.
      * intros [H|H].
        -- injection H as Hc _. right. exists (snd e'). left.
           rewrite <- Hc. destruct e'; reflexivity.
        -- right. exists v. right. exact H.
      * intros [H|H].
        -- right. exists v. left. exact H.
        -- destruct (IH H) as [->|(v' & Hv')]; [left; reflexivity|].
           right. exists v'. right. exact Hv'.
Qed.

(** [sum_duplicates] stores no column that its input does not hold. *)
Lemma sum_duplicates_cols (row : list (nat * R)) (c : nat) (v : R) :
  In (c, v) (sum_duplicates row) -> exists v', In (c, v') row.
Proof.
  unfold sum_duplicates.
  assert (H : forall acc,
            In (c, v) (fold_left (fun acc e => insert_entry e acc) row acc) ->
            (exists v', In (c, v') acc) \/ exists v', In (c, v') row).
  { induction row as [|e row IH]; intros acc Hin; cbn [fold_left] in Hin.
    - left. exists v. exact Hin.
    - destruct (IH _ Hin) as [(v' & Hv')|(v' & Hv')].
      + destruct (@insert_entry_cols _ _ _ _ Hv') as [->|(v'' & Hv'')].
        * right. exists (snd e). left. destruct e; reflexivity.
        * left. exists v''. exact Hv''.
      + right. exists v'. right. exact Hv'. }
  intros Hin. destruct (H [] Hin) as [(v' & [])|Hr]. exact Hr.
Qed.

Lemma mapM_in {A B : Type} (f : A -> result B) (l : list A) (bs : list B) :
  mapM f l = Ok bs ->
  forall b, In b bs -> exists a, In a l /\ f a = Ok b.
Proof.
  revert bs. induction l as [|a l IH]; intros bs H b Hb; cbn [mapM] in H.
  - injection H as <-. destruct Hb.
  - destruct (f a) as [b0|e] eqn:Hf; [|discriminate]. cbn [bind] in H.
    destruct (mapM f l) as [bs0|e] eqn:Hm; [|discriminate].
    cbn [bind] in H. injection H as <-.
    destruct Hb as [<-|Hb].
    + exists a. split; [left; reflexivity|exact Hf].
    + destruct (IH bs0 eq_refl b Hb) as (a' & Ha' & Hfa').
      exists a'. split; [right; exact Ha'|exact Hfa'].
Qed.

(** What a slot holds: the zeros of a slot that was skipped, or the
    observation, one of its neighbours, and the value 0 if the neighbour is
    the observation itself. *)
Lemma slot_value knn_indices knn_dists n_obs i j r c v :
  SparseBuilder.slot knn_indices knn_dists n_obs i j = Ok (r, c, v) ->
  (r = 0%nat /\ c = 0%Z /\ v = 0)
  \/ (r = i /\ nth_error (nth i knn_indices []) j = Some c
      /\ (c = Z.of_nat i -> v = 0)).
Proof.
  unfold SparseBuilder.slot, index.
  destruct (nth_error knn_indices i) as [row|] eqn:Hrow; [|discriminate].
  cbn [bind].
  destruct (nth_error row j) as [c0|] eqn:Hc; [|discriminate].
  cbn [bind].
  rewrite (nth_error_nth _ _ [] Hrow).
  destruct (Z.eqb c0 (-1)).
  - intros H. injection H as <- <- <-. left. auto.
  - destruct (Z.eqb c0 (Z.of_nat i)) eqn:E.
    + cbn [bind]. destruct (Nat.leb n_obs i); [discriminate|].
      intros H. injection H as <- <- <-. right. auto.
    + apply Z.eqb_neq in E.
      destruct (nth_error knn_dists i) as [dr|]; [|discriminate].
      cbn [bind]. destruct (nth_error dr j) as [d|]; [|discriminate].
      cbn [bind]. destruct (Nat.leb n_obs i); [discriminate|].
      intros H. injection H as <- <- <-. right.
      split; [reflexivity|]. split; [exact Hc|]. intros Heq. contradiction.
Qed.

Lemma slots_entries knn_indices knn_dists n_obs n_neighbors entries :
  SparseBuilder.slots knn_indices knn_dists n_obs n_neighbors = Ok entries ->
  forall r c v, In (r, c, v) entries ->
    (r = 0%nat /\ c = 0%Z /\ v = 0)
    \/ exists j, nth_error (nth r knn_indices []) j = Some c
                 /\ (c = Z.of_nat r -> v = 0).
Proof.
  unfold SparseBuilder.slots. intros H r c v Hin.
  destruct (mapM _ (seq 0 (List.length knn_indices))) as [written|e] eqn:Hw;
    [|discriminate].
  cbn [bind] in H. injection H as <-.
  apply in_app_or in Hin. destruct Hin as [Hin|Hin].
  - apply in_concat in Hin. destruct Hin as (ws & Hws & Hin).
    destruct (mapM_in _ _ Hw _ Hws) as (i & _ & Hi).
    destruct (mapM_in _ _ Hi _ Hin) as (j & _ & Hj).
    destruct (slot_value _ _ _ _ _ Hj) as [H0|(-> & Hc & Hv)].
    + left. exact H0.
    + right. exists j. auto.
  - apply repeat_spec in Hin. injection Hin as -> -> ->. left. auto.
Qed.

(** The matrix of the umap variant stores, in row [i], only neighbours of
    [i] other than [i] itself. *)
Lemma umap_matrix_entries knn_indices knn_dists n_obs n_neighbors M :
  SparseBuilder.get_sparse_matrix_from_indices_distances_umap
    knn_indices knn_dists n_obs n_neighbors = Ok M ->
  List.length (csr_rows M) = n_obs
  /\ forall i row c v,
       nth_error (csr_rows M) i = Some row -> In (c, v) row ->
       c <> i
       /\ exists j, nth_error (nth i knn_indices []) j = Some (Z.of_nat c).
Proof.
  unfold SparseBuilder.get_sparse_matrix_from_indices_distances_umap.
  destruct (SparseBuilder.slots _ _ _ _) as [entries|e] eqn:Hs;
    [|discriminate].
  cbn [bind]. unfold SparseBuilder.coo_matrix.
  destruct (forallb _ entries); [|discriminate].
  destruct (forallb _ entries); [|discriminate].
  destruct (forallb _ entries) eqn:Hnonneg; [|discriminate].
  cbn [bind]. intros H. injection H as <-.
  unfold SparseBuilder.tocsr. cbn [csr_rows].
  split; [rewrite length_map, length_seq; reflexivity|].
  intros i row c v Hrow Hin.
  rewrite nth_error_map in Hrow.
  destruct (nth_error (seq 0 n_obs) i) as [i'|] eqn:Hi; [|discriminate].
  assert (i' = i).
  { pose proof (nth_error_Some (seq 0 n_obs) i) as Hs'.
    rewrite Hi in Hs'. rewrite length_seq in Hs'.
    assert (Hlt : (i < n_obs)%nat) by (apply Hs'; discriminate).
    rewrite nth_error_seq in Hi. apply Nat.ltb_lt in Hlt. rewrite Hlt in Hi.
    injection Hi as <-. reflexivity. }
  subst i'. cbn [option_map] in Hrow. injection Hrow as <-.
  apply sum_duplicates_cols in Hin. destruct Hin as (v' & Hin).
  apply in_map_iff in Hin. destruct Hin as ([[r c0] v0] & Heq & Hin).
  cbn [fst snd] in Heq. injection Heq as <- <-.
  apply filter_In in Hin. destruct Hin as [Hin Hr]. cbn [fst] in Hr.
  apply Nat.eqb_eq in Hr. subst r.
  unfold SparseBuilder.coo_eliminate_zeros in Hin.
  apply filter_In in Hin. destruct Hin as [Hin Hv]. cbn [snd] in Hv.
  assert (Hv0 : v0 <> 0).
  { intros ->. rewrite Reqb_true in Hv by reflexivity. discriminate. }
  rewrite forallb_forall in Hnonneg.
  pose proof (Hnonneg _ Hin) as Hc0. cbn [fst snd] in Hc0.
  apply Z.leb_le in Hc0.
  destruct (slots_entries _ _ _ _ Hs _ _ _ Hin)
    as [(_ & _ & ->)|(j & Hj & Hself)]; [contradiction|].
  split.
  - intros Heq. apply Hv0, Hself. lia.
  - exists j. rewrite Z2Nat.id by exact Hc0. exact Hj.
Qed.

Lemma mapM_total {A B : Type} (f : A -> result B) (l : list A) :
  (forall a, In a l -> exists b, f a = Ok b) ->
  exists bs, mapM f l = Ok bs.
Proof.
  induction l as [|a l IH]; intros H; cbn [mapM].
  - eexists; reflexivity.
  - destruct (H a (or_introl eq_refl)) as (b & ->).
    destruct IH as (bs & ->); [intros a' Ha'; apply H; right; exact Ha'|].
    eexists; reflexivity.
Qed.

Section WellShaped.

Variables (knn_indices : list (list Z)) (knn_dists : list (list R)).
Variables (n_obs n_neighbors : nat).

(** Arrays of shape [(n_obs, n_neighbors)], the indices in
    [-1 .. n_obs - 1]. *)
Hypothesis Hrows_i : List.length knn_indices = n_obs.
Hypothesis Hcols_i :
  Forall (fun r => List.length r = n_neighbors) knn_indices.
Hypothesis Hrows_d : List.length knn_dists = n_obs.
Hypothesis Hcols_d : Forall (fun r => List.length r = n_neighbors) knn_dists.
Hypothesis Hrange :
  Forall (Forall (fun c => (-1 <= c < Z.of_nat n_obs)%Z)) knn_indices.

Lemma slot_in_range (i j : nat) :
  (i < n_obs)%nat -> (j < n_neighbors)%nat ->
  exists r c v,
    SparseBuilder.slot knn_indices knn_dists n_obs i j = Ok (r, c, v)
    /\ (r < n_obs)%nat /\ (0 <= c < Z.of_nat n_obs)%Z.
Proof.
  intros Hi Hj. unfold SparseBuilder.slot.
  rewrite (@index_nth _ knn_indices i []) by lia. cbn [bind].
  assert (Hrow : In (nth i knn_indices []) knn_indices)
    by (apply nth_In; lia).
  rewrite Forall_forall in Hcols_i, Hcols_d, Hrange.
  rewrite (@index_nth _ (nth i knn_indices []) j 0%Z)
    by (rewrite (Hcols_i _ Hrow); exact Hj).
  cbn [bind].
  set (c := nth j (nth i knn_indices []) 0%Z).
  assert (Hc : (-1 <= c < Z.of_nat n_obs)%Z).
  { pose proof (Hrange _ Hrow) as Hr. rewrite Forall_forall in Hr.
    apply Hr, nth_In. rewrite (Hcols_i _ Hrow). exact Hj. }
  destruct (Z.eqb c (-1)) eqn:E.
  - exists 0%nat, 0%Z, 0. split; [reflexivity|]. lia.
  - apply Z.eqb_neq in E.
    assert (Hleb : Nat.leb n_obs i = false) by (apply Nat.leb_gt; exact Hi).
    destruct (Z.eqb c (Z.of_nat i)).
    + cbn [bind]. rewrite Hleb. exists i, c, 0.
      split; [reflexivity|]. lia.
    + assert (Hdrow : In (nth i knn_dists []) knn_dists)
        by (apply nth_In; lia).
      rewrite (@index_nth _ knn_dists i []) by lia. cbn [bind].
      rewrite (@index_nth _ (nth i knn_dists []) j 0)
        by (rewrite (Hcols_d _ Hdrow); exact Hj).
      cbn [bind]. rewrite Hleb.
      exists i, c, (nth j (nth i knn_dists []) 0).
      split; [reflexivity|]. lia.
Qed.

(** On arrays of the right shape the umap variant returns. *)
Lemma umap_matrix_returns :
  exists M,
    SparseBuilder.get_sparse_matrix_from_indices_distances_umap
      knn_indices knn_dists n_obs n_neighbors = Ok M.
Proof.
  unfold SparseBuilder.get_sparse_matrix_from_indices_distances_umap,
    SparseBuilder.slots.
  destruct (@mapM_total _ _
              (fun i => mapM (SparseBuilder.slot knn_indices knn_dists
                                n_obs i) (seq 0 n_neighbors))
              (seq 0 (List.length knn_indices))) as (written & Hw).
  { intros i Hi. apply in_seq in Hi. apply mapM_total.
    intros j Hj. apply in_seq in Hj.
    destruct (@slot_in_range i j) as (r & c & v & H & _); [lia|lia|].
    eexists; exact H. }
  rewrite Hw. cbn [bind].
  rewrite Hrows_i, Nat.sub_diag. cbn [Nat.mul repeat]. rewrite app_nil_r.
  assert (Hall : forall e, In e (List.concat written) ->
            (fst (fst e) < n_obs)%nat
            /\ (0 <= snd (fst e) < Z.of_nat n_obs)%Z).
  { intros e He. apply in_concat in He. destruct He as (ws & Hws & He).
    destruct (mapM_in _ _ Hw _ Hws) as (i & Hi & Hm).
    destruct (mapM_in _ _ Hm _ He) as (j & Hj & Hs).
    apply in_seq in Hi. apply in_seq in Hj.
    destruct (@slot_in_range i j) as (r & c & v & H & Hr & Hc); [lia|lia|].
    rewrite Hs in H. injection H as ->. cbn [fst snd]. auto. }
  unfold SparseBuilder.coo_matrix.
  rewrite !(proj2 (forallb_forall _ _)).
  - cbn [bind]. eexists; reflexivity.
  - intros e He. apply Z.leb_le. apply (Hall e He).
  - intros e He. apply Z.ltb_lt. apply (Hall e He).
  - intros e He. apply Nat.ltb_lt. apply (Hall e He).
Qed.

End WellShaped.

Lemma length_concat_uniform {A : Type} (l : list (list A)) (k : nat) :
  Forall (fun r => List.length r = k) l ->
  List.length (List.concat l) = (List.length l * k)%nat.
Proof.
  induction 1 as [|r l Hr _ IH]; [reflexivity|].
  cbn [List.concat List.length]. rewrite length_app, Hr, IH. lia.
Qed.

(** ** Sorting *)

Lemma insert_key_perm (x : R * nat) (l : list (R * nat)) :
  Permutation (insert_key x l) (x :: l).
Proof.
  induction l as [|y l IH]; cbn [insert_key]; [reflexivity|].
  destruct (Rltb (fst y) (fst x)); [|reflexivity].
  rewrite IH. apply perm_swap.
Qed.

Lemma sort_keys_perm (l : list (R * nat)) : Permutation (sort_keys l) l.
Proof.
  induction l as [|x l IH]; cbn [sort_keys]; [reflexivity|].
  rewrite insert_key_perm, IH. reflexivity.
Qed.

Lemma insert_key_sorted (x : R * nat) (l : list (R * nat)) :
  StronglySorted le_key l -> StronglySorted le_key (insert_key x l).
Proof.
  induction 1 as [|y l Hs IH Hy]; cbn [insert_key].
  - constructor; constructor.
  - destruct (Rlt_dec (fst y) (fst x)) as [Hlt|Hge].
    + rewrite (Rltb_true Hlt). constructor; [exact IH|].
      apply Forall_forall. intros z Hz.
      apply (Permutation_in _ (insert_key_perm x l)) in Hz.
      destruct Hz as [<-|Hz].
      * unfold le_key. lra.
      * rewrite Forall_forall in Hy. apply Hy, Hz.
    + rewrite (@Rltb_false (fst y) (fst x)) by lra.
      constructor; [constructor; assumption|].
      constructor; [unfold le_key; lra|].
      rewrite Forall_forall in Hy |- *. intros z Hz.
      specialize (Hy z Hz). unfold le_key in *. lra.
Qed.

Lemma sort_keys_sorted (l : list (R * nat)) :
  StronglySorted le_key (sort_keys l).
Proof.
  induction l as [|x l IH]; cbn [sort_keys]; [constructor|].
  apply insert_key_sorted, IH.
Qed.

(** In a sorted list, what [firstn] keeps is below what it leaves. *)
Lemma firstn_below_skipn (l : list (R * nat)) (m : nat) :
  StronglySorted le_key l ->
  forall a b, In a (firstn m l) -> In b (skipn m l) -> le_key a b.
Proof.
  intros Hs. revert m.
  induction Hs as [|x l Hs IH Hx]; intros m a b Ha Hb.
  - rewrite firstn_nil in Ha. destruct Ha.
  - destruct m as [|m]; cbn [firstn skipn] in *; [destruct Ha|].
    destruct Ha as [<-|Ha].
    + rewrite Forall_forall in Hx. apply Hx.
      rewrite <- (firstn_skipn m l). apply in_or_app. right. exact Hb.
    + apply (IH m a b Ha Hb).
Qed.

(** ** From a sparse matrix to neighbour arrays *)

Lemma row_get_absent (row : list (nat * R)) (c : nat) :
  ~ In c (map fst row) -> filter (fun e => Nat.eqb (fst e) c) row = [].
Proof.
  induction row as [|e row IH]; intros H; [reflexivity|].
  cbn [filter]. destruct (Nat.eqb (fst e) c) eqn:E.
  - apply Nat.eqb_eq in E. contradiction H. left. exact E.
  - apply IH. intros Hin. apply H. right. exact Hin.
Qed.

(** In a row without duplicate columns, [M[i, c]] is the stored value. *)
Lemma row_get_nodup (row : list (nat * R)) (c : nat) (v : R) :
  NoDup (map fst row) -> In (c, v) row -> row_get row c = v.
Proof.
  unfold row_get.
  induction row as [|e row IH]; intros Hnd Hin; [destruct Hin|].
  cbn [map] in Hnd. inversion Hnd as [|x l Hx Hnd']; subst.
  cbn [filter]. destruct Hin as [->|Hin].
  - cbn [fst] in *. rewrite Nat.eqb_refl, (@row_get_absent row c Hx).
    unfold Rsum. cbn. lra.
  - destruct (Nat.eqb (fst e) c) eqn:E.
    + apply Nat.eqb_eq in E. contradiction Hx. rewrite E.
      apply (in_map fst _ _ Hin).
    + apply IH; assumption.
Qed.

Lemma in_combine_seq (l : list R) :
  forall (a p : nat) (v : R),
    In (v, p) (combine l (seq a (List.length l))) ->
    (a <= p < a + List.length l)%nat /\ nth (p - a) l 0 = v.
Proof.
  induction l as [|x l IH]; intros a p v Hin; [destruct Hin|].
  cbn [List.length seq combine] in Hin. destruct Hin as [Heq|Hin].
  - injection Heq as -> ->. rewrite Nat.sub_diag. cbn. split; [lia|easy].
  - destruct (IH _ _ _ Hin) as [Hp Hv]. split; [cbn; lia|].
    replace (p - a)%nat with (S (p - S a)) by lia. exact Hv.
Qed.

Lemma map_snd_combine {A B : Type} (l : list A) (s : list B) :
  List.length l = List.length s -> map snd (combine l s) = s.
Proof.
  revert s. induction l as [|x l IH]; intros [|y s] H; try discriminate;
    [reflexivity|].
  cbn. f_equal. apply IH. injection H as H. exact H.
Qed.

Lemma map_nth_self {A : Type} (l : list A) (d : A) :
  map (fun p => nth p l d) (seq 0 (List.length l)) = l.
Proof.
  rewrite <- (map_nth_seq (fun x => x) l d). apply map_id.
Qed.

Lemma combine_map_same {A B C : Type} (f : A -> B) (h : A -> C)
  (l : list A) :
  combine (map f l) (map h l) = map (fun x => (f x, h x)) l.
Proof.
  induction l as [|x l IH]; [reflexivity|]. cbn. f_equal. exact IH.
Qed.

(** The [m] entries that [argsort] selects from the entries [E] of a row:
    with what is left they make up [E], and their values are below the
    values left. *)
Lemma selection (E : list (nat * R)) (m : nat) :
  let nb := map fst E in
  let values := map snd E in
  let idx := firstn m (argsort values) in
  (m <= List.length E)%nat ->
  List.length (take_at 0%nat nb idx) = m
  /\ List.length (take_at 0 values idx) = m
  /\ exists rest,
       Permutation (combine (take_at 0%nat nb idx) (take_at 0 values idx)
                    ++ rest) E
       /\ forall a b, In a (take_at 0 values idx) -> In b (map snd rest) ->
                      a <= b.
Proof.
  intros nb values idx Hm.
  set (keys := combine values (seq 0 (List.length values))).
  set (sorted := sort_keys keys).
  set (g := fun kp : R * nat => nth (snd kp) E (0%nat, 0)).
  assert (Hlen : List.length values = List.length E)
    by (unfold values; apply length_map).
  assert (Hsorted_len : List.length sorted = List.length E).
  { unfold sorted. rewrite (Permutation_length (sort_keys_perm keys)).
    unfold keys. rewrite length_combine, length_seq, Hlen. lia. }
  assert (Hidx : idx = map snd (firstn m sorted)).
  { unfold idx, argsort. fold keys. fold sorted. apply firstn_map. }
  assert (Hnb : take_at 0%nat nb idx
                = map (fun kp => fst (g kp)) (firstn m sorted)).
  { unfold take_at. rewrite Hidx, map_map. apply map_ext. intros kp.
    unfold nb, g. apply (map_nth fst E (0%nat, 0)). }
  assert (Hval : take_at 0 values idx
                 = map (fun kp => snd (g kp)) (firstn m sorted)).
  { unfold take_at. rewrite Hidx, map_map. apply map_ext. intros kp.
    unfold values, g. apply (map_nth snd E (0%nat, 0)). }
  assert (Hkey : forall kp, In kp sorted -> snd (g kp) = fst kp).
  { intros [v p] Hin.
    apply (Permutation_in _ (sort_keys_perm keys)) in Hin.
    unfold keys in Hin. apply in_combine_seq in Hin.
    destruct Hin as [_ Hv]. rewrite Nat.sub_0_r in Hv.
    unfold g. cbn [fst snd]. rewrite <- Hv. unfold values.
    symmetry. apply (map_nth snd E (0%nat, 0)). }
  rewrite Hnb, Hval, !length_map, length_firstn, Hsorted_len.
  split; [lia|]. split; [lia|].
  exists (map g (skipn m sorted)). split.
  - rewrite combine_map_same.
    rewrite (map_ext (fun x => (fst (g x), snd (g x))) g)
      by (intros x; destruct (g x); reflexivity).
    rewrite <- map_app, firstn_skipn. unfold sorted.
    rewrite (Permutation_map g (sort_keys_perm keys)).
    unfold keys, g.
    rewrite <- (map_map snd (fun p => nth p E (0%nat, 0))).
    rewrite map_snd_combine by (rewrite length_seq; reflexivity).
    rewrite Hlen, map_nth_self. reflexivity.
  - intros a b Ha Hb.
    apply in_map_iff in Ha. destruct Ha as (ka & <- & Ha).
    rewrite map_map in Hb. apply in_map_iff in Hb.
    destruct Hb as (kb & <- & Hb).
    rewrite (Hkey ka), (Hkey kb).
    + apply (firstn_below_skipn m (sort_keys_sorted keys) _ _ Ha Hb).
    + rewrite <- (firstn_skipn m sorted). apply in_or_app. right. exact Hb.
    + rewrite <- (firstn_skipn m sorted). apply in_or_app. left. exact Ha.
Qed.

Lemma mapM_nth {A B : Type} (f : A -> result B) (l : list A) (bs : list B) :
  mapM f l = Ok bs ->
  List.length bs = List.length l
  /\ forall i a, nth_error l i = Some a ->
       exists b, nth_error bs i = Some b /\ f a = Ok b.
Proof.
  revert bs. induction l as [|a0 l IH]; intros bs H; cbn [mapM] in H.
  - injection H as <-. split; [reflexivity|]. intros [|i] a; discriminate.
  - destruct (f a0) as [b0|e] eqn:Hf; [|discriminate]. cbn [bind] in H.
    destruct (mapM f l) as [bs0|e] eqn:Hm; [|discriminate].
    cbn [bind] in H. injection H as <-.
    destruct (IH bs0 eq_refl) as [Hlen Hnth].
    split; [cbn; rewrite Hlen; reflexivity|].
    intros [|i] a Ha; cbn [nth_error] in *.
    + injection Ha as <-. exists b0. auto.
    + apply Hnth, Ha.
Qed.

Lemma nth_error_enumerate {A : Type} (l : list A) (i : nat) (a : A) :
  nth_error l i = Some a ->
  nth_error (combine (seq 0 (List.length l)) l) i = Some (i, a).
Proof.
  assert (H : forall s, nth_error l i = Some a ->
            nth_error (combine (seq s (List.length l)) l) i
            = Some ((s + i)%nat, a)).
  { revert i. induction l as [|x l IH]; intros [|i] s Hi; try discriminate.
    - injection Hi as <-. cbn. rewrite Nat.add_0_r. reflexivity.
    - cbn [List.length seq combine nth_error] in *.
      rewrite (IH i (S s) Hi). f_equal. f_equal. lia. }
  intros Hi. rewrite (H 0%nat Hi). reflexivity.
Qed.

(** One row of the extraction, for a row with at least [n_neighbors - 1]
    entries that are not zero. *)
Lemma row_from_sparse_complete (row : list (nat * R)) (i k : nat) :
  NoDup (map fst row) ->
  (1 <= k)%nat ->
  (k - 1 <= List.length (eliminate_zeros_row row))%nat ->
  exists cols vals rest,
    SparseBuilder.row_from_sparse row i k = Ok (i :: cols, 0 :: vals)
    /\ List.length cols = (k - 1)%nat
    /\ List.length vals = (k - 1)%nat
    /\ Permutation (combine cols vals ++ rest) (eliminate_zeros_row row)
    /\ forall a b, In a vals -> In b (map snd rest) -> a <= b.
Proof.
  intros Hnd Hk Hlen. destruct k as [|m]; [lia|].
  replace (S m - 1)%nat with m in * by lia.
  unfold SparseBuilder.row_from_sparse.
  set (E := eliminate_zeros_row row) in *.
  assert (Hvalues : map (row_get row) (map fst E) = map snd E).
  { rewrite map_map. apply map_ext_in. intros [c v] Hin. cbn [fst snd].
    apply (row_get_nodup _ _ _ Hnd).
    unfold E, eliminate_zeros_row in Hin. apply filter_In in Hin.
    apply Hin. }
  rewrite Hvalues, length_map.
  destruct (Nat.ltb m (List.length E)) eqn:Hlt.
  - destruct (@selection E m Hlen) as (H1 & H2 & rest & Hperm & Hle).
    do 3 eexists. split; [reflexivity|].
    split; [exact H1|]. split; [exact H2|]. split; [exact Hperm|exact Hle].
  - apply Nat.ltb_ge in Hlt.
    assert (Heq : List.length E = m) by lia.
    unfold SparseBuilder.assign_tail.
    rewrite !length_map, Heq, Nat.eqb_refl. cbn [bind].
    exists (map fst E), (map snd E), [].
    split; [reflexivity|]. rewrite !length_map.
    split; [exact Heq|]. split; [exact Heq|]. split.
    + rewrite app_nil_r, combine_map_same.
      rewrite (map_ext (fun x => (fst x, snd x)) (fun x => x))
        by (intros []; reflexivity).
      rewrite map_id. reflexivity.
    + intros a b _ [].
Qed.

(** * The index and distance arrays read back from a sparse distance matrix *)

(** X25.  For a target [k >= 1] and a matrix whose rows store each
    column at most once and hold at least [k - 1] entries that are not zero,
    [get_indices_distances_from_sparse_matrix] returns; row [i] of the index
    array is [i] followed by [k - 1] columns, row [i] of the distance array
    is [0] followed by the [k - 1] values stored at those columns, these
    pairs are entries of the row that are not zero, and every entry that is
    left out is at least as large as every one selected. *)
Theorem X25_complete_rows_hold_self_then_the_smallest_nonzero_entries
    (D : csr) (k : nat) :
  (1 <= k)%nat ->
  Forall (fun row => NoDup (map fst row)
            /\ (k - 1 <= List.length (eliminate_zeros_row row))%nat)
         (csr_rows D) ->
  exists indices distances,
    SparseBuilder.get_indices_distances_from_sparse_matrix D k
    = Ok (indices, distances)
    /\ List.length indices = List.length (csr_rows D)
    /\ List.length distances = List.length (csr_rows D)
    /\ forall i row, nth_error (csr_rows D) i = Some row ->
         exists cols vals rest,
           nth_error indices i = Some (i :: cols)
           /\ nth_error distances i = Some (0 :: vals)
           /\ List.length cols = (k - 1)%nat
           /\ List.length vals = (k - 1)%nat
           /\ Permutation (combine cols vals ++ rest)
                          (eliminate_zeros_row row)
           /\ forall a b, In a vals -> In b (map snd rest) -> a <= b.
Proof.
  intros Hk Hrows.
  unfold SparseBuilder.get_indices_distances_from_sparse_matrix.
  set (f := fun p : nat * list (nat * R) =>
              SparseBuilder.row_from_sparse (snd p) (fst p) k).
  set (l := combine (seq 0 (List.length (csr_rows D))) (csr_rows D)).
  assert (Hin : forall p, In p l ->
            NoDup (map fst (snd p))
            /\ (k - 1 <= List.length (eliminate_zeros_row (snd p)))%nat).
  { intros [i row] Hp. apply in_combine_r in Hp.
    rewrite Forall_forall in Hrows. apply (Hrows row Hp). }
  destruct (@mapM_total _ _ f l) as (out & Hout).
  { intros p Hp. destruct (Hin p Hp) as [Hnd Hlen].
    destruct (@row_from_sparse_complete (snd p) (fst p) k Hnd Hk Hlen)
      as (cols & vals & rest & Heq & _).
    eexists. exact Heq. }
  rewrite Hout. cbn [bind].
  destruct (mapM_nth _ _ Hout) as [Hlen Hnth].
  assert (Hl : List.length l = List.length (csr_rows D)).
  { unfold l. rewrite length_combine, length_seq. apply Nat.min_id. }
  exists (map fst out), (map snd out).
  split; [reflexivity|]. rewrite !length_map, Hlen, Hl.
  split; [reflexivity|]. split; [reflexivity|].
  intros i row Hi.
  destruct (Hnth i (i, row) (nth_error_enumerate _ _ Hi)) as (b & Hb & Hf).
  assert (Hrow : In row (csr_rows D)) by (eapply nth_error_In; exact Hi).
  rewrite Forall_forall in Hrows. destruct (Hrows row Hrow) as [Hnd Hlen'].
  destruct (@row_from_sparse_complete row i k Hnd Hk Hlen')
    as (cols & vals & rest & Heq & H1 & H2 & Hperm & Hle).
  unfold f in Hf. cbn [fst snd] in Hf. rewrite Heq in Hf.
  injection Hf as <-.
  exists cols, vals, rest.
  rewrite !nth_error_map, Hb. cbn [option_map fst snd].
  repeat (split; [first [reflexivity | assumption]|]). exact Hle.
Qed.

Lemma X25_witness :
  exists indices distances,
    SparseBuilder.get_indices_distances_from_sparse_matrix
      Examples.over_complete 2 = Ok (indices, distances)
    /\ List.length indices = 3%nat.
Proof.
  destruct (@X25_complete_rows_hold_self_then_the_smallest_nonzero_entries
              Examples.over_complete 2)
    as (indices & distances & H & Hlen & _).
  - lia.
  - unfold Examples.over_complete, eliminate_zeros_row. cbn [csr_rows].
    repeat constructor; cbn [map fst In]; try (intros H; intuition lia);
      r_run; cbn; lia.
  - exists indices, distances. split; [exact H | exact Hlen].
Defined.

(** * Finite sums *)

Lemma fold_Rplus_shift (l : list R) (a : R) :
  fold_left Rplus l a = a + fold_left Rplus l 0.
Proof.
  revert a. induction l as [|x l IH]; intros a; cbn [fold_left]; [lra|].
  rewrite (IH (a + x)), (IH (0 + x)). lra.
Qed.

Lemma Rsum_cons (x : R) (l : list R) : Rsum (x :: l) = x + Rsum l.
Proof.
  unfold Rsum. cbn [fold_left]. rewrite fold_Rplus_shift. lra.
Qed.

Lemma Rsum_nil : Rsum [] = 0.
Proof. reflexivity. Qed.

Lemma Rsum_map_ext (l : list nat) (f g : nat -> R) :
  (forall i, In i l -> f i = g i) -> Rsum (map f l) = Rsum (map g l).
Proof.
  intros H. f_equal. apply map_ext_in. exact H.
Qed.

Lemma Rsum_map_scal (l : list nat) (c : R) (f : nat -> R) :
  Rsum (map (fun i => c * f i) l) = c * Rsum (map f l).
Proof.
  induction l as [|a l IH]; cbn [map].
  - rewrite Rsum_nil. lra.
  - rewrite !Rsum_cons, IH. lra.
Qed.

Lemma Rsum_map_zero (l : list nat) (f : nat -> R) :
  (forall i, In i l -> f i = 0) -> Rsum (map f l) = 0.
Proof.
  induction l as [|a l IH]; intros H; cbn [map].
  - apply Rsum_nil.
  - rewrite Rsum_cons, IH, (H a).
    + lra.
    + left. reflexivity.
    + intros i Hi. apply H. right. exact Hi.
Qed.

Lemma Rsum_map_delta (l : list nat) (k : nat) (g : nat -> R) :
  NoDup l -> In k l ->
  Rsum (map (fun i => if Nat.eqb k i then g i else 0) l) = g k.
Proof.
  induction l as [|a l IH]; intros Hnd Hin; [destruct Hin|].
  inversion Hnd as [|x y Hx Hnd']; subst.
  cbn [map]. rewrite Rsum_cons.
  destruct (Nat.eqb k a) eqn:E.
  - apply Nat.eqb_eq in E. subst a.
    rewrite Rsum_map_zero; [lra|].
    intros i Hi. destruct (Nat.eqb k i) eqn:E'; [|reflexivity].
    apply Nat.eqb_eq in E'. subst i. contradiction.
  - apply Nat.eqb_neq in E.
    destruct Hin as [Hin|Hin]; [contradiction E; auto|].
    rewrite (IH Hnd' Hin). lra.
Qed.

Lemma Rsum_map_nonneg (l : list nat) (f : nat -> R) :
  (forall i, In i l -> 0 <= f i) -> 0 <= Rsum (map f l).
Proof.
  induction l as [|a l IH]; intros H; cbn [map].
  - rewrite Rsum_nil. lra.
  - rewrite Rsum_cons.
    assert (0 <= f a) by (apply H; left; reflexivity).
    assert (0 <= Rsum (map f l)) by (apply IH; intros; apply H; right; auto).
    lra.
Qed.

Lemma Rsum_map_pos (l : list nat) (f : nat -> R) (k : nat) :
  (forall i, In i l -> 0 <= f i) -> In k l -> 0 < f k ->
  0 < Rsum (map f l).
Proof.
  induction l as [|a l IH]; intros H Hin Hk; [destruct Hin|].
  cbn [map]. rewrite Rsum_cons.
  assert (Ha : 0 <= f a) by (apply H; left; reflexivity).
  assert (Hl : 0 <= Rsum (map f l))
    by (apply Rsum_map_nonneg; intros; apply H; right; auto).
  destruct Hin as [->|Hin]; [lra|].
  assert (0 < Rsum (map f l)); [|lra].
  apply IH; auto. intros; apply H; right; auto.
Qed.

Lemma Rsum_map_pos_inv (l : list nat) (f : nat -> R) :
  (forall i, In i l -> 0 <= f i) -> 0 < Rsum (map f l) ->
  exists k, In k l /\ 0 < f k.
Proof.
  induction l as [|a l IH]; intros H Hs; cbn [map] in Hs.
  - rewrite Rsum_nil in Hs. lra.
  - rewrite Rsum_cons in Hs.
    destruct (Rlt_le_dec 0 (f a)) as [Ha|Ha].
    + exists a. split; [left; reflexivity | exact Ha].
    + assert (0 <= f a) by (apply H; left; reflexivity).
      destruct IH as (k & Hk & Hpos).
      * intros; apply H; right; auto.
      * lra.
      * exists k. split; [right; exact Hk | exact Hpos].
Qed.

(** * Dense matrix algebra *)

Lemma nth_map_seq {B : Type} (F : nat -> B) (n i : nat) (d : B) :
  (i < n)%nat -> nth i (map F (seq 0 n)) d = F i.
Proof.
  intros Hi.
  rewrite (nth_indep _ d (F 0%nat)) by (rewrite length_map, length_seq; lia).
  rewrite map_nth, seq_nth by lia. reflexivity.
Qed.

Lemma get_mk_matrix (n : nat) (f : nat -> nat -> R) (i j : nat) :
  (i < n)%nat -> (j < n)%nat ->
  Transitions.get (Transitions.mk_matrix n f) i j = f i j.
Proof.
  intros Hi Hj. unfold Transitions.get, Transitions.mk_matrix.
  rewrite (nth_map_seq _ _ Hi), (nth_map_seq _ _ Hj). reflexivity.
Qed.

Lemma mk_matrix_square (n : nat) (f : nat -> nat -> R) :
  Transitions.is_square n (Transitions.mk_matrix n f) = true.
Proof.
  unfold Transitions.is_square, Transitions.mk_matrix.
  rewrite length_map, length_seq, Nat.eqb_refl. cbn [andb].
  apply forallb_forall. intros row Hrow.
  apply in_map_iff in Hrow. destruct Hrow as (i & <- & _).
  rewrite length_map, length_seq. apply Nat.eqb_refl.
Qed.

Lemma rsum_ext (n : nat) (f g : nat -> R) :
  (forall i, (i < n)%nat -> f i = g i) -> rsum n f = rsum n g.
Proof.
  intros H. unfold rsum. apply Rsum_map_ext.
  intros i Hi. apply in_seq in Hi. apply H. lia.
Qed.

Lemma rsum_delta (n k : nat) (g : nat -> R) :
  (k < n)%nat -> rsum n (fun i => if Nat.eqb k i then g i else 0) = g k.
Proof.
  intros Hk. unfold rsum. apply Rsum_map_delta.
  - apply seq_NoDup.
  - apply in_seq. lia.
Qed.

Lemma get_matmul (n : nat) (A B : list (list R)) (i j : nat) :
  (i < n)%nat -> (j < n)%nat ->
  Transitions.get (Transitions.matmul n A B) i j
  = rsum n (fun k => Transitions.get A i k * Transitions.get B k j).
Proof.
  intros Hi Hj. unfold Transitions.matmul. apply get_mk_matrix; assumption.
Qed.

Lemma get_diag (n : nat) (d : list R) (i j : nat) :
  (i < n)%nat -> (j < n)%nat ->
  Transitions.get (Transitions.diag n d) i j
  = if Nat.eqb i j then nth i d 0 else 0.
Proof.
  intros Hi Hj. unfold Transitions.diag.
  rewrite get_mk_matrix by assumption. reflexivity.
Qed.

(** Multiplying by a matrix that reads as the diagonal matrix of [d]
    scales the rows (on the left) or the columns (on the right). *)
Lemma matmul_diag_l (n : nat) (Dg B : list (list R)) (d : nat -> R)
    (i j : nat) :
  (forall a b, (a < n)%nat -> (b < n)%nat ->
     Transitions.get Dg a b = if Nat.eqb a b then d a else 0) ->
  (i < n)%nat -> (j < n)%nat ->
  Transitions.get (Transitions.matmul n Dg B) i j
  = d i * Transitions.get B i j.
Proof.
  intros HD Hi Hj. rewrite get_matmul by assumption.
  rewrite (@rsum_ext n _
             (fun k => if Nat.eqb i k
                       then d i * Transitions.get B k j else 0)).
  - rewrite rsum_delta by assumption. reflexivity.
  - intros k Hk. rewrite (HD i k Hi Hk).
    destruct (Nat.eqb i k); lra.
Qed.

Lemma matmul_diag_r (n : nat) (A Dg : list (list R)) (d : nat -> R)
    (i j : nat) :
  (forall a b, (a < n)%nat -> (b < n)%nat ->
     Transitions.get Dg a b = if Nat.eqb a b then d a else 0) ->
  (i < n)%nat -> (j < n)%nat ->
  Transitions.get (Transitions.matmul n A Dg) i j
  = Transitions.get A i j * d j.
Proof.
  intros HD Hi Hj. rewrite get_matmul by assumption.
  rewrite (@rsum_ext n _
             (fun k => if Nat.eqb j k
                       then Transitions.get A i k * d k else 0)).
  - rewrite rsum_delta by assumption. reflexivity.
  - intros k Hk. rewrite (HD k j Hk Hj), (Nat.eqb_sym k j).
    destruct (Nat.eqb j k); lra.
Qed.

(** * Matrices read back from their stored form *)

Lemma map_fst_combine {A B : Type} (l : list A) (s : list B) :
  List.length l = List.length s -> map fst (combine l s) = l.
Proof.
  revert s. induction l as [|x l IH]; intros [|y s] H; try discriminate;
    [reflexivity|].
  cbn. f_equal. apply IH. injection H as H. exact H.
Qed.

Lemma in_enumerate (l : list R) :
  forall (a p : nat) (v : R),
    In (p, v) (combine (seq a (List.length l)) l) ->
    (a <= p < a + List.length l)%nat /\ nth (p - a) l 0 = v.
Proof.
  induction l as [|x l IH]; intros a p v Hin; [destruct Hin|].
  cbn [List.length seq combine] in Hin. destruct Hin as [Hin|Hin].
  - injection Hin as <- <-. rewrite Nat.sub_diag. cbn. split; [lia|auto].
  - destruct (IH _ _ _ Hin) as [Hr Hv]. cbn [List.length].
    split; [lia|].
    replace (p - a)%nat with (S (p - S a)) by lia. exact Hv.
Qed.

Lemma enumerate_in (l : list R) (j : nat) :
  (j < List.length l)%nat ->
  In (j, nth j l 0) (combine (seq 0 (List.length l)) l).
Proof.
  intros Hj.
  assert (H : nth_error (combine (seq 0 (List.length l)) l) j
              = Some (j, nth j l 0)).
  { apply nth_error_enumerate. apply nth_error_nth'. exact Hj. }
  eapply nth_error_In. exact H.
Qed.

Lemma NoDup_map_fst_filter {A B : Type} (p : A * B -> bool)
    (l : list (A * B)) :
  NoDup (map fst l) -> NoDup (map fst (filter p l)).
Proof.
  induction l as [|e l IH]; intros H; [constructor|].
  cbn [map] in H. inversion H as [|x y Hx Hnd]; subst.
  cbn [filter]. destruct (p e).
  - cbn [map]. constructor; [|apply IH; exact Hnd].
    intros Hin. apply Hx. apply in_map_iff in Hin.
    destruct Hin as (e' & He' & Hin). apply filter_In in Hin.
    rewrite <- He'. apply in_map. apply Hin.
  - apply IH. exact Hnd.
Qed.

(** A row stored without its zeros reads back as the row. *)
Lemma row_get_stored (row : list R) (j : nat) :
  (j < List.length row)%nat ->
  row_get (eliminate_zeros_row (combine (seq 0 (List.length row)) row)) j
  = nth j row 0.
Proof.
  intros Hj. set (l := combine (seq 0 (List.length row)) row).
  assert (Hnd : NoDup (map fst l)).
  { unfold l. rewrite map_fst_combine by apply length_seq.
    apply seq_NoDup. }
  assert (Hnd' : NoDup (map fst (eliminate_zeros_row l)))
    by (apply NoDup_map_fst_filter; exact Hnd).
  destruct (Reqb (nth j row 0) 0) eqn:E.
  - apply Reqb_spec in E. rewrite E. unfold row_get.
    rewrite row_get_absent; [reflexivity|].
    intros Hin. apply in_map_iff in Hin.
    destruct Hin as ([c v] & Hc & Hin). cbn [fst] in Hc. subst c.
    apply filter_In in Hin. destruct Hin as [Hin Hnz].
    apply in_enumerate in Hin. destruct Hin as [_ Hv].
    rewrite Nat.sub_0_r in Hv. cbn [snd] in Hnz.
    rewrite <- Hv, E in Hnz.
    rewrite Reqb_true in Hnz by reflexivity. discriminate.
  - apply row_get_nodup; [exact Hnd'|].
    apply filter_In. split; [apply enumerate_in; exact Hj|].
    cbn [snd]. rewrite E. reflexivity.
Qed.

Lemma length_entries_like (m : matrix) (A : list (list R)) :
  List.length (Transitions.entries (Transitions.like m A)) = List.length A.
Proof.
  destruct m; cbn; [reflexivity|]. rewrite !length_map. reflexivity.
Qed.

Lemma get_entries_like (m : matrix) (A : list (list R)) (n i j : nat) :
  Transitions.is_square n A = true ->
  (i < n)%nat -> (j < n)%nat ->
  Transitions.get (Transitions.entries (Transitions.like m A)) i j
  = Transitions.get A i j.
Proof.
  intros Hsq Hi Hj. destruct m as [d|s]; [reflexivity|].
  unfold Transitions.is_square in Hsq.
  apply andb_true_iff in Hsq. destruct Hsq as [Hlen Hrows].
  apply Nat.eqb_eq in Hlen.
  assert (Hrow : List.length (nth i A []) = n).
  { rewrite forallb_forall in Hrows. apply Nat.eqb_eq, Hrows.
    apply nth_In. lia. }
  unfold Transitions.get, Transitions.entries, Transitions.like.
  cbn [n_cols csr_rows]. rewrite map_map.
  rewrite (nth_indep _ []
             ((fun row => map (row_get (eliminate_zeros_row
                 (combine (seq 0 (List.length row)) row)))
                 (seq 0 (List.length A))) []))
    by (rewrite length_map; lia).
  rewrite (map_nth (fun row => map (row_get (eliminate_zeros_row
                 (combine (seq 0 (List.length row)) row)))
                 (seq 0 (List.length A))) A [] i).
  rewrite Hlen, nth_map_seq by exact Hj.
  apply row_get_stored. lia.
Qed.

(** * Transition matrices *)

Lemma length_mk_matrix (n : nat) (f : nat -> nat -> R) :
  List.length (Transitions.mk_matrix n f) = n.
Proof.
  unfold Transitions.mk_matrix. rewrite length_map. apply length_seq.
Qed.

Lemma rsum_scal (n : nat) (c : R) (f : nat -> R) :
  rsum n (fun i => c * f i) = c * rsum n f.
Proof. unfold rsum. apply Rsum_map_scal. Qed.

Lemma rsum_pos (n k : nat) (f : nat -> R) :
  (forall i, (i < n)%nat -> 0 <= f i) -> (k < n)%nat -> 0 < f k ->
  0 < rsum n f.
Proof.
  intros H Hk Hpos. unfold rsum. apply (@Rsum_map_pos _ f k).
  - intros i Hi. apply in_seq in Hi. apply H. lia.
  - apply in_seq. lia.
  - exact Hpos.
Qed.

Lemma rsum_pos_inv (n : nat) (f : nat -> R) :
  (forall i, (i < n)%nat -> 0 <= f i) -> 0 < rsum n f ->
  exists k, (k < n)%nat /\ 0 < f k.
Proof.
  intros H Hs. unfold rsum in Hs.
  destruct (@Rsum_map_pos_inv (seq 0 n) f) as (k & Hk & Hpos).
  - intros i Hi. apply in_seq in Hi. apply H. lia.
  - exact Hs.
  - exists k. apply in_seq in Hk. split; [lia | exact Hpos].
Qed.

Lemma nth_sum_axis0 (n : nat) (A : list (list R)) (g : R -> R) (j : nat) :
  (j < n)%nat ->
  nth j (map g (Transitions.sum_axis0 n A)) 0
  = g (rsum n (fun i => Transitions.get A i j)).
Proof.
  intros Hj. unfold Transitions.sum_axis0. rewrite map_map.
  rewrite (@nth_map_seq _ (fun x => g (rsum n (fun i => Transitions.get A i x)))
             n j 0 Hj).
  reflexivity.
Qed.

(** [D @ A @ D] for the diagonal matrix [D] of [d]. *)
Lemma sandwich (n : nat) (d : list R) (A : list (list R)) (i j : nat) :
  (i < n)%nat -> (j < n)%nat ->
  Transitions.get
    (Transitions.matmul n (Transitions.matmul n (Transitions.diag n d) A)
                        (Transitions.diag n d)) i j
  = nth i d 0 * Transitions.get A i j * nth j d 0.
Proof.
  intros Hi Hj.
  rewrite (@matmul_diag_r n _ _ (fun a => nth a d 0) i j)
    by (intros; try apply get_diag; assumption).
  rewrite (@matmul_diag_l n _ _ (fun a => nth a d 0) i j)
    by (intros; try apply get_diag; assumption).
  reflexivity.
Qed.

Lemma length_diag (n : nat) (d : list R) :
  List.length (Transitions.diag n d) = n.
Proof. apply length_mk_matrix. Qed.

Section FromKernel.

Variable Wm : matrix.
Variable n : nat.
Variable K : list (list R).
Hypothesis Hpos : forall a, (a < n)%nat -> 0 < Transitions.column_sum n K a.

Notation z := (map (fun x => 1 / x) (map sqrt (Transitions.sum_axis0 n K))).
Notation Z := (Transitions.diag n z).
Notation Tsym := (Transitions.matmul n (Transitions.matmul n Z K) Z).
Notation zi := (fun a => 1 / sqrt (Transitions.column_sum n K a)).

Lemma nth_z (a : nat) : (a < n)%nat -> nth a z 0 = zi a.
Proof.
  intros Ha. rewrite map_map.
  apply (@nth_sum_axis0 n K (fun x => 1 / sqrt x) a Ha).
Qed.

Lemma zi_pos (a : nat) : (a < n)%nat -> 0 < zi a.
Proof.
  intros Ha. cbv beta. apply Rdiv_lt_0_compat; [lra|].
  apply sqrt_lt_R0, Hpos, Ha.
Qed.

Lemma zi_sqr (a : nat) :
  (a < n)%nat -> zi a * zi a = 1 / Transitions.column_sum n K a.
Proof.
  intros Ha. cbv beta.
  assert (Hc := Hpos Ha).
  assert (Hs : 0 < sqrt (Transitions.column_sum n K a))
    by (apply sqrt_lt_R0; exact Hc).
  assert (Hsq : sqrt (Transitions.column_sum n K a)
                * sqrt (Transitions.column_sum n K a)
                = Transitions.column_sum n K a)
    by (apply sqrt_sqrt; lra).
  rewrite <- Hsq at 3. field. lra.
Qed.

Lemma get_Tsym (i j : nat) :
  (i < n)%nat -> (j < n)%nat ->
  Transitions.get Tsym i j = zi i * Transitions.get K i j * zi j.
Proof.
  intros Hi Hj. rewrite sandwich by assumption.
  rewrite !nth_z by assumption. reflexivity.
Qed.

Lemma transitions_returns :
  Transitions.transitions (Some (Transitions.like Wm Z))
                          (Some (Transitions.like Wm Tsym))
  = Ok (Transitions.like (Transitions.like Wm Z)
          (Transitions.matmul n
             (Transitions.matmul n
                (Transitions.entries (Transitions.like Wm Z))
                (Transitions.entries (Transitions.like Wm Tsym)))
             (Transitions.diag n
                (map (fun x => 1 / x)
                   (Transitions.diagonal n
                      (Transitions.entries (Transitions.like Wm Z))))))).
Proof.
  unfold Transitions.transitions.
  cbv zeta. rewrite length_entries_like, length_diag. reflexivity.
Qed.

Lemma get_transitions (i j : nat) :
  (i < n)%nat -> (j < n)%nat ->
  Transitions.get
    (Transitions.entries
       (Transitions.like (Transitions.like Wm Z)
          (Transitions.matmul n
             (Transitions.matmul n
                (Transitions.entries (Transitions.like Wm Z))
                (Transitions.entries (Transitions.like Wm Tsym)))
             (Transitions.diag n
                (map (fun x => 1 / x)
                   (Transitions.diagonal n
                      (Transitions.entries (Transitions.like Wm Z)))))))) i j
  = Transitions.get K i j / Transitions.column_sum n K i.
Proof.
  intros Hi Hj.
  assert (HZ : forall a b, (a < n)%nat -> (b < n)%nat ->
             Transitions.get (Transitions.entries (Transitions.like Wm Z)) a b
             = if Nat.eqb a b then zi a else 0).
  { intros a b Ha Hb.
    rewrite (@get_entries_like Wm Z n a b) by
      (try apply mk_matrix_square; assumption).
    rewrite get_diag, nth_z by assumption. reflexivity. }
  rewrite (@get_entries_like _ _ n i j) by
    (try apply mk_matrix_square; assumption).
  rewrite (@matmul_diag_r n _ _ (fun a => 1 / zi a) i j); try assumption.
  - rewrite (@matmul_diag_l n _ _ zi i j HZ Hi Hj).
    rewrite (@get_entries_like Wm Tsym n i j) by
      (try apply mk_matrix_square; assumption).
    rewrite get_Tsym by assumption.
    assert (Hj' := zi_pos Hj). assert (Hi' := zi_sqr Hi). cbv beta in *.
    transitivity (1 / sqrt (Transitions.column_sum n K i)
                  * (1 / sqrt (Transitions.column_sum n K i))
                  * Transitions.get K i j).
    + field. split.
      * assert (0 < sqrt (Transitions.column_sum n K i))
          by (apply sqrt_lt_R0, Hpos, Hi). lra.
      * assert (0 < sqrt (Transitions.column_sum n K j))
          by (apply sqrt_lt_R0, Hpos, Hj). lra.
    + rewrite Hi'. unfold Rdiv. lra.
  - intros a b Ha Hb. rewrite get_diag by assumption.
    destruct (Nat.eqb a b); [|reflexivity].
    rewrite (@nth_indep _ _ a 0 ((fun x => 1 / x) 0))
      by (unfold Transitions.diagonal;
          rewrite !length_map, length_seq; exact Ha).
    rewrite (map_nth (fun x => 1 / x)).
    unfold Transitions.diagonal.
    rewrite (@nth_map_seq _ (fun k => Transitions.get
               (Transitions.entries (Transitions.like Wm Z)) k k) n a 0 Ha).
    rewrite (HZ a a Ha Ha), Nat.eqb_refl. reflexivity.
Qed.

End FromKernel.

Section OfConnectivities.

Variable W : list (list R).
Variable density_normalize : bool.
Hypothesis HW : Transitions.weighted_graph W.

Notation n := (List.length W).
Notation q := (map (fun x => 1 / x) (Transitions.sum_axis0 n W)).
Notation K :=
  (if density_normalize
   then Transitions.matmul n
          (Transitions.matmul n (Transitions.diag n q) W)
          (Transitions.diag n q)
   else W).

Lemma get_K (i j : nat) :
  (i < n)%nat -> (j < n)%nat ->
  Transitions.get K i j = Transitions.kernel W density_normalize i j.
Proof.
  intros Hi Hj. unfold Transitions.kernel.
  destruct density_normalize; [|reflexivity].
  rewrite sandwich by assumption.
  rewrite (@nth_sum_axis0 n W (fun x => 1 / x) i Hi).
  rewrite (@nth_sum_axis0 n W (fun x => 1 / x) j Hj).
  reflexivity.
Qed.

Lemma kernel_sym (i j : nat) :
  (i < n)%nat -> (j < n)%nat ->
  Transitions.kernel W density_normalize i j
  = Transitions.kernel W density_normalize j i.
Proof.
  intros Hi Hj. destruct HW as (_ & Hsym & _).
  unfold Transitions.kernel. rewrite (Hsym i j Hi Hj).
  destruct density_normalize; [lra | reflexivity].
Qed.

Lemma kernel_nonneg (i j : nat) :
  (i < n)%nat -> (j < n)%nat ->
  0 <= Transitions.kernel W density_normalize i j.
Proof.
  intros Hi Hj. destruct HW as (_ & _ & Hnn & Hcol).
  unfold Transitions.kernel. destruct density_normalize; [|auto].
  assert (0 < 1 / Transitions.column_sum n W i)
    by (apply Rdiv_lt_0_compat; [lra | auto]).
  assert (0 < 1 / Transitions.column_sum n W j)
    by (apply Rdiv_lt_0_compat; [lra | auto]).
  apply Rmult_le_pos; [apply Rmult_le_pos|]; try lra. auto.
Qed.

Lemma kernel_pos (i j : nat) :
  (i < n)%nat -> (j < n)%nat -> 0 < Transitions.get W i j ->
  0 < Transitions.kernel W density_normalize i j.
Proof.
  intros Hi Hj Hw. destruct HW as (_ & _ & _ & Hcol).
  unfold Transitions.kernel. destruct density_normalize; [|auto].
  assert (0 < 1 / Transitions.column_sum n W i)
    by (apply Rdiv_lt_0_compat; [lra | auto]).
  assert (0 < 1 / Transitions.column_sum n W j)
    by (apply Rdiv_lt_0_compat; [lra | auto]).
  apply Rmult_lt_0_compat; [apply Rmult_lt_0_compat|]; assumption.
Qed.

Lemma column_sum_K (j : nat) :
  (j < n)%nat ->
  Transitions.column_sum n K j
  = rsum n (fun i => Transitions.kernel W density_normalize i j).
Proof.
  intros Hj. unfold Transitions.column_sum. apply rsum_ext.
  intros i Hi. apply get_K; assumption.
Qed.

Lemma column_sum_K_pos (j : nat) :
  (j < n)%nat -> 0 < Transitions.column_sum n K j.
Proof.
  intros Hj. rewrite column_sum_K by exact Hj.
  assert (Hcol : 0 < Transitions.column_sum n W j) by (apply HW; exact Hj).
  destruct (@rsum_pos_inv n (fun i => Transitions.get W i j))
    as (k & Hk & Hpos).
  - intros i Hi. apply HW; assumption.
  - exact Hcol.
  - apply (@rsum_pos n k).
    + intros i Hi. apply kernel_nonneg; assumption.
    + exact Hk.
    + apply kernel_pos; assumption.
Qed.

End OfConnectivities.

(** What [compute_transitions] stores and what [transitions] then returns,
    entry by entry. *)
Lemma transitions_closed (Wm : matrix) (density_normalize : bool) :
  let W := Transitions.entries Wm in
  let n := List.length W in
  let k := Transitions.kernel W density_normalize in
  let c := fun a => rsum n (fun i => k i a) in
  Transitions.weighted_graph W ->
  exists Zm Tsym T,
    Transitions.compute_transitions (Some Wm) density_normalize
    = Ok (Zm, Tsym)
    /\ Transitions.transitions (Some Zm) (Some Tsym) = Ok T
    /\ (forall a, (a < n)%nat -> 0 < c a)
    /\ (forall i j, (i < n)%nat -> (j < n)%nat ->
          Transitions.get (Transitions.entries Tsym) i j
          = 1 / sqrt (c i) * k i j * (1 / sqrt (c j)))
    /\ (forall i j, (i < n)%nat -> (j < n)%nat ->
          Transitions.get (Transitions.entries T) i j = k i j / c i).
Proof.
  intros W n k c HW.
  assert (Hsq : Transitions.is_square n W = true) by apply HW.
  unfold Transitions.compute_transitions. fold W. fold n.
  rewrite Hsq. cbn [negb]. cbv zeta.
  set (K := if density_normalize
            then Transitions.matmul n
                   (Transitions.matmul n
                      (Transitions.diag n
                         (map (fun x => 1 / x) (Transitions.sum_axis0 n W)))
                      W)
                   (Transitions.diag n
                      (map (fun x => 1 / x) (Transitions.sum_axis0 n W)))
            else W).
  assert (HK : forall i j, (i < n)%nat -> (j < n)%nat ->
            Transitions.get K i j = k i j).
  { intros i j Hi Hj. exact (@get_K W density_normalize i j Hi Hj). }
  assert (Hc : forall a, (a < n)%nat -> Transitions.column_sum n K a = c a).
  { intros a Ha. exact (@column_sum_K W density_normalize a Ha). }
  assert (Hpos : forall a, (a < n)%nat -> 0 < Transitions.column_sum n K a).
  { intros a Ha. exact (@column_sum_K_pos W density_normalize HW a Ha). }
  do 3 eexists. split; [reflexivity|].
  split; [apply transitions_returns|].
  split; [intros a Ha; rewrite <- (Hc a Ha); apply Hpos; exact Ha|].
  split.
  - intros i j Hi Hj.
    rewrite (@get_entries_like Wm _ n i j)
      by (try apply mk_matrix_square; assumption).
    rewrite (@get_Tsym n K i j Hi Hj).
    rewrite (Hc i Hi), (Hc j Hj), (HK i j Hi Hj). reflexivity.
  - intros i j Hi Hj.
    rewrite (@get_transitions Wm n K Hpos i j Hi Hj).
    rewrite (Hc i Hi), (HK i j Hi Hj). reflexivity.
Qed.

Lemma pair_graph_weighted :
  Transitions.weighted_graph (Transitions.entries Examples.pair_graph).
Proof.
  unfold Transitions.weighted_graph, Examples.pair_graph.
  cbn [Transitions.entries List.length].
  split; [reflexivity|]. split; [|split].
  - intros [|[|i]] [|[|j]] Hi Hj; try lia; reflexivity.
  - intros [|[|i]] [|[|j]] Hi Hj; try lia; cbn; lra.
  - intros [|[|j]] Hj; try lia;
      unfold Transitions.column_sum, rsum, Rsum; cbn; lra.
Qed.

(** X1.  Over the reals, that is with every [float64] sum and product
    read as the exact one (rounding is not modelled): for the
    connectivities of a weighted graph (square, symmetric, no negative
    weight, positive column sums), with or without density normalization,
    [compute_transitions] returns, [transitions] then returns, and entry
    [(i, j)] of [transitions] is the kernel entry [K[i, j]] divided by the
    sum of column [i] of [K]: without density normalization, [W[i, j]]
    over the sum of column [i] of [W]. *)
Theorem X1_transitions_is_the_kernel_over_its_column_sums
    (Wm : matrix) (density_normalize : bool) :
  let W := Transitions.entries Wm in
  let n := List.length W in
  Transitions.weighted_graph W ->
  exists Zm Tsym T,
    Transitions.compute_transitions (Some Wm) density_normalize
    = Ok (Zm, Tsym)
    /\ Transitions.transitions (Some Zm) (Some Tsym) = Ok T
    /\ forall i j, (i < n)%nat -> (j < n)%nat ->
         Transitions.get (Transitions.entries T) i j
         = Transitions.kernel W density_normalize i j
           / rsum n (fun a => Transitions.kernel W density_normalize a i).
Proof.
  intros W n HW. subst n W.
  destruct (@transitions_closed Wm density_normalize HW)
    as (Zm & Tsym & T & H1 & H2 & _ & _ & H3).
  exists Zm, Tsym, T. split; [exact H1|]. split; [exact H2|]. exact H3.
Qed.

Lemma X1_witness :
  exists Zm Tsym T,
    Transitions.compute_transitions (Some Examples.pair_graph) false
    = Ok (Zm, Tsym)
    /\ Transitions.transitions (Some Zm) (Some Tsym) = Ok T
    /\ forall i j, (i < 2)%nat -> (j < 2)%nat ->
         Transitions.get (Transitions.entries T) i j
         = Transitions.kernel
             (Transitions.entries Examples.pair_graph) false i j
           / rsum 2 (fun a => Transitions.kernel
                        (Transitions.entries Examples.pair_graph) false a i).
Proof.
  apply (@X1_transitions_is_the_kernel_over_its_column_sums
           Examples.pair_graph false).
  apply pair_graph_weighted.
Defined.

(** X2.  Over the reals, for the connectivities of a weighted graph
    (square, symmetric, no negative weight, positive column sums), with or
    without density normalization, every row of [transitions] sums
    to 1. *)
Theorem X2_transitions_rows_sum_to_one
    (Wm : matrix) (density_normalize : bool) :
  let W := Transitions.entries Wm in
  let n := List.length W in
  Transitions.weighted_graph W ->
  exists Zm Tsym T,
    Transitions.compute_transitions (Some Wm) density_normalize
    = Ok (Zm, Tsym)
    /\ Transitions.transitions (Some Zm) (Some Tsym) = Ok T
    /\ forall i, (i < n)%nat ->
         rsum n (fun j => Transitions.get (Transitions.entries T) i j) = 1.
Proof.
  intros W n HW. subst n W.
  destruct (@transitions_closed Wm density_normalize HW)
    as (Zm & Tsym & T & H1 & H2 & Hc & _ & H3).
  exists Zm, Tsym, T. split; [exact H1|]. split; [exact H2|].
  cbv beta zeta in *. intros i Hi.
  set (W := Transitions.entries Wm) in *. set (n := List.length W) in *.
  rewrite (@rsum_ext n _
             (fun j => / rsum n (fun a =>
                           Transitions.kernel W density_normalize a i)
                       * Transitions.kernel W density_normalize j i)).
  - rewrite rsum_scal. apply Rinv_l.
    apply Rgt_not_eq. exact (Hc i Hi).
  - intros j Hj. rewrite (H3 i j Hi Hj).
    rewrite (@kernel_sym W density_normalize HW i j Hi Hj).
    unfold Rdiv. apply Rmult_comm.
Qed.

Lemma X2_witness :
  exists Zm Tsym T,
    Transitions.compute_transitions (Some Examples.pair_graph) true
    = Ok (Zm, Tsym)
    /\ Transitions.transitions (Some Zm) (Some Tsym) = Ok T
    /\ forall i, (i < 2)%nat ->
         rsum 2 (fun j => Transitions.get (Transitions.entries T) i j) = 1.
Proof.
  apply (@X2_transitions_rows_sum_to_one Examples.pair_graph true).
  apply pair_graph_weighted.
Defined.

(** X3.  Over the reals, that is with every [float64] sum and product
    read as the exact one (rounding is not modelled): for the
    connectivities of a weighted graph (square, symmetric, no negative
    weight, positive column sums), with or without density normalization,
    the matrix that [compute_transitions] stores as [transitions_sym] is
    symmetric. *)
Theorem X3_transitions_sym_is_symmetric
    (Wm : matrix) (density_normalize : bool) :
  let W := Transitions.entries Wm in
  let n := List.length W in
  Transitions.weighted_graph W ->
  exists Zm Tsym,
    Transitions.compute_transitions (Some Wm) density_normalize
    = Ok (Zm, Tsym)
    /\ forall i j, (i < n)%nat -> (j < n)%nat ->
         Transitions.get (Transitions.entries Tsym) i j
         = Transitions.get (Transitions.entries Tsym) j i.
Proof.
  intros W n HW. subst n W.
  destruct (@transitions_closed Wm density_normalize HW)
    as (Zm & Tsym & T & H1 & _ & _ & H2 & _).
  exists Zm, Tsym. split; [exact H1|].
  cbv beta zeta in *. intros i j Hi Hj.
  rewrite (H2 i j Hi Hj), (H2 j i Hj Hi).
  rewrite (@kernel_sym _ density_normalize HW i j Hi Hj). lra.
Qed.

Lemma X3_witness :
  exists Zm Tsym,
    Transitions.compute_transitions (Some Examples.pair_graph) true
    = Ok (Zm, Tsym)
    /\ forall i j, (i < 2)%nat -> (j < 2)%nat ->
         Transitions.get (Transitions.entries Tsym) i j
         = Transitions.get (Transitions.entries Tsym) j i.
Proof.
  apply (@X3_transitions_sym_is_symmetric Examples.pair_graph true).
  apply pair_graph_weighted.
Defined.

(** * From a dense distance matrix to neighbour arrays *)

Lemma sorted_keys_values (l : list (R * nat)) :
  StronglySorted le_key l -> StronglySorted Rle (map fst l).
Proof.
  induction 1 as [|x l Hs IH Hx]; cbn [map]; constructor; [exact IH|].
  rewrite Forall_forall in Hx |- *. intros v Hv.
  apply in_map_iff in Hv. destruct Hv as (y & <- & Hy). apply (Hx y Hy).
Qed.

Lemma in_firstn {A : Type} (m : nat) (l : list A) (x : A) :
  In x (firstn m l) -> In x l.
Proof.
  intros H. rewrite <- (firstn_skipn m l). apply in_or_app. left. exact H.
Qed.

Lemma StronglySorted_firstn {A : Type} (le : A -> A -> Prop) (l : list A)
    (m : nat) :
  StronglySorted le l -> StronglySorted le (firstn m l).
Proof.
  intros Hs. revert m.
  induction Hs as [|x l Hs IH Hx]; intros [|m]; cbn [firstn];
    try constructor.
  - apply IH.
  - rewrite Forall_forall in Hx |- *. intros y Hy. apply Hx.
    apply (in_firstn m l y Hy).
Qed.

(** The values at the positions [argsort] lists are the sorted values. *)
Lemma take_at_argsort (a : list R) :
  take_at 0 a (argsort a) = sorted_values a.
Proof.
  unfold take_at, argsort, sorted_values. rewrite map_map.
  apply map_ext_in. intros [v p] Hin.
  apply (Permutation_in _ (sort_keys_perm _)) in Hin.
  apply in_combine_seq in Hin. destruct Hin as [_ Hv].
  rewrite Nat.sub_0_r in Hv. exact Hv.
Qed.

Lemma sorted_values_sorted (a : list R) :
  StronglySorted Rle (sorted_values a).
Proof.
  unfold sorted_values. apply sorted_keys_values, sort_keys_sorted.
Qed.

Lemma take_at_firstn {A : Type} (d : A) (a : list A) (idx : list nat)
    (m : nat) :
  take_at d a (firstn m idx) = firstn m (take_at d a idx).
Proof. unfold take_at. symmetry. apply firstn_map. Qed.

Lemma take_at_seq (idx : list nat) (n : nat) :
  Forall (fun i => (i < n)%nat) idx -> take_at 0%nat (seq 0 n) idx = idx.
Proof.
  intros H. unfold take_at.
  rewrite <- (map_id idx) at 2. apply map_ext_in. intros i Hi.
  rewrite Forall_forall in H. apply seq_nth. apply H, Hi.
Qed.

Lemma argsort_in_range (a : list R) :
  Forall (fun i => (i < List.length a)%nat) (argsort a).
Proof.
  apply Forall_forall. intros p Hp. unfold argsort in Hp.
  apply in_map_iff in Hp. destruct Hp as ([v p'] & Hs & Hin).
  cbn [snd] in Hs. subst p'.
  apply (Permutation_in _ (sort_keys_perm _)) in Hin.
  apply in_combine_seq in Hin. lia.
Qed.

(** One row of the extraction from a dense matrix. *)
Lemma row_from_dense_complete (row : list R) (k : nat) :
  (1 <= k)%nat -> (k <= List.length row)%nat ->
  exists ind dis rest,
    SparseBuilder.row_from_dense row k = Ok (ind, dis)
    /\ List.length ind = k
    /\ dis = map (fun c => nth c row 0) ind
    /\ StronglySorted Rle dis
    /\ Permutation (combine ind dis ++ rest)
                   (combine (seq 0 (List.length row)) row)
    /\ forall a b, In a dis -> In b (map snd rest) -> a <= b.
Proof.
  intros Hk Hlen. unfold SparseBuilder.row_from_dense.
  replace (Nat.ltb (List.length row) (Nat.max 1 k)) with false
    by (symmetry; apply Nat.ltb_ge; lia).
  set (E := combine (seq 0 (List.length row)) row).
  assert (Hfst : map fst E = seq 0 (List.length row))
    by (apply map_fst_combine, length_seq).
  assert (Hsnd : map snd E = row)
    by (apply map_snd_combine, length_seq).
  assert (HE : (k <= List.length E)%nat).
  { unfold E. rewrite length_combine, length_seq. lia. }
  destruct (@selection E k HE) as (H1 & H2 & rest & Hperm & Hle).
  rewrite Hfst, Hsnd in *.
  assert (Hidx : take_at 0%nat (seq 0 (List.length row))
                   (firstn k (argsort row)) = firstn k (argsort row)).
  { apply take_at_seq. apply Forall_forall. intros i Hi.
    apply in_firstn in Hi.
    pose proof (argsort_in_range row) as Hr.
    rewrite Forall_forall in Hr. apply Hr, Hi. }
  rewrite Hidx in *.
  exists (firstn k (argsort row)),
         (take_at 0 row (firstn k (argsort row))), rest.
  split; [reflexivity|]. split; [exact H1|]. split; [reflexivity|].
  split.
  - rewrite take_at_firstn, take_at_argsort.
    apply StronglySorted_firstn, sorted_values_sorted.
  - split; [exact Hperm | exact Hle].
Qed.

(** X4.  For a target [k >= 1] and a dense matrix whose rows have at least
    [k] entries, [get_indices_distances_from_dense_matrix] returns; in every
    row the [k] indices are distinct positions of the row, the distances are
    the entries at those positions, they increase along the row, and every
    entry left out is at least as large as every one selected. *)
Theorem X4_dense_rows_hold_the_smallest_entries_in_order
    (D : list (list R)) (k : nat) :
  (1 <= k)%nat ->
  Forall (fun row => (k <= List.length row)%nat) D ->
  exists indices distances,
    SparseBuilder.get_indices_distances_from_dense_matrix D k
    = Ok (indices, distances)
    /\ List.length indices = List.length D
    /\ List.length distances = List.length D
    /\ forall i row, nth_error D i = Some row ->
         exists ind dis rest,
           nth_error indices i = Some ind
           /\ nth_error distances i = Some dis
           /\ List.length ind = k
           /\ dis = map (fun c => nth c row 0) ind
           /\ StronglySorted Rle dis
           /\ Permutation (combine ind dis ++ rest)
                          (combine (seq 0 (List.length row)) row)
           /\ forall a b, In a dis -> In b (map snd rest) -> a <= b.
Proof.
  intros Hk Hrows.
  unfold SparseBuilder.get_indices_distances_from_dense_matrix.
  rewrite Forall_forall in Hrows.
  destruct (@mapM_total _ _
              (fun row => SparseBuilder.row_from_dense row k) D)
    as (out & Hout).
  { intros row Hrow.
    destruct (@row_from_dense_complete row k Hk (Hrows row Hrow))
      as (ind & dis & rest & Heq & _).
    eexists. exact Heq. }
  rewrite Hout. cbn [bind].
  destruct (mapM_nth _ _ Hout) as [Hlen Hnth].
  exists (map fst out), (map snd out).
  split; [reflexivity|]. rewrite !length_map, Hlen.
  split; [reflexivity|]. split; [reflexivity|].
  intros i row Hi.
  destruct (Hnth i row Hi) as (b & Hb & Hf).
  assert (Hrow : In row D) by (eapply nth_error_In; exact Hi).
  destruct (@row_from_dense_complete row k Hk (Hrows row Hrow))
    as (ind & dis & rest & Heq & H1 & H2 & H3 & Hperm & Hle).
  rewrite Heq in Hf. injection Hf as <-.
  exists ind, dis, rest.
  rewrite !nth_error_map, Hb. cbn [option_map fst snd].
  repeat (split; [first [reflexivity | assumption]|]). exact Hle.
Qed.

Lemma X4_witness :
  exists indices distances,
    SparseBuilder.get_indices_distances_from_dense_matrix Examples.line3 2
    = Ok (indices, distances)
    /\ List.length indices = 3%nat.
Proof.
  destruct (@X4_dense_rows_hold_the_smallest_entries_in_order
              Examples.line3 2)
    as (indices & distances & H & Hlen & _).
  - lia.
  - unfold Examples.line3. repeat constructor; cbn; lia.
  - exists indices, distances. split; [exact H | exact Hlen].
Defined.

(** When [n_neighbors] exceeds the number of columns of a dense
    matrix that has rows, or a row is empty, the extraction raises the
    [ValueError] of [np.argpartition]. *)
Lemma dense_extraction_rejects_short_rows
    (D : list (list R)) (k : nat) :
  D <> [] ->
  Forall (fun row => (List.length row < Nat.max 1 k)%nat) D ->
  SparseBuilder.get_indices_distances_from_dense_matrix D k
  = Raise (ValueError "kth out of bounds").
Proof.
  intros Hne Hrows. destruct D as [|row D]; [contradiction|].
  inversion Hrows as [|x l Hrow _]; subst.
  unfold SparseBuilder.get_indices_distances_from_dense_matrix.
  cbn [mapM]. unfold SparseBuilder.row_from_dense.
  replace (Nat.ltb (List.length row) (Nat.max 1 k)) with true
    by (symmetry; apply Nat.ltb_lt; exact Hrow).
  reflexivity.
Qed.

(** * The Gauss kernel on dense distances *)

Lemma index_z_last {A : Type} (l : list A) (m : nat) (d : A) :
  List.length l = S m -> index_z l (-1) = Ok (nth m l d).
Proof.
  intros H. unfold index_z. rewrite H.
  replace (0 <=? -1)%Z with false by reflexivity.
  replace (- Z.of_nat (S m) <=? -1)%Z with true
    by (symmetry; apply Z.leb_le; lia).
  replace (Z.to_nat (Z.of_nat (S m) + -1)) with m by lia.
  apply index_nth. lia.
Qed.

Lemma row_from_dense_value (row : list R) (k : nat) :
  (Nat.max 1 k <= List.length row)%nat ->
  SparseBuilder.row_from_dense row k
  = Ok (firstn k (argsort row), firstn k (sorted_values row)).
Proof.
  intros H. unfold SparseBuilder.row_from_dense.
  replace (Nat.ltb (List.length row) (Nat.max 1 k)) with false
    by (symmetry; apply Nat.ltb_ge; exact H).
  rewrite take_at_firstn, take_at_argsort. reflexivity.
Qed.

Lemma length_sorted_values (a : list R) :
  List.length (sorted_values a) = List.length a.
Proof.
  unfold sorted_values.
  rewrite length_map, (Permutation_length (sort_keys_perm _)).
  rewrite length_combine, length_seq. apply Nat.min_id.
Qed.

Lemma nth_enumerate_map {A B : Type} (F : nat * A -> B) (l : list A)
    (i : nat) (d : B) (d' : A) :
  (i < List.length l)%nat ->
  nth i (map F (combine (seq 0 (List.length l)) l)) d = F (i, nth i l d').
Proof.
  intros Hi. apply nth_error_nth.
  rewrite nth_error_map.
  rewrite (@nth_error_enumerate _ l i (nth i l d'))
    by (apply nth_error_nth'; exact Hi).
  reflexivity.
Qed.

Lemma is_square_rows (n : nat) (A : list (list R)) :
  Transitions.is_square n A = true ->
  List.length A = n
  /\ forall row, In row A -> List.length row = n.
Proof.
  unfold Transitions.is_square. intros H.
  apply andb_true_iff in H. destruct H as [Hlen Hrows].
  apply Nat.eqb_eq in Hlen. split; [exact Hlen|].
  intros row Hrow. rewrite forallb_forall in Hrows.
  apply Nat.eqb_eq, Hrows, Hrow.
Qed.

Lemma nth_map_in {A B : Type} (F : A -> B) (l : list A) (i : nat)
    (d : B) (d' : A) :
  (i < List.length l)%nat -> nth i (map F l) d = F (nth i l d').
Proof.
  intros Hi. rewrite (nth_indep _ d (F d')) by (rewrite length_map; exact Hi).
  apply map_nth.
Qed.

Lemma nth_tl {A : Type} (l : list A) (m : nat) (d : A) :
  nth m (tl l) d = nth (S m) l d.
Proof. destruct l; [destruct m|]; reflexivity. Qed.

Section DenseKernel.

Variable D : list (list R).
Variables k n : nat.
Hypothesis Hsq : Transitions.is_square n D = true.
Hypothesis Hk2 : (2 <= k)%nat.
Hypothesis Hkn : (k <= n)%nat.

Notation Dsq := (map (map (fun d => d ^ 2)) D).
Notation sel :=
  (fun row : list R => (firstn k (argsort row), firstn k (sorted_values row))).
Notation sig :=
  (fun row : list R => nth (k - 1) (sorted_values row) 0 / 4).

Lemma Dsq_rows (row : list R) : In row Dsq -> List.length row = n.
Proof.
  intros Hin. apply in_map_iff in Hin. destruct Hin as (r & <- & Hr).
  rewrite length_map. apply (@is_square_rows n D Hsq), Hr.
Qed.

Lemma dense_search :
  SparseBuilder.get_indices_distances_from_dense_matrix Dsq k
  = Ok (map fst (map sel Dsq), map snd (map sel Dsq)).
Proof.
  unfold SparseBuilder.get_indices_distances_from_dense_matrix.
  rewrite (@mapM_ok _ _ (fun row => SparseBuilder.row_from_dense row k) sel).
  - reflexivity.
  - intros row Hrow. apply row_from_dense_value.
    rewrite (Dsq_rows _ Hrow). lia.
Qed.

Lemma dense_sigmas_of (L : list (list R)) :
  (forall row, In row L -> List.length row = n) ->
  mapM (fun row => x <- index_z row (-1) ;; Ok (x / 4))
       (Gauss.drop_first (map snd (map sel L)))
  = Ok (map sig L).
Proof.
  intros HL. unfold Gauss.drop_first. rewrite !map_map. cbn [snd].
  rewrite (@mapM_ok _ _ _ (fun row => nth (k - 2) row 0 / 4)).
  - f_equal. rewrite map_map. apply map_ext_in. intros row Hrow.
    rewrite nth_tl.
    replace (S (k - 2)) with (k - 1)%nat by lia.
    rewrite nth_firstn.
    replace (Nat.ltb (k - 1) k) with true
      by (symmetry; apply Nat.ltb_lt; lia).
    reflexivity.
  - intros row' Hin. apply in_map_iff in Hin.
    destruct Hin as (row & <- & Hrow).
    rewrite (@index_z_last _ _ (k - 2) 0); [reflexivity|].
    assert (Hlen : List.length (firstn k (sorted_values row)) = k).
    { rewrite length_firstn, length_sorted_values, (HL _ Hrow). lia. }
    destruct (firstn k (sorted_values row)) as [|x l]; cbn in *; lia.
Qed.

Lemma dense_sigmas :
  mapM (fun row => x <- index_z row (-1) ;; Ok (x / 4))
       (Gauss.drop_first (map snd (map sel Dsq)))
  = Ok (map sig Dsq).
Proof. apply dense_sigmas_of. exact Dsq_rows. Qed.

Lemma nth_sigmas_sq (i : nat) :
  (i < n)%nat -> nth i (map sig Dsq) 0 = Gauss.sigma_sq_dense D k i.
Proof.
  intros Hi. destruct (@is_square_rows n D Hsq) as [Hlen _].
  rewrite (@nth_map_in _ _ sig Dsq i 0 [])
    by (rewrite length_map; lia).
  rewrite (@nth_map_in _ _ (map (fun d => d ^ 2)) D i [] []) by lia.
  reflexivity.
Qed.

Lemma nth_sigmas (i : nat) :
  (i < n)%nat ->
  nth i (map sqrt (map sig Dsq)) 0 = sqrt (Gauss.sigma_sq_dense D k i).
Proof.
  intros Hi. destruct (@is_square_rows n D Hsq) as [Hlen _].
  rewrite (@nth_map_in _ _ sqrt (map sig Dsq) i 0 0)
    by (rewrite !length_map; lia).
  rewrite nth_sigmas_sq by exact Hi. reflexivity.
Qed.

End DenseKernel.

(** The dense path in closed form. *)
Lemma gauss_dense_closed (D : list (list R)) (k n : nat) :
  Transitions.is_square n D = true -> (2 <= k)%nat -> (k <= n)%nat ->
  exists W,
    Gauss.gauss_dense D k = Ok W
    /\ Transitions.is_square n W = true
    /\ forall i j, (i < n)%nat -> (j < n)%nat ->
         Transitions.get W i j = Gauss.cut (Gauss.kernel_dense D k i j).
Proof.
  intros Hsq Hk2 Hkn.
  destruct (@is_square_rows n D Hsq) as [Hlen Hrows].
  unfold Gauss.gauss_dense.
  rewrite (@dense_search D k n Hsq Hk2 Hkn). cbn [bind snd].
  replace (Nat.leb k 1) with false by (symmetry; apply Nat.leb_gt; lia).
  rewrite (@dense_sigmas D k n Hsq Hk2 Hkn). cbn [bind].
  rewrite length_map, Hlen.
  replace (forallb (fun row => Nat.eqb (List.length row) n)
             (map (map (fun d => d ^ 2)) D)) with true.
  2:{ symmetry. apply forallb_forall. intros row Hrow.
      apply Nat.eqb_eq. apply (@Dsq_rows D n Hsq row Hrow). }
  cbn [negb]. eexists. split; [reflexivity|]. split.
  - unfold Transitions.is_square.
    rewrite length_map, length_combine, length_seq, length_map, Hlen,
      Nat.min_id, Nat.eqb_refl.
    cbn [andb]. apply forallb_forall. intros row Hrow.
    apply in_map_iff in Hrow. destruct Hrow as ([i r] & <- & Hin).
    apply in_combine_r in Hin. cbn [snd].
    rewrite length_map, length_combine, length_seq.
    rewrite (@Dsq_rows D n Hsq r Hin), Nat.min_id. apply Nat.eqb_refl.
  - intros i j Hi Hj.
    unfold Transitions.get.
    assert (HlenD : List.length (map (map (fun d => d ^ 2)) D) = n)
      by (rewrite length_map; exact Hlen).
    rewrite <- HlenD at 1.
    rewrite (@nth_enumerate_map _ _ _ (map (map (fun d => d ^ 2)) D) i [] [])
      by lia.
    cbn [fst snd].
    assert (Hrow : List.length (nth i (map (map (fun d => d ^ 2)) D) []) = n).
    { apply (@Dsq_rows D n Hsq). apply nth_In. lia. }
    rewrite <- Hrow at 1.
    rewrite (@nth_enumerate_map _ _ _
               (nth i (map (map (fun d => d ^ 2)) D) []) j 0 0) by lia.
    cbn [fst snd]. unfold Gauss.weight_dense.
    rewrite !(@nth_sigmas D k n Hsq) by assumption.
    rewrite !(@nth_sigmas_sq D k n Hsq) by assumption.
    rewrite (@nth_map_in _ _ (map (fun d => d ^ 2)) D i [] []) by lia.
    rewrite (@nth_map_in _ _ (fun d => d ^ 2) (nth i D []) j 0 0).
    + reflexivity.
    + rewrite (Hrows (nth i D [])); [exact Hj|]. apply nth_In. lia.
Qed.

Lemma line3_square : Transitions.is_square 3 Examples.line3 = true.
Proof. reflexivity. Qed.

Lemma line3_symmetric (i j : nat) :
  (i < 3)%nat -> (j < 3)%nat ->
  Transitions.get Examples.line3 i j = Transitions.get Examples.line3 j i.
Proof.
  destruct i as [|[|[|i]]]; destruct j as [|[|[|j]]]; intros Hi Hj;
    try lia; reflexivity.
Qed.

(** X5.  Without [knn], for a square and symmetric array of distances on
    [n] observations and [2 <= n_neighbors <= n], the Gauss kernel returns
    a square array [W] with [W[i, j] = W[j, i]] for all [i], [j]. *)
Theorem X5_dense_gauss_connectivities_are_symmetric
    (D : list (list R)) (k n : nat) :
  Transitions.is_square n D = true ->
  (forall i j, (i < n)%nat -> (j < n)%nat ->
     Transitions.get D i j = Transitions.get D j i) ->
  (2 <= k)%nat -> (k <= n)%nat ->
  exists W,
    Gauss._compute_connectivities_diffmap false (Dense D) k = Ok (Dense W)
    /\ Transitions.is_square n W = true
    /\ forall i j, (i < n)%nat -> (j < n)%nat ->
         Transitions.get W i j = Transitions.get W j i.
Proof.
  intros Hsq Hsym Hk2 Hkn.
  destruct (@gauss_dense_closed D k n Hsq Hk2 Hkn) as (W & HW & HsqW & Hget).
  exists W. cbn [Gauss._compute_connectivities_diffmap].
  rewrite HW. cbn [bind]. split; [reflexivity|]. split; [exact HsqW|].
  intros i j Hi Hj. rewrite (Hget i j Hi Hj), (Hget j i Hj Hi).
  f_equal. unfold Gauss.kernel_dense. cbv zeta.
  pose proof (Hsym i j Hi Hj) as Hd. unfold Transitions.get in Hd.
  rewrite Hd.
  rewrite (Rmult_comm (sqrt (Gauss.sigma_sq_dense D k i))).
  rewrite (Rplus_comm (Gauss.sigma_sq_dense D k i)).
  reflexivity.
Qed.

Lemma X5_witness :
  exists W,
    Gauss._compute_connectivities_diffmap false (Dense Examples.line3) 2
    = Ok (Dense W)
    /\ Transitions.is_square 3 W = true
    /\ forall i j, (i < 3)%nat -> (j < 3)%nat ->
         Transitions.get W i j = Transitions.get W j i.
Proof.
  apply (@X5_dense_gauss_connectivities_are_symmetric Examples.line3 2 3).
  - exact line3_square.
  - exact line3_symmetric.
  - lia.
  - lia.
Defined.

(** X6.  Without [knn], on a square array of distances with rows,
    [n_neighbors <= 1] makes the Gauss kernel raise [IndexError]: the
    neighbour distances without the observation itself have no last
    column. *)
Theorem X6_dense_gauss_needs_two_neighbors
    (D : list (list R)) (k n : nat) :
  Transitions.is_square n D = true ->
  (1 <= n)%nat -> (k <= 1)%nat ->
  Gauss._compute_connectivities_diffmap false (Dense D) k
  = Raise IndexError.
Proof.
  intros Hsq Hn Hk.
  cbn [Gauss._compute_connectivities_diffmap]. unfold Gauss.gauss_dense.
  unfold SparseBuilder.get_indices_distances_from_dense_matrix.
  rewrite (@mapM_ok _ _ (fun row => SparseBuilder.row_from_dense row k)
             (fun row => (firstn k (argsort row),
                          firstn k (sorted_values row)))).
  - cbn [bind].
    replace (Nat.leb k 1) with true by (symmetry; apply Nat.leb_le; lia).
    reflexivity.
  - intros row Hrow. apply row_from_dense_value.
    rewrite (@Dsq_rows D n Hsq row Hrow). lia.
Qed.

Lemma X6_witness :
  Gauss._compute_connectivities_diffmap false (Dense Examples.line3) 1
  = Raise IndexError.
Proof.
  apply (@X6_dense_gauss_needs_two_neighbors Examples.line3 1 3).
  - exact line3_square.
  - lia.
  - lia.
Defined.

Lemma sorted_values_perm (a : list R) : Permutation (sorted_values a) a.
Proof.
  unfold sorted_values.
  rewrite (Permutation_map fst (sort_keys_perm _)).
  rewrite map_fst_combine by (rewrite length_seq; reflexivity).
  reflexivity.
Qed.

Lemma sigma_sq_dense_nonneg (D : list (list R)) (k i : nat) :
  0 <= Gauss.sigma_sq_dense D k i.
Proof.
  unfold Gauss.sigma_sq_dense.
  set (s := sorted_values (map (fun d => d ^ 2) (nth i D []))).
  assert (0 <= nth (k - 1) s 0); [|lra].
  destruct (Nat.lt_ge_cases (k - 1) (List.length s)) as [Hlt|Hge].
  - assert (Hin : In (nth (k - 1) s 0) s) by (apply nth_In; exact Hlt).
    apply (Permutation_in _ (sorted_values_perm _)) in Hin.
    apply in_map_iff in Hin. destruct Hin as (d & <- & _).
    apply pow2_ge_0.
  - rewrite nth_overflow by exact Hge. lra.
Qed.

Lemma exp_nonpos (y : R) : y <= 0 -> exp y <= 1.
Proof.
  intros [Hy| ->].
  - left. rewrite <- exp_0. apply exp_increasing. exact Hy.
  - rewrite exp_0. lra.
Qed.

Lemma kernel_dense_bounds (D : list (list R)) (k i j : nat) :
  0 <= Gauss.kernel_dense D k i j <= 1.
Proof.
  unfold Gauss.kernel_dense. cbv zeta.
  pose proof (sigma_sq_dense_nonneg D k i) as Hi.
  pose proof (sigma_sq_dense_nonneg D k j) as Hj.
  set (si := Gauss.sigma_sq_dense D k i) in *.
  set (sj := Gauss.sigma_sq_dense D k j) in *.
  set (d := nth j (nth i D []) 0).
  assert (Ha : 0 <= sqrt si) by apply sqrt_pos.
  assert (Hb : 0 <= sqrt sj) by apply sqrt_pos.
  assert (Haa : sqrt si * sqrt si = si) by (apply sqrt_sqrt; exact Hi).
  assert (Hbb : sqrt sj * sqrt sj = sj) by (apply sqrt_sqrt; exact Hj).
  assert (Hd : 0 <= d ^ 2) by apply pow2_ge_0.
  assert (Hx : 0 <= 2 * (sqrt si * sqrt sj) / (si + sj) <= 1
               /\ - d ^ 2 / (si + sj) <= 0).
  { destruct (Rle_lt_or_eq_dec 0 (si + sj)) as [Hpos|Hz]; [lra| |].
    - assert (Hinv : 0 < / (si + sj)) by (apply Rinv_0_lt_compat; exact Hpos).
      assert (Hab : 0 <= sqrt si * sqrt sj) by (apply Rmult_le_pos; assumption).
      split; [split|].
      + unfold Rdiv. apply Rmult_le_pos; lra.
      + apply (Rmult_le_reg_r (si + sj)); [exact Hpos|].
        unfold Rdiv. rewrite Rmult_assoc, Rinv_l by lra.
        assert (0 <= (sqrt si - sqrt sj) * (sqrt si - sqrt sj))
          by (apply Rle_0_sqr).
        nra.
      + unfold Rdiv.
        assert (0 <= d ^ 2 * / (si + sj)) by (apply Rmult_le_pos; lra).
        lra.
    - rewrite <- Hz. unfold Rdiv. rewrite Rinv_0. lra. }
  destruct Hx as [[Hx0 Hx1] Hy].
  assert (Hs0 : 0 <= sqrt (2 * (sqrt si * sqrt sj) / (si + sj)))
    by apply sqrt_pos.
  assert (Hs1 : sqrt (2 * (sqrt si * sqrt sj) / (si + sj)) <= 1).
  { rewrite <- sqrt_1. apply sqrt_le_1; lra. }
  assert (He0 : 0 < exp (- d ^ 2 / (si + sj))) by apply exp_pos.
  assert (He1 : exp (- d ^ 2 / (si + sj)) <= 1) by (apply exp_nonpos; exact Hy).
  split; [apply Rmult_le_pos; lra|].
  nra.
Qed.

Lemma cut_bounds (w : R) : 0 <= w <= 1 -> 0 <= Gauss.cut w <= 1.
Proof.
  intros Hw. unfold Gauss.cut. destruct (Rltb (/ 10 ^ 14) w); lra.
Qed.

(** X7.  Without [knn], for a square array of distances on [n]
    observations and [2 <= n_neighbors <= n], every entry of the array the
    Gauss kernel returns lies between 0 and 1. *)
Theorem X7_dense_gauss_connectivities_lie_in_the_unit_interval
    (D : list (list R)) (k n : nat) :
  Transitions.is_square n D = true ->
  (2 <= k)%nat -> (k <= n)%nat ->
  exists W,
    Gauss._compute_connectivities_diffmap false (Dense D) k = Ok (Dense W)
    /\ forall i j, (i < n)%nat -> (j < n)%nat ->
         0 <= Transitions.get W i j <= 1.
Proof.
  intros Hsq Hk2 Hkn.
  destruct (@gauss_dense_closed D k n Hsq Hk2 Hkn) as (W & HW & _ & Hget).
  exists W. cbn [Gauss._compute_connectivities_diffmap].
  rewrite HW. cbn [bind]. split; [reflexivity|].
  intros i j Hi Hj. rewrite (Hget i j Hi Hj).
  apply cut_bounds, kernel_dense_bounds.
Qed.

Lemma X7_witness :
  exists W,
    Gauss._compute_connectivities_diffmap false (Dense Examples.line3) 2
    = Ok (Dense W)
    /\ forall i j, (i < 3)%nat -> (j < 3)%nat ->
         0 <= Transitions.get W i j <= 1.
Proof.
  apply (@X7_dense_gauss_connectivities_lie_in_the_unit_interval
           Examples.line3 2 3).
  - exact line3_square.
  - lia.
  - lia.
Defined.

(** * Root selection: bounds *)

Lemma scan_root_range (xroot : list R) (rows : list (list R)) :
  forall (i : nat) (D : R) (r : nat),
    Dpt.scan_root xroot rows i D r = r
    \/ (i <= Dpt.scan_root xroot rows i D r < i + List.length rows)%nat.
Proof.
  induction rows as [|x rest IH]; intros i D r; cbn [Dpt.scan_root].
  - left. reflexivity.
  - cbn [List.length].
    destruct (Rltb (Dpt.dsq_to xroot x) D).
    + destruct (Rltb (sqrt (Dpt.dsq_to xroot x)) (/ 10 ^ 10)).
      * right. lia.
      * destruct (IH (S i) (Dpt.dsq_to xroot x) i) as [->|H]; right; lia.
    + destruct (IH (S i) D r) as [->|H]; [left; reflexivity | right; lia].
Qed.

Lemma scan_root_far (xroot : list R) (rows : list (list R)) :
  forall (i : nat) (D : R) (r : nat),
    (forall y, In y rows -> D <= Dpt.dsq_to xroot y) ->
    Dpt.scan_root xroot rows i D r = r.
Proof.
  induction rows as [|x rest IH]; intros i D r H; cbn [Dpt.scan_root].
  - reflexivity.
  - rewrite Rltb_false by (apply H; left; reflexivity).
    apply IH. intros y Hy. apply H. right. exact Hy.
Qed.

(** X8.  With a reference vector of the right size and at least one
    observation, [_set_iroot_via_xroot] returns the index of an
    observation. *)
Theorem X8_root_index_is_an_observation (s : Dpt.state) (xroot : list R) :
  Dpt.n_vars s = List.length xroot ->
  Dpt.X s <> [] ->
  exists r,
    Dpt._set_iroot_via_xroot s xroot = Ok r
    /\ (r < List.length (Dpt.X s))%nat.
Proof.
  intros Hsize Hne. unfold Dpt._set_iroot_via_xroot.
  rewrite Hsize, Nat.eqb_refl. cbn [negb].
  eexists. split; [reflexivity|].
  assert (0 < List.length (Dpt.X s))%nat
    by (destruct (Dpt.X s); [contradiction | cbn; lia]).
  destruct (scan_root_range xroot (Dpt.X s) 0 (10 ^ 10) 0) as [->|Hr]; lia.
Qed.

Lemma X8_witness :
  exists r,
    Dpt._set_iroot_via_xroot Examples.close_pair [0] = Ok r
    /\ (r < List.length (Dpt.X Examples.close_pair))%nat.
Proof.
  apply (@X8_root_index_is_an_observation Examples.close_pair [0]).
  - reflexivity.
  - discriminate.
Defined.

(** X9.  With a reference vector of the right size, when no observation
    has a squared distance below [1e10] to it, [_set_iroot_via_xroot]
    returns 0, whichever observation is nearest: the running minimum starts
    at [1e10]. *)
Theorem X9_root_is_zero_when_all_are_far (s : Dpt.state) (xroot : list R) :
  Dpt.n_vars s = List.length xroot ->
  (forall y, In y (Dpt.X s) -> 10 ^ 10 <= Dpt.dsq_to xroot y) ->
  Dpt._set_iroot_via_xroot s xroot = Ok 0%nat.
Proof.
  intros Hsize Hfar. unfold Dpt._set_iroot_via_xroot.
  rewrite Hsize, Nat.eqb_refl. cbn [negb]. f_equal.
  apply scan_root_far. exact Hfar.
Qed.

Lemma X9_witness :
  Dpt._set_iroot_via_xroot Examples.far_points [0] = Ok 0%nat
  /\ Dpt.dsq_to [0] [2 * 10 ^ 5] < Dpt.dsq_to [0] [10 ^ 6].
Proof.
  split.
  - apply (@X9_root_is_zero_when_all_are_far Examples.far_points [0]).
    + reflexivity.
    + intros y [<-|[<-|[]]]; unfold Dpt.dsq_to, Rsum; cbn; lra.
  - unfold Dpt.dsq_to, Rsum; cbn; lra.
Defined.

(** * Diffusion pseudotime without a spectrum *)

(** X10.  With no eigenvalue and at most one connected component,
    [_get_dpt_row] returns the scalar 0 for every index, within the
    observations or not: Python's [sum] of no array is the integer 0.
    [_set_pseudotime] then divides 0 by its maximum 0 and stores [nan]. *)
Theorem X10_dpt_row_without_spectrum_is_a_scalar (s : Dpt.state) :
  Dpt.eigen_values s = [] ->
  (Dpt.number_connected_components s <= 1)%nat ->
  (forall i, Dpt._get_dpt_row s i = Ok (Dpt.Scalar (Fin 0)))
  /\ (forall r, Dpt.iroot s = Some r ->
        Dpt._set_pseudotime s = Ok (Dpt.Scalar NaN)).
Proof.
  intros Hev Hcc.
  assert (Hrow : forall i, Dpt._get_dpt_row s i = Ok (Dpt.Scalar (Fin 0))).
  { intros i. unfold Dpt._get_dpt_row.
    replace (Nat.ltb 1 (Dpt.number_connected_components s)) with false
      by (symmetry; apply Nat.ltb_ge; exact Hcc).
    cbn [bind].
    unfold Dpt.decaying_terms, Dpt.stationary_terms,
      Dpt.decaying_components, Dpt.stationary_components.
    rewrite Hev. cbn [List.length seq filter mapM bind Dpt.py_sum Dpt.py_iadd].
    unfold xsqrt. rewrite Rltb_false by lra. rewrite sqrt_0. reflexivity. }
  split; [exact Hrow|].
  intros r Hr. unfold Dpt._set_pseudotime, Dpt.distances_dpt_getitem.
  rewrite Hr, Hrow. cbn [bind Dpt.finite_entries flat_map lt_inf finite_part
    app Dpt.np_max fold_left].
  unfold xdiv. rewrite !Reqb_true by reflexivity. reflexivity.
Qed.

Lemma X10_witness :
  (forall i, Dpt._get_dpt_row Examples.no_spectrum i = Ok (Dpt.Scalar (Fin 0)))
  /\ (forall r, Dpt.iroot Examples.no_spectrum = Some r ->
        Dpt._set_pseudotime Examples.no_spectrum = Ok (Dpt.Scalar NaN)).
Proof.
  apply (@X10_dpt_row_without_spectrum_is_a_scalar Examples.no_spectrum).
  - reflexivity.
  - cbn. lia.
Defined.

(** * The row cache of [OnFlySymMatrix] *)

Section OnFly.

Variable A : Type.

Notation t := (OnFlySymMatrix.t A).
Notation store := (OnFlySymMatrix.store A).

Lemma dict_get_set (d : OnFlySymMatrix.dict A) (k : Z) (v : list A) :
  OnFlySymMatrix.dict_get (OnFlySymMatrix.dict_set d k v) k = Some v.
Proof.
  unfold OnFlySymMatrix.dict_set. cbn [OnFlySymMatrix.dict_get].
  rewrite Z.eqb_refl. reflexivity.
Qed.

Lemma cell_set_cell (st : store) (r : nat) (d : OnFlySymMatrix.dict A) :
  (r < List.length st)%nat ->
  OnFlySymMatrix.cell (OnFlySymMatrix.set_cell st r d) r = d.
Proof.
  intros Hr. unfold OnFlySymMatrix.cell, OnFlySymMatrix.set_cell.
  rewrite app_nth2 by (rewrite length_firstn; lia).
  rewrite length_firstn.
  replace (r - Nat.min r (List.length st))%nat with 0%nat by lia.
  reflexivity.
Qed.

Lemma length_set_cell (st : store) (r : nat) (d : OnFlySymMatrix.dict A) :
  (r < List.length st)%nat ->
  List.length (OnFlySymMatrix.set_cell st r d) = List.length st.
Proof.
  intros Hr. unfold OnFlySymMatrix.set_cell.
  rewrite length_app, length_firstn. cbn [List.length].
  rewrite length_skipn. lia.
Qed.

(** After a read that returned, the row is in the dict. *)
Lemma cached_row_stored (o : t) (g : Z) (st st1 : store) (row : list A) :
  (OnFlySymMatrix.rows o < List.length st)%nat ->
  OnFlySymMatrix.cached_row o g st = (Ok row, st1) ->
  OnFlySymMatrix.dict_get (OnFlySymMatrix.cell st1 (OnFlySymMatrix.rows o)) g
  = Some row
  /\ List.length st1 = List.length st.
Proof.
  intros Hr H. unfold OnFlySymMatrix.cached_row in H.
  destruct (OnFlySymMatrix.dict_get
              (OnFlySymMatrix.cell st (OnFlySymMatrix.rows o)) g)
    as [row0|] eqn:Hget.
  - injection H as <- <-. split; [exact Hget | reflexivity].
  - destruct (OnFlySymMatrix.get_row o g) as [row0|e]; [|discriminate].
    injection H as <- <-.
    rewrite cell_set_cell by exact Hr. rewrite dict_get_set.
    split; [reflexivity | apply length_set_cell; exact Hr].
Qed.

(** A row in the dict is returned as it is, and nothing changes. *)
Lemma cached_row_hit (o : t) (g : Z) (st : store) (row : list A) :
  OnFlySymMatrix.dict_get (OnFlySymMatrix.cell st (OnFlySymMatrix.rows o)) g
  = Some row ->
  OnFlySymMatrix.cached_row o g st = (Ok row, st).
Proof.
  intros H. unfold OnFlySymMatrix.cached_row. rewrite H. reflexivity.
Qed.

(** X11.  Once [m[index]] has returned, reading the same index again,
    through the same object or through any object that shares its dict of
    rows and its restriction, returns the same value and leaves the store
    as it is, whatever [get_row] that object holds: the row is not computed
    a second time. *)
Theorem X11_a_row_is_computed_once
    (o o' : t) (index : OnFlySymMatrix.index_arg) (st st1 : store)
    (v : OnFlySymMatrix.item A) :
  (OnFlySymMatrix.rows o < List.length st)%nat ->
  OnFlySymMatrix.rows o' = OnFlySymMatrix.rows o ->
  OnFlySymMatrix.restrict_array o' = OnFlySymMatrix.restrict_array o ->
  OnFlySymMatrix.__getitem__ o index st = (Ok v, st1) ->
  OnFlySymMatrix.__getitem__ o' index st1 = (Ok v, st1).
Proof.
  intros Hr Hrows Hres H.
  unfold OnFlySymMatrix.__getitem__ in *. rewrite Hres.
  destruct index as [i|i j].
  - destruct (match OnFlySymMatrix.restrict_array o with
              | Some a => index_z a i
              | None => Ok i
              end) as [g|e]; [|discriminate].
    destruct (OnFlySymMatrix.cached_row o g st) as [[row|e] st'] eqn:Hc;
      [|discriminate].
    destruct (@cached_row_stored o g st st' row Hr Hc) as [Hget _].
    assert (st' = st1) as ->
      by (destruct (OnFlySymMatrix.restrict_array o); injection H; auto).
    rewrite <- Hrows in Hget. rewrite (@cached_row_hit o' g st1 row Hget).
    exact H.
  - destruct (match OnFlySymMatrix.restrict_array o with
              | Some a => g0 <- index_z a i ;; g1 <- index_z a j ;; Ok (g0, g1)
              | None => Ok (i, j)
              end) as [[g0 g1]|e]; [|discriminate].
    destruct (OnFlySymMatrix.cached_row o g0 st) as [[row|e] st'] eqn:Hc;
      [|discriminate].
    destruct (@cached_row_stored o g0 st st' row Hr Hc) as [Hget _].
    assert (st' = st1) as -> by (injection H; auto).
    rewrite <- Hrows in Hget. rewrite (@cached_row_hit o' g0 st1 row Hget).
    exact H.
Qed.

Lemma mapM_index_z {B : Type} (f : Z -> result B) (a : list Z)
    (r : list B) (j : Z) (x : B) :
  mapM f a = Ok r -> index_z r j = Ok x ->
  exists y, index_z a j = Ok y /\ f y = Ok x.
Proof.
  intros Hm Hx. destruct (mapM_nth _ _ Hm) as [Hlen Hnth].
  assert (Hpos : forall p, index r p = Ok x ->
            exists y, index a p = Ok y /\ f y = Ok x).
  { intros p Hp. unfold index in *.
    destruct (nth_error r p) as [x'|] eqn:Hr; [|discriminate].
    injection Hp as ->.
    assert (Hlt : (p < List.length a)%nat).
    { rewrite <- Hlen. apply nth_error_Some. rewrite Hr. discriminate. }
    destruct (nth_error a p) as [y|] eqn:Ha.
    - destruct (Hnth p y Ha) as (b & Hb & Hf).
      rewrite Hr in Hb. injection Hb as <-.
      exists y. split; [reflexivity | exact Hf].
    - apply nth_error_None in Ha. lia. }
  unfold index_z in *. rewrite Hlen in Hx.
  destruct (0 <=? j)%Z; [apply Hpos; exact Hx|].
  destruct (- Z.of_nat (List.length a) <=? j)%Z; [|discriminate].
  apply Hpos. exact Hx.
Qed.

(** X12.  When [m[i]] returns the row [r] and [r[j]] is the entry [x],
    [m[i, j]] returns [x] and leaves the store in the same state, with or
    without a restriction. *)
Theorem X12_an_entry_is_read_from_its_row
    (o : t) (i j : Z) (st st1 : store) (r : list A) (x : A) :
  OnFlySymMatrix.__getitem__ o (OnFlySymMatrix.Int i) st
  = (Ok (OnFlySymMatrix.Row r), st1) ->
  index_z r j = Ok x ->
  OnFlySymMatrix.__getitem__ o (OnFlySymMatrix.Pair i j) st
  = (Ok (OnFlySymMatrix.Entry x), st1).
Proof.
  intros H Hx. unfold OnFlySymMatrix.__getitem__ in *.
  destruct (OnFlySymMatrix.restrict_array o) as [a|].
  - destruct (index_z a i) as [g|e] eqn:Hg; [|discriminate].
    destruct (OnFlySymMatrix.cached_row o g st) as [[row|e] st'] eqn:Hc;
      [|discriminate].
    destruct (mapM (index_z row) a) as [r'|e] eqn:Hm; [|discriminate].
    cbn [bind] in H. injection H as <- <-.
    destruct (mapM_index_z _ _ _ Hm Hx) as (g1 & Hg1 & Hrow).
    rewrite Hg1. cbn [bind]. rewrite Hc, Hrow. reflexivity.
  - destruct (OnFlySymMatrix.cached_row o i st) as [[row|e] st'] eqn:Hc;
      [|discriminate].
    injection H as <- <-. rewrite Hx. reflexivity.
Qed.

(** X13.  A row read through a restricted view is kept in the dict of the
    matrix the view was made from: reading that row from the matrix, or
    from any unrestricted object on the same dict, then returns it without
    a call of [get_row], and what the view returned is that row taken at
    the indices of the restriction. *)
Theorem X13_a_view_fills_the_dict_of_its_matrix
    (o view : t) (a : list Z) (i g : Z) (st st1 st2 : store)
    (v : OnFlySymMatrix.item A) :
  (OnFlySymMatrix.rows o < List.length st)%nat ->
  OnFlySymMatrix.restrict o a st = (view, st1) ->
  index_z a i = Ok g ->
  OnFlySymMatrix.__getitem__ view (OnFlySymMatrix.Int i) st1 = (Ok v, st2) ->
  exists row r,
    v = OnFlySymMatrix.Row r
    /\ mapM (index_z row) a = Ok r
    /\ forall o' : t,
         OnFlySymMatrix.rows o' = OnFlySymMatrix.rows o ->
         OnFlySymMatrix.restrict_array o' = None ->
         OnFlySymMatrix.__getitem__ o' (OnFlySymMatrix.Int g) st2
         = (Ok (OnFlySymMatrix.Row row), st2).
Proof.
  intros Hr Hview Hg H.
  unfold OnFlySymMatrix.restrict, OnFlySymMatrix.__init__ in Hview.
  injection Hview as <- <-.
  unfold OnFlySymMatrix.__getitem__ in H.
  cbn [OnFlySymMatrix.restrict_array] in H. rewrite Hg in H.
  match type of H with
  | context [OnFlySymMatrix.cached_row ?w g st] =>
      destruct (OnFlySymMatrix.cached_row w g st) as [[row|e] st'] eqn:Hc;
        [|discriminate];
      destruct (@cached_row_stored w g st st' row Hr Hc) as [Hget _]
  end.
  destruct (mapM (index_z row) a) as [r|e] eqn:Hm; [|discriminate].
  cbn [bind] in H. injection H as <- <-.
  exists row, r. split; [reflexivity|]. split; [exact Hm|].
  intros o' Hrows Hnone. unfold OnFlySymMatrix.__getitem__.
  rewrite Hnone. cbn [OnFlySymMatrix.rows] in Hget.
  rewrite <- Hrows in Hget.
  rewrite (@cached_row_hit o' g st' row Hget). reflexivity.
Qed.

End OnFly.

Lemma X11_witness :
  exists v st1,
    OnFlySymMatrix.__getitem__ Examples.on_fly (OnFlySymMatrix.Int 1)
                               Examples.on_fly_store = (Ok v, st1)
    /\ OnFlySymMatrix.__getitem__ Examples.on_fly (OnFlySymMatrix.Int 1) st1
       = (Ok v, st1).
Proof.
  do 2 eexists. split; [reflexivity|].
  apply (@X11_a_row_is_computed_once R Examples.on_fly Examples.on_fly
           (OnFlySymMatrix.Int 1) Examples.on_fly_store).
  - cbn. lia.
  - reflexivity.
  - reflexivity.
  - reflexivity.
Defined.

Lemma X12_witness :
  exists st1,
    OnFlySymMatrix.__getitem__ Examples.on_fly (OnFlySymMatrix.Pair 1 2)
                               Examples.on_fly_store
    = (Ok (OnFlySymMatrix.Entry (IZR 1 + 2)), st1).
Proof.
  eexists.
  apply (@X12_an_entry_is_read_from_its_row R Examples.on_fly 1 2
           Examples.on_fly_store _ [IZR 1; IZR 1 + 1; IZR 1 + 2]).
  - reflexivity.
  - reflexivity.
Defined.

Lemma X13_witness :
  exists row r,
    r = [nth 2 row 0; nth 0 row 0]
    /\ forall o' : OnFlySymMatrix.t R,
         OnFlySymMatrix.rows o' = 0%nat ->
         OnFlySymMatrix.restrict_array o' = None ->
         exists st2,
           OnFlySymMatrix.__getitem__ o' (OnFlySymMatrix.Int 2) st2
           = (Ok (OnFlySymMatrix.Row row), st2).
Proof.
  destruct (@X13_a_view_fills_the_dict_of_its_matrix R Examples.on_fly
              (fst (OnFlySymMatrix.restrict Examples.on_fly [2; 0]%Z
                      Examples.on_fly_store))
              [2; 0]%Z 0 2 Examples.on_fly_store Examples.on_fly_store
              (snd (OnFlySymMatrix.__getitem__
                      (fst (OnFlySymMatrix.restrict Examples.on_fly [2; 0]%Z
                              Examples.on_fly_store))
                      (OnFlySymMatrix.Int 0) Examples.on_fly_store))
              (OnFlySymMatrix.Row [IZR 2 + 2; IZR 2]))
    as (row & r & Hv & Hm & Hshare).
  - cbn. lia.
  - reflexivity.
  - reflexivity.
  - reflexivity.
  - exists [IZR 2; IZR 2 + 1; IZR 2 + 2], [IZR 2 + 2; IZR 2].
    split; [reflexivity|].
    intros o' Hrows Hnone. eexists.
    injection Hv as <-.
    assert (Hrow : row = [IZR 2; IZR 2 + 1; IZR 2 + 2]).
    { specialize (Hshare Examples.on_fly eq_refl eq_refl).
      cbn in Hshare. injection Hshare as <-. reflexivity. }
    rewrite <- Hrow. apply Hshare; assumption.
Defined.

(** * The flattened forest *)

(** Where the arrays of a list sit in their concatenation. *)
Lemma starts_concat {row : Type} (arrays : list (list row)) :
  forall (i : nat) (arr : list row) (s0 : nat),
    nth_error arrays i = Some arr ->
    nth_error (Forest.starts_from s0 (map (@List.length row) arrays)) i
    = Some (s0 + List.length (List.concat (firstn i arrays)))%nat
    /\ skipn (List.length (List.concat (firstn i arrays)))
             (List.concat arrays)
       = arr ++ List.concat (skipn (S i) arrays).
Proof.
  induction arrays as [|a arrays IH]; intros i arr s0 Hi.
  - destruct i; discriminate.
  - destruct i as [|i]; cbn [nth_error] in Hi.
    + injection Hi as ->. cbn. rewrite Nat.add_0_r. auto.
    + destruct (IH i arr (s0 + List.length a)%nat Hi) as [H1 H2].
      cbn [map Forest.starts_from nth_error firstn List.concat skipn].
      rewrite H1, length_app. split; [f_equal; lia|].
      rewrite skipn_app, skipn_all2 by lia.
      replace (List.length a + List.length (List.concat (firstn i arrays))
               - List.length a)%nat
        with (List.length (List.concat (firstn i arrays))) by lia.
      cbn [app]. exact H2.
Qed.

Lemma length_starts_from (s : nat) (l : list nat) :
  List.length (Forest.starts_from s l) = List.length l.
Proof.
  revert s. induction l as [|x l IH]; intros s; cbn; [reflexivity|].
  rewrite IH. reflexivity.
Qed.

Lemma getattr_field {row : Type} (prop : string) :
  In prop Forest.FlatTree_fields ->
  exists proj : Forest.FlatTree row -> list row,
    forall t, Forest.getattr t prop = Ok (proj t).
Proof.
  unfold Forest.FlatTree_fields.
  intros [<-|[<-|[<-|[<-|[]]]]].
  - exists (@Forest.hyperplanes row). reflexivity.
  - exists (@Forest.offsets row). reflexivity.
  - exists (@Forest.children row). reflexivity.
  - exists (@Forest.indices row). reflexivity.
Qed.

Lemma make_forest_dict_get {row : Type} (forest : list (Forest.FlatTree row))
    (prop : string) (proj : Forest.FlatTree row -> list row) :
  forest <> [] ->
  In prop Forest.FlatTree_fields ->
  (forall t, Forest.getattr t prop = Ok (proj t)) ->
  exists d,
    Forest._make_forest_dict forest = Ok d
    /\ Forest.dict_get d prop
       = Ok (Forest.mkFlatProp
               (Forest.starts_from 0
                  (map (@List.length row) (map proj forest)))
               (List.concat (map proj forest))).
Proof.
  intros Hne Hin Hproj. destruct forest as [|t ts]; [contradiction|].
  unfold Forest._make_forest_dict, Forest.FlatTree_fields. cbn [mapM].
  rewrite (@flatten_prop_cons row t ts "hyperplanes"%string
             (@Forest.hyperplanes row)) by reflexivity.
  rewrite (@flatten_prop_cons row t ts "offsets"%string
             (@Forest.offsets row)) by reflexivity.
  rewrite (@flatten_prop_cons row t ts "children"%string
             (@Forest.children row)) by reflexivity.
  rewrite (@flatten_prop_cons row t ts "indices"%string
             (@Forest.indices row)) by reflexivity.
  cbn [bind]. eexists. split; [reflexivity|].
  assert (Hext : forall proj' : Forest.FlatTree row -> list row,
            (forall t', Forest.getattr t' prop = Ok (proj' t')) ->
            map proj' (t :: ts) = map proj (t :: ts)).
  { intros proj' H'. apply map_ext. intros t'.
    specialize (H' t'). rewrite Hproj in H'. injection H' as ->.
    reflexivity. }
  unfold Forest.FlatTree_fields in Hin.
  destruct Hin as [<-|[<-|[<-|[<-|[]]]]].
  - rewrite (Hext (@Forest.hyperplanes row) (fun _ => eq_refl)). reflexivity.
  - rewrite (Hext (@Forest.offsets row) (fun _ => eq_refl)). reflexivity.
  - rewrite (Hext (@Forest.children row) (fun _ => eq_refl)). reflexivity.
  - rewrite (Hext (@Forest.indices row) (fun _ => eq_refl)). reflexivity.
Qed.

(** X14.  In the dictionary [_make_forest_dict] builds from a forest, for
    each of the four properties, [start] has one entry per tree, and the
    array of tree [i] is the part of [data] from [start[i]] over the
    length of that array; it ends where [start[i + 1]] begins or, for the
    last tree, where [data] ends. *)
Theorem X14_flattened_forest_holds_each_tree_between_its_starts
    {row : Type} (forest : list (Forest.FlatTree row)) (prop : string)
    (i : nat) (tree : Forest.FlatTree row) :
  In prop Forest.FlatTree_fields ->
  nth_error forest i = Some tree ->
  exists d p arr s,
    Forest._make_forest_dict forest = Ok d
    /\ Forest.dict_get d prop = Ok p
    /\ Forest.getattr tree prop = Ok arr
    /\ List.length (Forest.start p) = List.length forest
    /\ nth_error (Forest.start p) i = Some s
    /\ slice (Forest.data p) s (s + List.length arr) = arr
    /\ (if Nat.ltb (S i) (List.length forest)
        then nth_error (Forest.start p) (S i) = Some (s + List.length arr)%nat
        else slice_from (Forest.data p) s = arr).
Proof.
  intros Hin Hi.
  assert (Hne : forest <> []) by (intros ->; destruct i; discriminate).
  destruct (@getattr_field row prop Hin) as (proj & Hproj).
  destruct (@make_forest_dict_get row forest prop proj Hne Hin Hproj)
    as (d & Hd & Hget).
  assert (Harr : nth_error (map proj forest) i = Some (proj tree))
    by (rewrite nth_error_map, Hi; reflexivity).
  destruct (@starts_concat row (map proj forest) i (proj tree) 0%nat Harr)
    as [Hs Hskip].
  cbn [Nat.add] in Hs.
  set (s := List.length (List.concat (firstn i (map proj forest)))) in *.
  exists d,
    (Forest.mkFlatProp
       (Forest.starts_from 0 (map (@List.length row) (map proj forest)))
       (List.concat (map proj forest))),
    (proj tree), s.
  split; [exact Hd|]. split; [exact Hget|]. split; [apply Hproj|].
  cbn [Forest.start Forest.data].
  split; [rewrite length_starts_from, !length_map; reflexivity|].
  split; [exact Hs|]. split.
  - unfold slice. rewrite Hskip.
    replace (s + List.length (proj tree) - s)%nat
      with (List.length (proj tree)) by lia.
    rewrite firstn_app, firstn_all, Nat.sub_diag. cbn [firstn].
    apply app_nil_r.
  - destruct (Nat.ltb (S i) (List.length forest)) eqn:Hlt.
    + apply Nat.ltb_lt in Hlt.
      destruct (nth_error forest (S i)) as [t'|] eqn:Ht'.
      2:{ apply nth_error_None in Ht'. lia. }
      assert (Harr' : nth_error (map proj forest) (S i) = Some (proj t'))
        by (rewrite nth_error_map, Ht'; reflexivity).
      destruct (@starts_concat row (map proj forest) (S i) (proj t') 0%nat
                  Harr') as [Hs' _].
      rewrite Hs'. f_equal. cbn [Nat.add].
      rewrite <- (firstn_skipn i (firstn (S i) (map proj forest))).
      rewrite firstn_firstn, Nat.min_l by lia.
      rewrite concat_app, length_app. fold s. f_equal.
      assert (Hone : skipn i (firstn (S i) (map proj forest))
                     = [proj tree]).
      { clear - Harr. revert i Harr.
        induction (map proj forest) as [|a l IH]; intros [|i] H;
          try discriminate.
        - injection H as ->. reflexivity.
        - cbn [firstn skipn]. apply IH. exact H. }
      rewrite Hone. cbn. rewrite app_nil_r. reflexivity.
    + apply Nat.ltb_ge in Hlt. unfold slice_from. rewrite Hskip.
      rewrite skipn_all2 by (rewrite length_map; lia).
      apply app_nil_r.
Qed.

Lemma X14_witness :
  exists d p arr s,
    Forest._make_forest_dict Examples.forest2 = Ok d
    /\ Forest.dict_get d "children" = Ok p
    /\ arr = [11]%nat
    /\ nth_error (Forest.start p) 1 = Some s
    /\ slice (Forest.data p) s (s + 1) = arr.
Proof.
  destruct (@X14_flattened_forest_holds_each_tree_between_its_starts
              nat Examples.forest2 "children" 1
              (Forest.mkFlatTree [8]%nat [9; 10]%nat [11]%nat [12; 13]%nat))
    as (d & p & arr & s & Hd & Hp & Harr & _ & Hs & Hslice & _).
  - unfold Forest.FlatTree_fields. cbn. auto.
  - reflexivity.
  - injection Harr as <-.
    exists d, p, [11]%nat, s. auto.
Defined.

(** * Reading the sparse distance matrix back *)

Lemma row_get_cons (e : nat * R) (l : list (nat * R)) (c : nat) :
  row_get (e :: l) c
  = (if Nat.eqb (fst e) c then snd e else 0) + row_get l c.
Proof.
  unfold row_get. cbn [filter].
  destruct (Nat.eqb (fst e) c); cbn [map].
  - apply Rsum_cons.
  - lra.
Qed.

Lemma row_get_nil (c : nat) : row_get [] c = 0.
Proof. reflexivity. Qed.

Lemma row_get_insert_entry (e : nat * R) (acc : list (nat * R)) (c : nat) :
  row_get (insert_entry e acc) c
  = row_get acc c + (if Nat.eqb (fst e) c then snd e else 0).
Proof.
  induction acc as [|e' acc IH]; cbn [insert_entry].
  - rewrite row_get_cons, row_get_nil. lra.
  - destruct (Nat.ltb (fst e) (fst e')).
    + rewrite !row_get_cons. lra.
    + destruct (Nat.eqb (fst e) (fst e')) eqn:E.
      * apply Nat.eqb_eq in E. rewrite !row_get_cons. cbn [fst snd].
        rewrite E. destruct (Nat.eqb (fst e') c); lra.
      * rewrite !row_get_cons, IH. lra.
Qed.

(** Adding up duplicates does not change what [M[i, c]] reads. *)
Lemma row_get_sum_duplicates (row : list (nat * R)) (c : nat) :
  row_get (sum_duplicates row) c = row_get row c.
Proof.
  unfold sum_duplicates.
  assert (H : forall acc,
            row_get (fold_left (fun a e => insert_entry e a) row acc) c
            = row_get acc c + row_get row c).
  { induction row as [|e row IH]; intros acc; cbn [fold_left].
    - rewrite row_get_nil. lra.
    - rewrite IH, row_get_insert_entry, row_get_cons. lra. }
  rewrite H, row_get_nil. lra.
Qed.

Lemma Rsum_map_filter {B : Type} (f : B -> R) (p : B -> bool) (l : list B) :
  Rsum (map f (filter p l)) = Rsum (map (fun x => if p x then f x else 0) l).
Proof.
  induction l as [|x l IH]; [reflexivity|].
  cbn [filter map]. rewrite Rsum_cons.
  destruct (p x); cbn [map]; [rewrite Rsum_cons|]; rewrite IH; lra.
Qed.

Lemma row_get_as_sum (l : list (nat * R)) (c : nat) :
  row_get l c = Rsum (map (fun e => if Nat.eqb (fst e) c then snd e else 0) l).
Proof.
  induction l as [|e l IH].
  - reflexivity.
  - rewrite row_get_cons. cbn [map]. rewrite Rsum_cons, IH. reflexivity.
Qed.

Lemma Rsum_map_ext_in {B : Type} (f g : B -> R) (l : list B) :
  (forall x, In x l -> f x = g x) -> Rsum (map f l) = Rsum (map g l).
Proof. intros H. f_equal. apply map_ext_in. exact H. Qed.

Lemma Rsum_app (l1 l2 : list R) : Rsum (l1 ++ l2) = Rsum l1 + Rsum l2.
Proof.
  induction l1 as [|x l1 IH]; cbn [app].
  - rewrite Rsum_nil. lra.
  - rewrite !Rsum_cons, IH. lra.
Qed.

Lemma Rsum_map_concat {B : Type} (f : B -> R) (ls : list (list B)) :
  Rsum (map f (List.concat ls)) = Rsum (map (fun l => Rsum (map f l)) ls).
Proof.
  induction ls as [|l ls IH]; [reflexivity|].
  cbn [List.concat map]. rewrite map_app, Rsum_app, Rsum_cons, IH.
  reflexivity.
Qed.

(** What [M[i, c]] reads in the CSR form of a COO matrix: the sum of the
    entries at [(i, c)]. *)
Lemma tocsr_get (entries : SparseBuilder.coo) (n_obs i c : nat) :
  (i < n_obs)%nat ->
  csr_get (SparseBuilder.tocsr (SparseBuilder.coo_eliminate_zeros entries)
                               n_obs) i c
  = Rsum (map (fun e => if Nat.eqb (fst (fst e)) i
                           && Nat.eqb (Z.to_nat (snd (fst e))) c
                        then snd e else 0) entries).
Proof.
  intros Hi. unfold csr_get, SparseBuilder.tocsr. cbn [csr_rows].
  rewrite (@nth_map_seq _ _ n_obs i [] Hi).
  rewrite row_get_sum_duplicates, row_get_as_sum, map_map. cbn [fst snd].
  rewrite Rsum_map_filter.
  unfold SparseBuilder.coo_eliminate_zeros. rewrite Rsum_map_filter.
  apply Rsum_map_ext_in. intros [[r col] v] _. cbn [fst snd].
  destruct (Reqb v 0) eqn:E; cbn [negb].
  - apply Reqb_spec in E. subst v.
    destruct (Nat.eqb r i && Nat.eqb (Z.to_nat col) c); reflexivity.
  - destruct (Nat.eqb r i); cbn [andb]; reflexivity.
Qed.

Section UmapLookup.

Variables (knn_indices : list (list Z)) (knn_dists : list (list R)).
Variables (n_obs n_neighbors : nat).

Hypothesis Hrows_i : List.length knn_indices = n_obs.
Hypothesis Hcols_i :
  Forall (fun r => List.length r = n_neighbors) knn_indices.
Hypothesis Hrows_d : List.length knn_dists = n_obs.
Hypothesis Hcols_d : Forall (fun r => List.length r = n_neighbors) knn_dists.
Hypothesis Hrange :
  Forall (Forall (fun c => (-1 <= c < Z.of_nat n_obs)%Z)) knn_indices.

Lemma index_in_range (i j : nat) :
  (i < n_obs)%nat -> (j < n_neighbors)%nat ->
  (-1 <= nth j (nth i knn_indices []) 0 < Z.of_nat n_obs)%Z.
Proof.
  intros Hi Hj.
  assert (Hrow : In (nth i knn_indices []) knn_indices)
    by (apply nth_In; lia).
  rewrite Forall_forall in Hcols_i, Hrange.
  pose proof (Hrange _ Hrow) as Hr. rewrite Forall_forall in Hr.
  apply Hr, nth_In. rewrite (Hcols_i _ Hrow). exact Hj.
Qed.

Lemma slot_is_closed (i j : nat) :
  (i < n_obs)%nat -> (j < n_neighbors)%nat ->
  SparseBuilder.slot knn_indices knn_dists n_obs i j
  = Ok (SparseBuilder.slot_closed knn_indices knn_dists i j).
Proof.
  intros Hi Hj. unfold SparseBuilder.slot, SparseBuilder.slot_closed.
  rewrite (@index_nth _ knn_indices i []) by lia. cbn [bind].
  assert (Hrow : In (nth i knn_indices []) knn_indices)
    by (apply nth_In; lia).
  rewrite Forall_forall in Hcols_i, Hcols_d.
  rewrite (@index_nth _ (nth i knn_indices []) j 0%Z)
    by (rewrite (Hcols_i _ Hrow); exact Hj).
  cbn [bind]. cbv zeta.
  destruct (Z.eqb (nth j (nth i knn_indices []) 0%Z) (-1)); [reflexivity|].
  assert (Hleb : Nat.leb n_obs i = false) by (apply Nat.leb_gt; exact Hi).
  destruct (Z.eqb (nth j (nth i knn_indices []) 0%Z) (Z.of_nat i)).
  - cbn [bind]. rewrite Hleb. reflexivity.
  - assert (Hdrow : In (nth i knn_dists []) knn_dists)
      by (apply nth_In; lia).
    rewrite (@index_nth _ knn_dists i []) by lia. cbn [bind].
    rewrite (@index_nth _ (nth i knn_dists []) j 0)
      by (rewrite (Hcols_d _ Hdrow); exact Hj).
    cbn [bind]. rewrite Hleb. reflexivity.
Qed.

Lemma slots_closed :
  SparseBuilder.slots knn_indices knn_dists n_obs n_neighbors
  = Ok (List.concat
          (map (fun i => map (SparseBuilder.slot_closed knn_indices
                                knn_dists i) (seq 0 n_neighbors))
               (seq 0 n_obs))).
Proof.
  unfold SparseBuilder.slots. rewrite Hrows_i.
  rewrite (@mapM_ok _ _ _
             (fun i => map (SparseBuilder.slot_closed knn_indices
                              knn_dists i) (seq 0 n_neighbors))).
  - cbn [bind]. rewrite Nat.sub_diag. cbn [Nat.mul repeat].
    rewrite app_nil_r. reflexivity.
  - intros i Hi. apply in_seq in Hi. apply mapM_ok.
    intros j Hj. apply in_seq in Hj. apply slot_is_closed; lia.
Qed.

Lemma slot_closed_in_range (i j : nat) :
  (i < n_obs)%nat -> (j < n_neighbors)%nat ->
  let e := SparseBuilder.slot_closed knn_indices knn_dists i j in
  (fst (fst e) < n_obs)%nat /\ (0 <= snd (fst e) < Z.of_nat n_obs)%Z.
Proof.
  intros Hi Hj. cbv zeta. unfold SparseBuilder.slot_closed.
  pose proof (index_in_range Hi Hj) as Hc.
  destruct (Z.eqb (nth j (nth i knn_indices []) 0%Z) (-1)) eqn:E;
    cbn [fst snd].
  - lia.
  - apply Z.eqb_neq in E. lia.
Qed.

(** The contribution of a slot of row [i'] to the entry [(i, c)]. *)
Lemma slot_contribution (i' j i c : nat) :
  (i' < n_obs)%nat -> (j < n_neighbors)%nat ->
  let e := SparseBuilder.slot_closed knn_indices knn_dists i' j in
  (if Nat.eqb (fst (fst e)) i && Nat.eqb (Z.to_nat (snd (fst e))) c
   then snd e else 0)
  = if Nat.eqb i' i
    then (if (nth j (nth i knn_indices []) 0%Z =? Z.of_nat c)%Z
             && negb (Nat.eqb c i)
          then nth j (nth i knn_dists []) 0 else 0)
    else 0.
Proof.
  intros Hi Hj. cbv zeta. unfold SparseBuilder.slot_closed.
  pose proof (index_in_range Hi Hj) as Hc.
  destruct (Z.eqb (nth j (nth i' knn_indices []) 0%Z) (-1)) eqn:E;
    cbn [fst snd].
  - apply Z.eqb_eq in E.
    destruct (Nat.eqb i' i) eqn:Ei.
    + apply Nat.eqb_eq in Ei. subst i'. rewrite E.
      replace (-1 =? Z.of_nat c)%Z with false
        by (symmetry; apply Z.eqb_neq; lia).
      cbn [andb]. destruct (Nat.eqb 0 i && Nat.eqb (Z.to_nat 0) c);
        reflexivity.
    + destruct (Nat.eqb 0 i && Nat.eqb (Z.to_nat 0) c); reflexivity.
  - apply Z.eqb_neq in E.
    destruct (Nat.eqb i' i) eqn:Ei; cbn [andb]; [|reflexivity].
    apply Nat.eqb_eq in Ei. subst i'.
    set (cij := nth j (nth i knn_indices []) 0%Z) in *.
    destruct (Z.eqb cij (Z.of_nat c)) eqn:Ec.
    + apply Z.eqb_eq in Ec. rewrite Ec, Nat2Z.id, Nat.eqb_refl.
      cbn [andb].
      destruct (Nat.eqb c i) eqn:Eci; cbn [negb].
      * apply Nat.eqb_eq in Eci. subst c. rewrite Z.eqb_refl. reflexivity.
      * apply Nat.eqb_neq in Eci.
        replace (Z.of_nat c =? Z.of_nat i)%Z with false
          by (symmetry; apply Z.eqb_neq; lia).
        reflexivity.
    + apply Z.eqb_neq in Ec.
      replace (Nat.eqb (Z.to_nat cij) c) with false
        by (symmetry; apply Nat.eqb_neq; lia).
      reflexivity.
Qed.

(** The matrix of the umap variant, entry by entry. *)
Lemma umap_matrix_closed :
  exists M,
    SparseBuilder.get_sparse_matrix_from_indices_distances_umap
      knn_indices knn_dists n_obs n_neighbors = Ok M
    /\ forall i c, (i < n_obs)%nat ->
         csr_get M i c
         = SparseBuilder.entry_closed knn_indices knn_dists n_neighbors i c.
Proof.
  unfold SparseBuilder.get_sparse_matrix_from_indices_distances_umap.
  rewrite slots_closed. cbn [bind].
  set (E := List.concat
              (map (fun i => map (SparseBuilder.slot_closed knn_indices
                                    knn_dists i) (seq 0 n_neighbors))
                   (seq 0 n_obs))).
  assert (Hall : forall e, In e E ->
            (fst (fst e) < n_obs)%nat
            /\ (0 <= snd (fst e) < Z.of_nat n_obs)%Z).
  { intros e He. unfold E in He. apply in_concat in He.
    destruct He as (ws & Hws & He).
    apply in_map_iff in Hws. destruct Hws as (i & <- & Hi).
    apply in_map_iff in He. destruct He as (j & <- & Hj).
    apply in_seq in Hi. apply in_seq in Hj.
    apply slot_closed_in_range; lia. }
  unfold SparseBuilder.coo_matrix.
  rewrite !(proj2 (forallb_forall _ _)).
  2:{ intros e He. apply Z.leb_le. apply (Hall e He). }
  2:{ intros e He. apply Z.ltb_lt. apply (Hall e He). }
  2:{ intros e He. apply Nat.ltb_lt. apply (Hall e He). }
  cbn [bind]. eexists. split; [reflexivity|].
  intros i c Hi. rewrite tocsr_get by exact Hi.
  unfold E. rewrite Rsum_map_concat, map_map.
  rewrite (@Rsum_map_ext (seq 0 n_obs) _
             (fun i' => if Nat.eqb i i'
                        then SparseBuilder.entry_closed knn_indices knn_dists
                               n_neighbors i' c
                        else 0)).
  - rewrite Rsum_map_delta; [reflexivity | apply seq_NoDup |].
    apply in_seq. lia.
  - intros i' Hi'. apply in_seq in Hi'. rewrite map_map.
    destruct (Nat.eqb i i') eqn:Ei.
    + apply Nat.eqb_eq in Ei. subst i'.
      unfold SparseBuilder.entry_closed, rsum.
      apply Rsum_map_ext. intros j Hj. apply in_seq in Hj.
      rewrite (@slot_contribution i j i c) by lia.
      rewrite Nat.eqb_refl. reflexivity.
    + apply Rsum_map_zero. intros j Hj. apply in_seq in Hj.
      rewrite (@slot_contribution i' j i c) by lia.
      rewrite Nat.eqb_sym, Ei. reflexivity.
Qed.

End UmapLookup.

(** X15.  For index and distance arrays of shape [(n_obs, n_neighbors)]
    with indices from -1 to [n_obs - 1], the matrix [M] of
    [get_sparse_matrix_from_indices_distances_umap] reads 0 on the diagonal
    and at every column that row [i] of the indices does not list, and
    when that row lists no index twice, [M[i, c]] is the distance stored
    with the neighbour [c] of [i]. *)
Theorem X15_umap_matrix_reads_back_the_neighbour_distances
    (knn_indices : list (list Z)) (knn_dists : list (list R))
    (n_obs n_neighbors : nat) :
  List.length knn_indices = n_obs ->
  Forall (fun r => List.length r = n_neighbors) knn_indices ->
  List.length knn_dists = n_obs ->
  Forall (fun r => List.length r = n_neighbors) knn_dists ->
  Forall (Forall (fun c => (-1 <= c < Z.of_nat n_obs)%Z)) knn_indices ->
  exists M,
    SparseBuilder.get_sparse_matrix_from_indices_distances_umap
      knn_indices knn_dists n_obs n_neighbors = Ok M
    /\ forall i, (i < n_obs)%nat ->
         csr_get M i i = 0
         /\ (forall c, ~ In (Z.of_nat c) (nth i knn_indices []) ->
               csr_get M i c = 0)
         /\ (NoDup (nth i knn_indices []) ->
             forall j c,
               nth_error (nth i knn_indices []) j = Some (Z.of_nat c) ->
               c <> i ->
               csr_get M i c = nth j (nth i knn_dists []) 0).
Proof.
  intros H1 H2 H3 H4 H5.
  destruct (@umap_matrix_closed knn_indices knn_dists n_obs n_neighbors
              H1 H2 H3 H4 H5) as (M & HM & Hget).
  exists M. split; [exact HM|]. intros i Hi.
  assert (Hlen : List.length (nth i knn_indices []) = n_neighbors).
  { rewrite Forall_forall in H2. apply H2, nth_In. lia. }
  split; [|split].
  - rewrite (Hget i i Hi). unfold SparseBuilder.entry_closed, rsum.
    apply Rsum_map_zero. intros j _. rewrite Nat.eqb_refl.
    cbn [negb]. rewrite andb_false_r. reflexivity.
  - intros c Hc. rewrite (Hget i c Hi).
    unfold SparseBuilder.entry_closed, rsum.
    apply Rsum_map_zero. intros j Hj. apply in_seq in Hj.
    replace (nth j (nth i knn_indices []) 0 =? Z.of_nat c)%Z with false;
      [reflexivity|].
    symmetry. apply Z.eqb_neq. intros Heq. apply Hc. rewrite <- Heq.
    apply nth_In. lia.
  - intros Hnd j c Hj Hc. rewrite (Hget i c Hi).
    assert (Hjlt : (j < n_neighbors)%nat).
    { rewrite <- Hlen. apply nth_error_Some. rewrite Hj. discriminate. }
    unfold SparseBuilder.entry_closed.
    rewrite (@rsum_ext n_neighbors _
               (fun j' => if Nat.eqb j j'
                          then nth j' (nth i knn_dists []) 0 else 0)).
    + apply rsum_delta. exact Hjlt.
    + intros j' Hj'.
      replace (negb (Nat.eqb c i)) with true
        by (symmetry; apply negb_true_iff, Nat.eqb_neq; exact Hc).
      rewrite andb_true_r.
      destruct (Nat.eqb j j') eqn:Ej.
      * apply Nat.eqb_eq in Ej. subst j'.
        rewrite (nth_error_nth _ _ 0%Z Hj), Z.eqb_refl. reflexivity.
      * apply Nat.eqb_neq in Ej.
        replace (nth j' (nth i knn_indices []) 0 =? Z.of_nat c)%Z
          with false; [reflexivity|].
        symmetry. apply Z.eqb_neq. intros Heq. apply Ej.
        apply (proj1 (NoDup_nth (nth i knn_indices []) 0%Z) Hnd); try lia.
        rewrite Heq. apply (nth_error_nth _ _ 0%Z Hj).
Qed.

Lemma X15_witness :
  exists M,
    SparseBuilder.get_sparse_matrix_from_indices_distances_umap
      [[0; 1]; [1; 0]]%Z [[0; 1]; [0; 1]] 2 2 = Ok M
    /\ csr_get M 0 0 = 0
    /\ csr_get M 0 1 = 1.
Proof.
  destruct (@X15_umap_matrix_reads_back_the_neighbour_distances
              [[0; 1]; [1; 0]]%Z [[0; 1]; [0; 1]] 2 2)
    as (M & HM & Hget).
  - reflexivity.
  - repeat constructor.
  - reflexivity.
  - repeat constructor.
  - repeat constructor; cbn; lia.
  - exists M. split; [exact HM|].
    destruct (Hget 0%nat) as (Hdiag & _ & Hnb); [lia|].
    split; [exact Hdiag|].
    apply (Hnb ltac:(repeat constructor; cbn; intuition lia) 1%nat 1%nat).
    + reflexivity.
    + lia.
Defined.

(** * The sparse distances of the exact neighbour search *)

Lemma combine_skipn {A B : Type} (l : list A) (l' : list B) (n : nat) :
  skipn n (combine l l') = combine (skipn n l) (skipn n l').
Proof.
  revert l l'. induction n as [|n IH]; intros l l'; [reflexivity|].
  destruct l as [|x l]; [reflexivity|].
  destruct l' as [|y l']; [cbn; destruct (skipn n l); reflexivity|].
  cbn [skipn combine]. apply IH.
Qed.

Lemma slice_combine {A B : Type} (l : list A) (l' : list B) (s e : nat) :
  slice (combine l l') s e = combine (slice l s e) (slice l' s e).
Proof. unfold slice. rewrite combine_skipn, combine_firstn. reflexivity. Qed.

(** Row [i] of an array of rows of length [k], in the raveled array. *)
Lemma slice_concat_uniform {A : Type} (ls : list (list A)) (k i : nat) :
  Forall (fun r => List.length r = k) ls ->
  (i < List.length ls)%nat ->
  slice (List.concat ls) (i * k) ((i + 1) * k) = nth i ls [].
Proof.
  intros H. revert i. induction H as [|r ls Hr _ IH]; intros i Hi.
  - cbn in Hi. lia.
  - unfold slice in *. cbn [List.concat]. destruct i as [|i].
    + cbn [Nat.mul Nat.add skipn nth].
      replace (k + 0 - 0)%nat with (List.length r) by lia.
      rewrite firstn_app, firstn_all, Nat.sub_diag. cbn [firstn].
      apply app_nil_r.
    + cbn [nth List.length] in *.
      rewrite skipn_app.
      rewrite skipn_all2 by (rewrite Hr; lia). cbn [app].
      replace (S i * k - List.length r)%nat with (i * k)%nat
        by (rewrite Hr; lia).
      replace ((S i + 1) * k - S i * k)%nat with ((i + 1) * k - i * k)%nat
        by lia.
      apply IH. lia.
Qed.

Lemma row_get_eliminate_zeros (l : list (nat * R)) (c : nat) :
  row_get (eliminate_zeros_row l) c = row_get l c.
Proof.
  rewrite !row_get_as_sum. unfold eliminate_zeros_row.
  rewrite Rsum_map_filter. apply Rsum_map_ext_in. intros [c' v] _.
  cbn [fst snd]. destruct (Reqb v 0) eqn:E; cbn [negb]; [|reflexivity].
  apply Reqb_spec in E. subst v. destruct (Nat.eqb c' c); reflexivity.
Qed.

Lemma argsort_perm (a : list R) :
  Permutation (argsort a) (seq 0 (List.length a)).
Proof.
  unfold argsort.
  rewrite (Permutation_map snd (sort_keys_perm _)).
  rewrite map_snd_combine by (rewrite length_seq; reflexivity).
  reflexivity.
Qed.

Lemma NoDup_firstn {A : Type} (l : list A) (m : nat) :
  NoDup l -> NoDup (firstn m l).
Proof.
  intros H. revert m. induction H as [|x l Hx _ IH]; intros [|m];
    cbn [firstn]; try constructor.
  - intros Hin. apply Hx. apply (in_firstn m l x Hin).
  - apply IH.
Qed.

Lemma argsort_nodup (a : list R) (m : nat) : NoDup (firstn m (argsort a)).
Proof.
  apply NoDup_firstn.
  apply (Permutation_NoDup (Permutation_sym (argsort_perm a))).
  apply seq_NoDup.
Qed.

(** A row of selected columns and their values reads back the value of a
    selected column, and 0 elsewhere. *)
Lemma row_get_selected (row : list R) (idx : list nat) (c : nat) :
  NoDup idx ->
  row_get (combine idx (take_at 0 row idx)) c
  = if existsb (Nat.eqb c) idx then nth c row 0 else 0.
Proof.
  intros Hnd. unfold take_at. rewrite <- (map_id idx) at 1.
  rewrite combine_map_same.
  assert (Hfst : map fst (map (fun i => (i, nth i row 0)) idx) = idx)
    by (rewrite map_map; cbn [fst]; apply map_id).
  destruct (existsb (Nat.eqb c) idx) eqn:E.
  - apply existsb_exists in E. destruct E as (c' & Hin & Hc).
    apply Nat.eqb_eq in Hc. subst c'.
    apply row_get_nodup.
    + rewrite Hfst. exact Hnd.
    + apply in_map_iff. exists c. auto.
  - unfold row_get. rewrite row_get_absent; [reflexivity|].
    rewrite Hfst. intros Hin.
    assert (existsb (Nat.eqb c) idx = true); [|congruence].
    apply existsb_exists. exists c. split; [exact Hin|].
    apply Nat.eqb_refl.
Qed.

Lemma length_argsort (a : list R) : List.length (argsort a) = List.length a.
Proof.
  rewrite (Permutation_length (argsort_perm a)). apply length_seq.
Qed.

Lemma dense_search_of (L : list (list R)) (k n : nat) :
  (forall row, In row L -> List.length row = n) ->
  (Nat.max 1 k <= n)%nat ->
  SparseBuilder.get_indices_distances_from_dense_matrix L k
  = Ok (map (fun row => firstn k (argsort row)) L,
        map (fun row => firstn k (sorted_values row)) L).
Proof.
  intros HL Hk.
  unfold SparseBuilder.get_indices_distances_from_dense_matrix.
  rewrite (@mapM_ok _ _ (fun row => SparseBuilder.row_from_dense row k)
             (fun row => (firstn k (argsort row),
                          firstn k (sorted_values row)))).
  - cbn [bind]. rewrite !map_map. reflexivity.
  - intros row Hrow. apply row_from_dense_value.
    rewrite (HL row Hrow). exact Hk.
Qed.

(** X16.  The exact search followed by the numpy variant of the builder,
    as [compute_neighbors] runs them on dense distances with [knn]: for a
    square array [D] on [n] observations and [1 <= n_neighbors <= n], both
    return, and the sparse matrix reads [D[i, c]] at the columns [c] that
    the search selected for row [i] and 0 at all others. *)
Theorem X16_sparse_distances_agree_with_the_dense_ones_on_the_neighbours
    (D : list (list R)) (k n : nat) :
  Transitions.is_square n D = true ->
  (1 <= k)%nat -> (k <= n)%nat ->
  exists indices distances M,
    SparseBuilder.get_indices_distances_from_dense_matrix D k
    = Ok (indices, distances)
    /\ SparseBuilder.get_sparse_matrix_from_indices_distances_numpy
         indices distances n k = Ok M
    /\ forall i c, (i < n)%nat ->
         csr_get M i c
         = if existsb (Nat.eqb c) (nth i indices [])
           then Transitions.get D i c else 0.
Proof.
  intros Hsq Hk1 Hkn.
  destruct (@is_square_rows n D Hsq) as [Hlen Hrows].
  set (ind := map (fun row => firstn k (argsort row)) D).
  set (dis := map (fun row => firstn k (sorted_values row)) D).
  assert (Hind : Forall (fun r => List.length r = k) ind).
  { apply Forall_forall. intros r Hr. apply in_map_iff in Hr.
    destruct Hr as (row & <- & Hrow).
    rewrite length_firstn, length_argsort, (Hrows row Hrow). lia. }
  assert (Hdis : Forall (fun r => List.length r = k) dis).
  { apply Forall_forall. intros r Hr. apply in_map_iff in Hr.
    destruct Hr as (row & <- & Hrow).
    rewrite length_firstn, length_sorted_values, (Hrows row Hrow). lia. }
  assert (Hli : List.length ind = n) by (unfold ind; rewrite length_map; lia).
  assert (Hld : List.length dis = n) by (unfold dis; rewrite length_map; lia).
  exists ind, dis.
  unfold SparseBuilder.get_sparse_matrix_from_indices_distances_numpy.
  replace (Nat.eqb k 0) with false by (symmetry; apply Nat.eqb_neq; lia).
  cbv zeta.
  rewrite (length_concat_uniform Hind), (length_concat_uniform Hdis), Hli, Hld.
  rewrite Nat.eqb_refl. cbn [negb]. rewrite Nat.ltb_irrefl.
  eexists. split; [apply (@dense_search_of D k n Hrows); lia|].
  split; [reflexivity|].
  intros i c Hi. unfold csr_get. cbn [csr_rows].
  rewrite (@nth_map_seq _ _ n i [] Hi).
  rewrite row_get_eliminate_zeros, slice_combine.
  rewrite (@slice_concat_uniform _ ind k i Hind) by lia.
  rewrite (@slice_concat_uniform _ dis k i Hdis) by lia.
  unfold ind, dis.
  rewrite (@nth_map_in _ _ (fun row => firstn k (argsort row)) D i [] [])
    by lia.
  rewrite (@nth_map_in _ _ (fun row => firstn k (sorted_values row)) D i [] [])
    by lia.
  rewrite <- take_at_argsort, <- take_at_firstn.
  rewrite row_get_selected by apply argsort_nodup.
  reflexivity.
Qed.

Lemma X16_witness :
  exists indices distances M,
    SparseBuilder.get_indices_distances_from_dense_matrix Examples.line3 2
    = Ok (indices, distances)
    /\ SparseBuilder.get_sparse_matrix_from_indices_distances_numpy
         indices distances 3 2 = Ok M
    /\ forall i c, (i < 3)%nat ->
         csr_get M i c
         = if existsb (Nat.eqb c) (nth i indices [])
           then Transitions.get Examples.line3 i c else 0.
Proof.
  apply (@X16_sparse_distances_agree_with_the_dense_ones_on_the_neighbours
           Examples.line3 2 3).
  - exact line3_square.
  - lia.
  - lia.
Defined.

(** * What [compute_neighbors] leaves alone *)

Section NeighborsExtras.

Variable choose_representation :
  Neighbors.AnnData -> option string -> option nat -> list (list R).
Variable pairwise_distances : list (list R) -> string -> list (list R).
Variable nearest_neighbors :
  list (list R) -> nat -> string -> list (list Z) * list (list R).
Variable fuzzy_simplicial_set :
  nat -> nat -> list (list Z) -> list (list R) -> csr.
Variable connected_components : csr -> nat * list nat.

(** X17.  Whatever its arguments, and whether it returns or raises,
    [compute_neighbors] leaves [Z], [_transitions_sym], [_eigen_values],
    [_eigen_basis] and [iroot] as they were: after the graph is computed
    anew, the object still holds the transition matrix and the spectrum of
    the graph it had before. *)
Theorem X17_compute_neighbors_keeps_transitions_and_spectrum
    (self : Neighbors.obj) (n_neighbors : nat) (knn_arg : bool)
    (n_pcs : option nat) (use_rep : option string) (method : string)
    (write_knn_indices : bool) (metric : string) :
  let self' :=
    fst (Neighbors.compute_neighbors choose_representation
           pairwise_distances nearest_neighbors fuzzy_simplicial_set
           connected_components self n_neighbors knn_arg n_pcs use_rep
           method write_knn_indices metric) in
  Neighbors.Z self' = Neighbors.Z self
  /\ Neighbors._transitions_sym self' = Neighbors._transitions_sym self
  /\ Neighbors._eigen_values self' = Neighbors._eigen_values self
  /\ Neighbors._eigen_basis self' = Neighbors._eigen_basis self
  /\ Neighbors.iroot self' = Neighbors.iroot self.
Proof.
  unfold Neighbors.compute_neighbors, Neighbors.try, bind.
  cbv zeta.
  repeat (break_inner; cbn [fst snd]); cbn; auto.
Qed.

(** X18.  A call of [compute_neighbors] without [knn] that returns was
    made with the method ['gauss']; it stores the dense array of pairwise
    distances as the distances and a dense array as the connectivities,
    sets the number of connected components to 1 without computing them,
    and leaves [_connected_components] as it was. *)
Theorem X18_without_knn_the_graph_is_dense_and_counts_as_one_component
    (self self' : Neighbors.obj) (n_neighbors : nat)
    (n_pcs : option nat) (use_rep : option string) (method : string)
    (write_knn_indices : bool) (metric : string) :
  Neighbors.compute_neighbors choose_representation
    pairwise_distances nearest_neighbors fuzzy_simplicial_set
    connected_components self n_neighbors false n_pcs use_rep
    method write_knn_indices metric = (self', None) ->
  method = "gauss"%string
  /\ Neighbors._distances self'
     = Some (Dense (pairwise_distances
                      (choose_representation (Neighbors._adata self)
                                             use_rep n_pcs) metric))
  /\ (exists W, Neighbors._connectivities self' = Some (Dense W))
  /\ Neighbors._number_connected_components self' = Some 1%nat
  /\ Neighbors._connected_components self'
     = Neighbors._connected_components self.
Proof.
  unfold Neighbors.compute_neighbors, Neighbors.try, bind. cbv zeta.
  cbn [negb andb]. rewrite !andb_true_r, !orb_true_r. cbn [negb].
  destruct (String.eqb method "umap") eqn:Eu; [discriminate|].
  destruct (String.eqb method "gauss") eqn:Eg;
    cbn [orb negb fst snd]; [|discriminate].
  apply String.eqb_eq in Eg. subst method.
  destruct (SparseBuilder.get_indices_distances_from_dense_matrix _ _)
    as [[ki kd]|e]; [|discriminate].
  cbn [Neighbors._adata Neighbors.set_knn Neighbors.set_n_neighbors
       Neighbors.set_distances Neighbors.set_knn_indices
       Neighbors._distances].
  destruct write_knn_indices;
    cbn [Neighbors._distances Neighbors.set_knn_indices
         Neighbors.set_distances Gauss._compute_connectivities_diffmap];
    (destruct (Gauss.gauss_dense _ _) as [W|e]; [|discriminate]);
    cbn; intros H; injection H as <-; cbn;
    (split; [reflexivity|]); (split; [reflexivity|]);
    (split; [exists W; reflexivity|]); split; reflexivity.
Qed.

Lemma compute_neighbors_stores_both
    (self self' : Neighbors.obj) (n_neighbors : nat) (knn_arg : bool)
    (n_pcs : option nat) (use_rep : option string) (method : string)
    (write_knn_indices : bool) (metric : string) :
  Neighbors.compute_neighbors choose_representation
    pairwise_distances nearest_neighbors fuzzy_simplicial_set
    connected_components self n_neighbors knn_arg n_pcs use_rep
    method write_knn_indices metric = (self', None) ->
  exists d c,
    Neighbors._distances self' = Some d
    /\ Neighbors._connectivities self' = Some c.
Proof.
  unfold Neighbors.compute_neighbors, Neighbors.try, bind. cbv zeta.
  repeat (break_inner; cbn [fst snd]);
    intros H; inversion H; subst; cbn;
    try (do 2 eexists; split; reflexivity);
    repeat match goal with
           | E : (_ || _)%bool = _ |- _ =>
               first [ apply orb_false_iff in E; destruct E
                     | apply orb_true_iff in E ]
           | E : negb _ = _ |- _ =>
               first [ apply negb_false_iff in E | apply negb_true_iff in E ]
           end;
    try congruence;
    try (exfalso; intuition congruence).
Qed.

Lemma init_iroot_returns (adata : Neighbors.AnnData) :
  exists r, Neighbors._init_iroot adata = Ok r.
Proof.
  unfold Neighbors._init_iroot.
  destruct (Neighbors.uns_iroot adata) as [r|].
  - destruct (Nat.leb _ r); eexists; reflexivity.
  - destruct (Neighbors.xroot adata) as [x|]; [|eexists; reflexivity].
    destruct (Nat.eqb _ _); eexists; reflexivity.
Qed.

(** X24.  After [neighbors] has returned and written its block, a new
    [Neighbors] object made from that annotated data holds the distances
    and connectivities just computed, takes [knn] from the kind of the
    connectivities, and takes [n_neighbors] from the parameters: the
    value requested, also when the computation replaced it by a smaller
    one. *)
Theorem X24_a_new_object_reads_back_what_neighbors_wrote
    (adata : Neighbors.AnnData) (n_neighbors : nat) (n_pcs : option nat)
    (use_rep : option string) (knn_arg : bool) (method metric : string)
    (metric_kwds : list (string * R)) (block : Neighbors.uns_neighbors)
    (self : Neighbors.obj) :
  Neighbors.neighbors choose_representation pairwise_distances
    nearest_neighbors fuzzy_simplicial_set connected_components
    adata n_neighbors n_pcs use_rep knn_arg method metric metric_kwds
  = Ok (block, self) ->
  exists o,
    Neighbors.__init__ connected_components
      (Neighbors.with_uns adata block) None = Ok o
    /\ Neighbors.n_neighbors_attr o = Some n_neighbors
    /\ Neighbors._distances o = Neighbors._distances self
    /\ Neighbors._connectivities o = Neighbors._connectivities self
    /\ Neighbors.knn o
       = option_map issparse (Neighbors._connectivities self).
Proof.
  unfold Neighbors.neighbors. intros H.
  destruct (Neighbors.__init__ connected_components adata None)
    as [o0|e]; [|discriminate].
  cbn [bind] in H.
  destruct (Neighbors.compute_neighbors _ _ _ _ _ o0 n_neighbors knn_arg
              n_pcs use_rep method false metric) as [o1 [e|]] eqn:Hc;
    [discriminate|].
  injection H as <- <-.
  destruct (compute_neighbors_stores_both _ _ _ _ _ _ _ _ Hc)
    as (d & c & Hd & Hcn).
  unfold Neighbors.__init__.
  destruct (init_iroot_returns
              (Neighbors.with_uns adata
                 (Neighbors.mkUns
                    (Some (Neighbors.mkParams n_neighbors method metric
                             match metric_kwds with
                             | [] => None
                             | _ :: _ => Some metric_kwds
                             end use_rep n_pcs))
                    (Neighbors._distances o1)
                    (Neighbors._connectivities o1)))) as (r & ->).
  unfold Neighbors.with_uns.
  cbn [bind Neighbors.uns Neighbors.u_distances Neighbors.diffmap
       Neighbors.u_connectivities Neighbors.u_params
       Neighbors.p_n_neighbors].
  rewrite Hd, Hcn. cbn [bind].
  destruct c as [cd|cs];
    cbn [Neighbors._connectivities Neighbors.set_connectivities
         Neighbors.set_n_neighbors Neighbors.set_knn
         Neighbors.set_distances Neighbors.set_components
         Neighbors.diffmap bind];
    (destruct (Neighbors.diffmap adata) as [[evals basis]|];
     eexists; (split; [reflexivity|]); cbn; auto).
Qed.

End NeighborsExtras.

(** [Neighbors(adata2).compute_neighbors(2, knn=False, method='gauss')]
    returns. *)
Lemma dense_gauss_call_returns :
  exists self',
    Neighbors.compute_neighbors Examples.choose_representation
      Examples.pairwise_distances Examples.nearest_neighbors
      Examples.fuzzy_simplicial_set Examples.connected_components
      Examples.fresh2 2 false None None "gauss" false "euclidean"
    = (self', None).
Proof.
  eexists.
  unfold Neighbors.compute_neighbors, Neighbors.try.
  r_run. reflexivity.
Defined.

Lemma X18_witness :
  exists self',
    Neighbors.compute_neighbors Examples.choose_representation
      Examples.pairwise_distances Examples.nearest_neighbors
      Examples.fuzzy_simplicial_set Examples.connected_components
      Examples.fresh2 2 false None None "gauss" false "euclidean"
    = (self', None)
    /\ Neighbors._number_connected_components self' = Some 1%nat
    /\ exists W, Neighbors._connectivities self' = Some (Dense W).
Proof.
  destruct dense_gauss_call_returns as (self' & H).
  exists self'. split; [exact H|].
  destruct (@X18_without_knn_the_graph_is_dense_and_counts_as_one_component
              Examples.choose_representation Examples.pairwise_distances
              Examples.nearest_neighbors Examples.fuzzy_simplicial_set
              Examples.connected_components
              Examples.fresh2 self' 2 None None "gauss" false "euclidean" H)
    as (_ & _ & HW & Hn & _).
  split; [exact Hn | exact HW].
Defined.

Lemma X24_witness :
  exists block self o,
    Neighbors.neighbors Examples.choose_representation
      Examples.pairwise_distances Examples.nearest_neighbors
      Examples.fuzzy_simplicial_set Examples.connected_components
      Examples.adata2 5 None None true "umap" "cosine" []
    = Ok (block, self)
    /\ Neighbors.__init__ Examples.connected_components
         (Neighbors.with_uns Examples.adata2 block) None = Ok o
    /\ Neighbors.n_neighbors_attr o = Some 5%nat.
Proof.
  destruct neighbors_adata2_returns as (block & self & H).
  destruct (@X24_a_new_object_reads_back_what_neighbors_wrote
              Examples.choose_representation Examples.pairwise_distances
              Examples.nearest_neighbors Examples.fuzzy_simplicial_set
              Examples.connected_components
              Examples.adata2 5 None None true "umap" "cosine" []
              block self H) as (o & Ho & Hn & _).
  exists block, self, o. split; [exact H|]. split; [exact Ho | exact Hn].
Defined.

(** * Rows with too few neighbours *)

Lemma mapM_raise {A B : Type} (f : A -> result B) (l : list A) (e : exn) :
  (exists a, In a l /\ f a = Raise e) ->
  (forall a e', In a l -> f a = Raise e' -> e' = e) ->
  mapM f l = Raise e.
Proof.
  induction l as [|a l IH]; intros (a0 & Hin & Ha0) Hall.
  - destruct Hin.
  - cbn [mapM]. destruct (f a) as [b|e'] eqn:Hfa.
    + cbn [bind]. rewrite IH; [reflexivity| |].
      * destruct Hin as [->|Hin]; [congruence|].
        exists a0. split; assumption.
      * intros a1 e1 H1 H2. apply (Hall a1 e1); [right; exact H1 | exact H2].
    + cbn [bind]. f_equal. apply (Hall a e'); [left; reflexivity | exact Hfa].
Qed.

Lemma row_from_sparse_raises (row : list (nat * R)) (i k : nat) (e : exn) :
  (1 <= k)%nat ->
  SparseBuilder.row_from_sparse row i k = Raise e ->
  e = ValueError "could not broadcast input array".
Proof.
  intros Hk. destruct k as [|m]; [lia|].
  unfold SparseBuilder.row_from_sparse, SparseBuilder.assign_tail.
  destruct (Nat.ltb m _); [discriminate|].
  rewrite !length_map.
  destruct (Nat.eqb (List.length (eliminate_zeros_row row)) m).
  - cbn [bind]. discriminate.
  - destruct (eliminate_zeros_row row) as [|x [|y l]]; cbn [map bind].
    + intros H. injection H as <-. reflexivity.
    + discriminate.
    + intros H. injection H as <-. reflexivity.
Qed.

Lemma row_from_sparse_under_complete (row : list (nat * R)) (i k : nat) :
  (1 <= k)%nat ->
  (List.length (eliminate_zeros_row row) < k - 1)%nat ->
  List.length (eliminate_zeros_row row) <> 1%nat ->
  SparseBuilder.row_from_sparse row i k
  = Raise (ValueError "could not broadcast input array").
Proof.
  intros Hk Hlt Hne. destruct k as [|m]; [lia|].
  replace (S m - 1)%nat with m in Hlt by lia.
  unfold SparseBuilder.row_from_sparse, SparseBuilder.assign_tail.
  rewrite !length_map.
  replace (Nat.ltb m (List.length (eliminate_zeros_row row))) with false
    by (symmetry; apply Nat.ltb_ge; lia).
  replace (Nat.eqb (List.length (eliminate_zeros_row row)) m) with false
    by (symmetry; apply Nat.eqb_neq; lia).
  destruct (eliminate_zeros_row row) as [|x [|y l]]; cbn [map bind].
  - reflexivity.
  - cbn in Hne. lia.
  - reflexivity.
Qed.

(** X19.  For a target [k >= 1], when some row of the sparse matrix has
    fewer than [k - 1] entries that are not zero, and not exactly one,
    [get_indices_distances_from_sparse_matrix] raises the [ValueError] of
    a failed broadcast, whatever the other rows hold: nothing is padded. *)
Theorem X19_an_under_complete_row_raises (D : csr) (k : nat) :
  (1 <= k)%nat ->
  Exists (fun row =>
            (List.length (eliminate_zeros_row row) < k - 1)%nat
            /\ List.length (eliminate_zeros_row row) <> 1%nat)
         (csr_rows D) ->
  SparseBuilder.get_indices_distances_from_sparse_matrix D k
  = Raise (ValueError "could not broadcast input array").
Proof.
  intros Hk Hex.
  unfold SparseBuilder.get_indices_distances_from_sparse_matrix.
  rewrite (@mapM_raise _ _ _ _
             (ValueError "could not broadcast input array")).
  - reflexivity.
  - apply Exists_exists in Hex. destruct Hex as (row & Hin & Hlt & Hne).
    destruct (In_nth_error _ _ Hin) as (i & Hi).
    exists (i, row). split.
    + eapply nth_error_In. apply nth_error_enumerate. exact Hi.
    + cbn [fst snd]. apply row_from_sparse_under_complete; assumption.
  - intros [i row] e' _ He'. cbn [fst snd] in He'.
    apply (row_from_sparse_raises _ _ Hk He').
Qed.

Lemma X19_witness :
  SparseBuilder.get_indices_distances_from_sparse_matrix
    Examples.under_complete 2
  = Raise (ValueError "could not broadcast input array").
Proof.
  apply (@X19_an_under_complete_row_raises Examples.under_complete 2).
  - lia.
  - unfold Examples.under_complete. cbn [csr_rows].
    apply Exists_cons_hd. cbn. split; [lia | discriminate].
Defined.

(** * The diagonal of the dense Gauss kernel *)

Lemma count_zero_once (l : list R) (i : nat) :
  (forall j, (j < List.length l)%nat -> j <> i -> nth j l 0 <> 0) ->
  (count_occ Req_dec_T l 0%R <= 1)%nat.
Proof.
  revert i. induction l as [|x l IH]; intros i H; [cbn; lia|].
  cbn [count_occ]. destruct (Req_dec_T x 0) as [Hx|Hx].
  - assert (Hi : i = 0%nat).
    { destruct i as [|i]; [reflexivity|].
      exfalso. apply (H 0%nat); [cbn; lia | discriminate | exact Hx]. }
    subst i.
    assert (Hl : count_occ Req_dec_T l 0%R = 0%nat).
    { apply count_occ_not_In. intros Hin.
      destruct (In_nth l 0 0 Hin) as (j & Hj & Hnth).
      apply (H (S j)); [cbn; lia | discriminate | exact Hnth]. }
    rewrite Hl. lia.
  - destruct i as [|i].
    + assert (Hl : count_occ Req_dec_T l 0%R = 0%nat).
      { apply count_occ_not_In. intros Hin.
        destruct (In_nth l 0 0 Hin) as (j & Hj & Hnth).
        apply (H (S j)); [cbn; lia | discriminate | exact Hnth]. }
      lia.
    + apply (IH i). intros j Hj Hne.
      apply (H (S j)); [cbn; lia | lia].
Qed.

Lemma sorted_nth_le (s : list R) (a b : nat) :
  StronglySorted Rle s -> (a <= b)%nat -> (b < List.length s)%nat ->
  nth a s 0 <= nth b s 0.
Proof.
  intros Hs. revert a b.
  induction Hs as [|x s Hs IH Hx]; intros a b Hab Hb; [cbn in Hb; lia|].
  destruct b as [|b].
  - replace a with 0%nat by lia. lra.
  - destruct a as [|a]; cbn [nth].
    + rewrite Forall_forall in Hx. apply Hx, nth_In. cbn in Hb. lia.
    + apply IH; [lia | cbn in Hb; lia].
Qed.

Lemma count_two (s : list R) (b : nat) :
  (1 <= b)%nat -> (b < List.length s)%nat ->
  nth 0 s 0 = 0 -> nth b s 0 = 0 ->
  (2 <= count_occ Req_dec_T s 0%R)%nat.
Proof.
  intros Hb Hlen H0 Hb0. destruct s as [|x s]; [cbn in Hlen; lia|].
  cbn [nth] in H0. subst x. cbn [count_occ].
  destruct (Req_dec_T 0 0) as [_|Hne]; [|contradiction].
  destruct b as [|b]; [lia|]. cbn [nth] in Hb0.
  assert (Hin : In 0 s).
  { rewrite <- Hb0. apply nth_In. cbn in Hlen. lia. }
  apply (count_occ_In Req_dec_T) in Hin. lia.
Qed.

(** The bandwidth of an observation whose other distances are not zero. *)
Lemma sigma_sq_dense_pos (D : list (list R)) (k n i : nat) :
  Transitions.is_square n D = true ->
  (2 <= k)%nat -> (k <= n)%nat -> (i < n)%nat ->
  (forall j, (j < n)%nat -> j <> i -> Transitions.get D i j <> 0) ->
  0 < Gauss.sigma_sq_dense D k i.
Proof.
  intros Hsq Hk2 Hkn Hi Hoff.
  destruct (@is_square_rows n D Hsq) as [Hlen Hrows].
  pose proof (sigma_sq_dense_nonneg D k i) as Hnn.
  destruct (Rle_lt_or_eq_dec _ _ Hnn) as [Hpos|Hz]; [exact Hpos|].
  exfalso. unfold Gauss.sigma_sq_dense in *.
  set (row := map (fun d => d ^ 2) (nth i D [])) in *.
  set (s := sorted_values row) in *.
  assert (Hrow : List.length row = n).
  { unfold row. rewrite length_map. apply Hrows, nth_In. lia. }
  assert (Hs : List.length s = n)
    by (unfold s; rewrite length_sorted_values; exact Hrow).
  assert (Hkz : nth (k - 1) s 0 = 0) by lra.
  assert (Hge : forall a, (a < n)%nat -> 0 <= nth a s 0).
  { intros a Ha.
    assert (Hin : In (nth a s 0) s) by (apply nth_In; lia).
    apply (Permutation_in _ (sorted_values_perm row)) in Hin.
    unfold row in Hin. apply in_map_iff in Hin.
    destruct Hin as (d & <- & _). apply pow2_ge_0. }
  assert (H0 : nth 0 s 0 = 0).
  { pose proof (@sorted_nth_le s 0 (k - 1) (sorted_values_sorted row)) as Hle.
    specialize (Hle ltac:(lia) ltac:(lia)).
    specialize (Hge 0%nat ltac:(lia)). lra. }
  assert (Htwo : (2 <= count_occ Req_dec_T s 0%R)%nat)
    by (apply (@count_two s (k - 1)); try lia; assumption).
  rewrite (proj1 (Permutation_count_occ Req_dec_T s row)
             (sorted_values_perm row) 0) in Htwo.
  assert (Hone : (count_occ Req_dec_T row 0%R <= 1)%nat).
  { apply (@count_zero_once row i). intros j Hj Hne.
    unfold row. rewrite (@nth_map_in _ _ (fun d => d ^ 2) (nth i D []) j 0 0).
    - apply pow_nonzero. apply (Hoff j); [lia | exact Hne].
    - unfold row in Hj. rewrite length_map in Hj. exact Hj. }
  lia.
Qed.



(** * The triangle inequality of the diffusion distances *)

Lemma Rsum_map_sqr_nonneg {B : Type} (f : B -> R) (l : list B) :
  0 <= Rsum (map (fun p => f p * f p) l).
Proof.
  induction l as [|x l IH]; cbn [map].
  - rewrite Rsum_nil. lra.
  - rewrite Rsum_cons. pose proof (Rle_0_sqr (f x)) as H.
    unfold Rsqr in H. lra.
Qed.

Lemma cauchy_schwarz (l : list (R * R)) :
  Rsum (map (fun p => fst p * snd p) l)
  * Rsum (map (fun p => fst p * snd p) l)
  <= Rsum (map (fun p => fst p * fst p) l)
     * Rsum (map (fun p => snd p * snd p) l).
Proof.
  induction l as [|[a b] l IH]; cbn [map].
  - rewrite !Rsum_nil. lra.
  - rewrite !Rsum_cons. cbn [fst snd].
    pose proof (Rsum_map_sqr_nonneg (@fst R R) l) as HU.
    pose proof (Rsum_map_sqr_nonneg (@snd R R) l) as HV.
    set (P := Rsum (map (fun p => fst p * snd p) l)) in *.
    set (U := Rsum (map (fun p => fst p * fst p) l)) in *.
    set (V := Rsum (map (fun p => snd p * snd p) l)) in *.
    assert (Hmix : 2 * (a * b * P) <= a * a * V + b * b * U).
    { destruct (Rle_lt_or_eq_dec 0 V HV) as [HVpos|HV0].
      - apply (Rmult_le_reg_l V); [exact HVpos|].
        pose proof (Rle_0_sqr (a * V - b * P)) as Hs. unfold Rsqr in Hs.
        assert (b * b * (P * P) <= b * b * (U * V)).
        { apply Rmult_le_compat_l; [|exact IH].
          pose proof (Rle_0_sqr b) as Hb. unfold Rsqr in Hb. exact Hb. }
        nra.
      - assert (HP : P = 0).
        { rewrite <- HV0, Rmult_0_r in IH.
          pose proof (Rle_0_sqr P) as Hs. unfold Rsqr in Hs.
          apply Rsqr_0_uniq. unfold Rsqr. lra. }
        rewrite HP, <- HV0.
        pose proof (Rle_0_sqr b) as Hb. unfold Rsqr in Hb.
        assert (0 <= b * b * U) by (apply Rmult_le_pos; assumption).
        lra. }
    nra.
Qed.

Lemma minkowski (l : list (R * R)) :
  sqrt (Rsum (map (fun p => (fst p + snd p) * (fst p + snd p)) l))
  <= sqrt (Rsum (map (fun p => fst p * fst p) l))
     + sqrt (Rsum (map (fun p => snd p * snd p) l)).
Proof.
  pose proof (Rsum_map_sqr_nonneg (@fst R R) l) as HU.
  pose proof (Rsum_map_sqr_nonneg (@snd R R) l) as HV.
  pose proof (Rsum_map_sqr_nonneg (fun p : R * R => fst p + snd p) l) as HS.
  pose proof (cauchy_schwarz l) as HCS.
  assert (Hsum : Rsum (map (fun p : R * R => (fst p + snd p) * (fst p + snd p)) l)
                 = Rsum (map (fun p => fst p * fst p) l)
                   + 2 * Rsum (map (fun p => fst p * snd p) l)
                   + Rsum (map (fun p => snd p * snd p) l)).
  { clear. induction l as [|[a b] l IH]; cbn [map].
    - rewrite !Rsum_nil. lra.
    - rewrite !Rsum_cons, IH. cbn [fst snd]. ring. }
  set (S := Rsum (map (fun p : R * R => (fst p + snd p) * (fst p + snd p)) l))
    in *.
  set (P := Rsum (map (fun p => fst p * snd p) l)) in *.
  set (U := Rsum (map (fun p => fst p * fst p) l)) in *.
  set (V := Rsum (map (fun p => snd p * snd p) l)) in *.
  assert (Hu : 0 <= sqrt U) by apply sqrt_pos.
  assert (Hv : 0 <= sqrt V) by apply sqrt_pos.
  assert (Huu : sqrt U * sqrt U = U) by (apply sqrt_sqrt; exact HU).
  assert (Hvv : sqrt V * sqrt V = V) by (apply sqrt_sqrt; exact HV).
  assert (HP : P <= sqrt U * sqrt V).
  { destruct (Rle_lt_dec P (sqrt U * sqrt V)) as [H|H]; [exact H|].
    exfalso.
    assert (0 <= sqrt U * sqrt V) by (apply Rmult_le_pos; assumption).
    assert (sqrt U * sqrt V * (sqrt U * sqrt V) < P * P) by nra.
    assert (sqrt U * sqrt V * (sqrt U * sqrt V) = U * V) by nra.
    lra. }
  rewrite <- (sqrt_square (sqrt U + sqrt V)) by lra.
  apply sqrt_le_1; [exact HS | nra | nra].
Qed.

Lemma total_as_sum (v1 v2 : list R) : Dpt.total v1 v2 = Rsum (v1 ++ v2).
Proof.
  unfold Dpt.total. destruct v1 as [|a r], v2 as [|b r']; cbn [app].
  - reflexivity.
  - rewrite fold_Rplus_shift, Rsum_cons. reflexivity.
  - rewrite app_nil_r, fold_Rplus_shift, Rsum_cons. reflexivity.
  - rewrite (fold_Rplus_shift r a), (fold_Rplus_shift r' b).
    rewrite Rsum_cons, Rsum_app, Rsum_cons. unfold Rsum. lra.
Qed.

Lemma squared_distance_triangle (s : Dpt.state) (i j k : nat) :
  sqrt (Dpt.squared_distance s i k)
  <= sqrt (Dpt.squared_distance s i j) + sqrt (Dpt.squared_distance s j k).
Proof.
  set (P := map (fun l => let ev := nth l (Dpt.eigen_values s) 0 in
                          (ev / (1 - ev)
                           * (Dpt.basis_at s i l - Dpt.basis_at s j l),
                           ev / (1 - ev)
                           * (Dpt.basis_at s j l - Dpt.basis_at s k l)))
                (Dpt.decaying_components s)
             ++ map (fun l => (Dpt.basis_at s i l - Dpt.basis_at s j l,
                               Dpt.basis_at s j l - Dpt.basis_at s k l))
                    (Dpt.stationary_components s)).
  assert (Hik : Dpt.squared_distance s i k
                = Rsum (map (fun p => (fst p + snd p) * (fst p + snd p)) P)).
  { unfold Dpt.squared_distance, P. rewrite total_as_sum, map_app, !map_map.
    f_equal. f_equal; apply map_ext; intros l; cbv zeta; cbn [fst snd];
      ring. }
  assert (Hij : Dpt.squared_distance s i j
                = Rsum (map (fun p => fst p * fst p) P)).
  { unfold Dpt.squared_distance, P. rewrite total_as_sum, map_app, !map_map.
    f_equal. f_equal; apply map_ext; intros l; cbv zeta; cbn [fst snd];
      ring. }
  assert (Hjk : Dpt.squared_distance s j k
                = Rsum (map (fun p => snd p * snd p) P)).
  { unfold Dpt.squared_distance, P. rewrite total_as_sum, map_app, !map_map.
    f_equal. f_equal; apply map_ext; intros l; cbv zeta; cbn [fst snd];
      ring. }
  rewrite Hik, Hij, Hjk. apply minkowski.
Qed.

Lemma distance_finite (s : Dpt.state) (i j : nat) (d : R) :
  Dpt.distance s i j = Fin d ->
  d = sqrt (Dpt.squared_distance s i j)
  /\ forall nc labels,
       Dpt.connected_components s = Some (nc, labels) ->
       Nat.ltb 1 (Dpt.number_connected_components s) = true ->
       nth j labels 0%nat = nth i labels 0%nat.
Proof.
  assert (H : xsqrt (Fin (Dpt.squared_distance s i j))
              = Fin (sqrt (Dpt.squared_distance s i j))).
  { unfold xsqrt. rewrite Rltb_false; [reflexivity|].
    apply squared_distance_nonneg. }
  unfold Dpt.distance.
  destruct (Dpt.connected_components s) as [[nc labels]|].
  - destruct (Nat.ltb 1 (Dpt.number_connected_components s)); cbn [andb].
    + destruct (Nat.eqb (nth j labels 0%nat) (nth i labels 0%nat)) eqn:E;
        cbn [negb]; [|discriminate].
      rewrite H. intros Hd. injection Hd as <-. split; [reflexivity|].
      intros nc' labels' Heq _. injection Heq as <- <-.
      apply Nat.eqb_eq. exact E.
    + rewrite H. intros Hd. injection Hd as <-. split; [reflexivity|].
      intros ? ? _ Hf. discriminate.
  - rewrite H. intros Hd. injection Hd as <-. split; [reflexivity|].
    intros ? ? Hf. discriminate.
Qed.

(** X21.  Over the reals, that is with every [float64] sum, product and
    square root read as the exact one (rounding is not modelled): for a
    computed spectral decomposition and partition, the rows of
    [_get_dpt_row] satisfy the triangle inequality: when the entries
    [(i, j)] and [(j, k)] are finite, the entry [(i, k)] is finite and at
    most their sum. *)
Theorem X21_dpt_rows_satisfy_the_triangle_inequality
    (s : Dpt.state) (i j k : nat) (ri rj : list xreal) (dij djk : R) :
  Dpt.well_formed s ->
  (i < List.length (Dpt.eigen_basis s))%nat ->
  (j < List.length (Dpt.eigen_basis s))%nat ->
  (k < List.length (Dpt.eigen_basis s))%nat ->
  Dpt._get_dpt_row s i = Ok (Dpt.Arr ri) ->
  Dpt._get_dpt_row s j = Ok (Dpt.Arr rj) ->
  nth_error ri j = Some (Fin dij) ->
  nth_error rj k = Some (Fin djk) ->
  exists dik,
    nth_error ri k = Some (Fin dik) /\ dik <= dij + djk.
Proof.
  intros Hwf Hi Hj Hk Hri Hrj Hij Hjk.
  rewrite (get_dpt_row_closed Hwf Hi) in Hri. injection Hri as <-.
  rewrite (get_dpt_row_closed Hwf Hj) in Hrj. injection Hrj as <-.
  rewrite nth_error_map_seq in Hij by assumption.
  rewrite nth_error_map_seq in Hjk by assumption.
  rewrite nth_error_map_seq by assumption.
  injection Hij as Hij. injection Hjk as Hjk.
  destruct (distance_finite _ _ _ Hij) as [-> Hlij].
  destruct (distance_finite _ _ _ Hjk) as [-> Hljk].
  exists (sqrt (Dpt.squared_distance s i k)).
  split; [|apply squared_distance_triangle].
  f_equal. unfold Dpt.distance.
  assert (H : xsqrt (Fin (Dpt.squared_distance s i k))
              = Fin (sqrt (Dpt.squared_distance s i k))).
  { unfold xsqrt. rewrite Rltb_false; [reflexivity|].
    apply squared_distance_nonneg. }
  destruct (Dpt.connected_components s) as [[nc labels]|] eqn:Hcc;
    [|exact H].
  destruct (Nat.ltb 1 (Dpt.number_connected_components s)) eqn:E;
    cbn [andb]; [|exact H].
  rewrite (Hljk nc labels eq_refl eq_refl), (Hlij nc labels eq_refl eq_refl).
  rewrite Nat.eqb_refl. cbn [negb]. exact H.
Qed.

Lemma X21_witness :
  exists dik,
    nth_error [Fin 0; Fin 1] 1 = Some (Fin dik) /\ dik <= 0 + 1.
Proof.
  apply (@X21_dpt_rows_satisfy_the_triangle_inequality
           Examples.one_component 0 0 1 [Fin 0; Fin 1] [Fin 0; Fin 1] 0 1).
  - exact one_component_well_formed.
  - cbn. lia.
  - cbn. lia.
  - cbn. lia.
  - exact one_component_row.
  - exact one_component_row.
  - reflexivity.
  - reflexivity.
Defined.

(** * The symmetrization loop of the sparse Gauss kernel *)

Lemma row_get_filter_other (row : list (nat * R)) (i b : nat) :
  row_get (filter (fun e => negb (Nat.eqb (fst e) i)) row) b
  = if Nat.eqb b i then 0 else row_get row b.
Proof.
  induction row as [|e row IH]; cbn [filter].
  - rewrite row_get_nil. destruct (Nat.eqb b i); reflexivity.
  - destruct (Nat.eqb (fst e) i) eqn:E; cbn [negb].
    + rewrite IH, row_get_cons. apply Nat.eqb_eq in E.
      destruct (Nat.eqb b i) eqn:Eb; [reflexivity|].
      apply Nat.eqb_neq in Eb.
      replace (Nat.eqb (fst e) b) with false
        by (symmetry; apply Nat.eqb_neq; lia).
      lra.
    + rewrite !row_get_cons, IH. apply Nat.eqb_neq in E.
      destruct (Nat.eqb b i) eqn:Eb; [|reflexivity].
      apply Nat.eqb_eq in Eb. subst b.
      replace (Nat.eqb (fst e) i) with false
        by (symmetry; apply Nat.eqb_neq; exact E).
      lra.
Qed.

Lemma nth_update_same {A : Type} (l : list A) (j : nat) (x d : A) :
  (j < List.length l)%nat ->
  nth j (firstn j l ++ x :: skipn (S j) l) d = x.
Proof.
  intros Hj. rewrite app_nth2 by (rewrite length_firstn; lia).
  rewrite length_firstn.
  replace (j - Nat.min j (List.length l))%nat with 0%nat by lia.
  reflexivity.
Qed.

Lemma nth_update_other {A : Type} (l : list A) (j a : nat) (x d : A) :
  (j < List.length l)%nat -> a <> j ->
  nth a (firstn j l ++ x :: skipn (S j) l) d = nth a l d.
Proof.
  intros Hj Hne.
  rewrite <- (firstn_skipn j l) at 3.
  destruct (Nat.lt_ge_cases a j) as [Hlt|Hge].
  - rewrite !app_nth1 by (rewrite length_firstn; lia). reflexivity.
  - rewrite !app_nth2 by (rewrite length_firstn; lia).
    rewrite length_firstn.
    replace (a - Nat.min j (List.length l))%nat
      with (S (a - S j)) by lia.
    cbn [nth].
    assert (Hsk : skipn j l = nth j l d :: skipn (S j) l).
    { clear - Hj. revert j Hj. induction l as [|y l IH]; intros j Hj.
      - cbn in Hj. lia.
      - destruct j as [|j]; [reflexivity|].
        cbn [skipn nth]. apply IH. cbn in Hj. lia. }
    rewrite Hsk. reflexivity.
Qed.

Lemma length_update {A : Type} (l : list A) (j : nat) (x : A) :
  (j < List.length l)%nat ->
  List.length (firstn j l ++ x :: skipn (S j) l) = List.length l.
Proof.
  intros Hj. rewrite length_app, length_firstn. cbn [List.length].
  rewrite length_skipn. lia.
Qed.

(** [W[j, i] = x] and then [W[a, b]]. *)
Lemma lil_set_get (n : nat) (W W' : Gauss.lil) (j i : nat) (x : R) :
  Gauss.lil_set n W j i x = Ok W' ->
  List.length W' = List.length W
  /\ forall a b,
       row_get (nth a W' []) b
       = if Nat.eqb a j && Nat.eqb b i then x else row_get (nth a W []) b.
Proof.
  unfold Gauss.lil_set, index.
  destruct (nth_error W j) as [row|] eqn:Hrow; [|discriminate].
  cbn [bind]. destruct (Nat.leb n i); [discriminate|].
  intros H. injection H as <-.
  assert (Hj : (j < List.length W)%nat)
    by (apply nth_error_Some; rewrite Hrow; discriminate).
  split; [apply length_update; exact Hj|].
  intros a b. destruct (Nat.eqb a j) eqn:Ea; cbn [andb].
  - apply Nat.eqb_eq in Ea. subst a.
    rewrite (nth_update_same _ _ _ Hj).
    rewrite (nth_error_nth _ _ [] Hrow).
    destruct (Reqb x 0) eqn:Ex.
    + apply Reqb_spec in Ex. subst x. rewrite row_get_filter_other.
      destruct (Nat.eqb b i); reflexivity.
    + rewrite row_get_insert_entry, row_get_filter_other. cbn [fst snd].
      rewrite (Nat.eqb_sym i b).
      destruct (Nat.eqb b i); lra.
  - apply Nat.eqb_neq in Ea.
    rewrite (nth_update_other _ _ _ Hj Ea). reflexivity.
Qed.

Lemma in_enumerate_rows {A : Type} (l : list A) :
  forall (a p : nat) (x : A),
    In (p, x) (combine (seq a (List.length l)) l) ->
    (a <= p < a + List.length l)%nat /\ nth_error l (p - a) = Some x.
Proof.
  induction l as [|y l IH]; intros a p x Hin; [destruct Hin|].
  cbn [List.length seq combine] in Hin. destruct Hin as [Hin|Hin].
  - injection Hin as <- <-. rewrite Nat.sub_diag. cbn. split; [lia|auto].
  - destruct (IH _ _ _ Hin) as [Hr Hv]. cbn [List.length].
    split; [lia|].
    replace (p - a)%nat with (S (p - S a)) by lia. exact Hv.
Qed.

Section Borrow.

Variable n : nat.
Variable indices : list (list nat).
Variable w : nat -> nat -> R.

Hypothesis Hlen : List.length indices = n.
Hypothesis Hrange :
  Forall (Forall (fun c => (c < n)%nat)) indices.

Notation listed a b := (existsb (Nat.eqb b) (nth a indices [])).
Notation processed done b a :=
  (existsb (fun e : nat * nat => Nat.eqb (fst e) b && Nat.eqb (snd e) a) done).

(** The matrix once the edges [done] have been processed: the weight of
    an edge of the neighbour lists, the weight borrowed from the opposite
    edge if that one was processed, and else 0. *)
Notation reads W done :=
  (List.length W = n
   /\ forall a b, (a < n)%nat -> (b < n)%nat ->
        row_get (nth a W []) b
        = if listed a b then w a b
          else if processed done b a then w b a else 0).

Lemma processed_app (done : list (nat * nat)) (i j b a : nat) :
  processed (done ++ [(i, j)]) b a
  = processed done b a || (Nat.eqb i b && Nat.eqb j a).
Proof.
  rewrite existsb_app. cbn [existsb fst snd]. rewrite orb_false_r.
  reflexivity.
Qed.

Lemma borrow_step (W : Gauss.lil) (done : list (nat * nat)) (i j : nat) :
  reads W done ->
  (i < n)%nat -> (j < n)%nat -> listed i j = true ->
  exists W',
    Gauss.borrow n indices W i j = Ok W'
    /\ reads W' (done ++ [(i, j)]).
Proof.
  intros [HlenW Hread] Hi Hj Hij.
  unfold Gauss.borrow.
  rewrite (@index_nth _ indices j []) by lia. cbn [bind].
  destruct (existsb (Nat.eqb i) (nth j indices [])) eqn:Hji.
  - exists W. split; [reflexivity|]. split; [exact HlenW|].
    intros a b Ha Hb. rewrite (Hread a b Ha Hb), processed_app.
    destruct (listed a b) eqn:Hab; [reflexivity|].
    destruct (Nat.eqb i b && Nat.eqb j a) eqn:E;
      [|rewrite orb_false_r; reflexivity].
    apply andb_true_iff in E. destruct E as [E1 E2].
    apply Nat.eqb_eq in E1. apply Nat.eqb_eq in E2. subst a b.
    rewrite Hji in Hab. discriminate.
  - unfold Gauss.lil_get.
    rewrite (@index_nth _ W i []) by lia. cbn [bind].
    replace (Nat.leb n j) with false by (symmetry; apply Nat.leb_gt; lia).
    cbn [bind].
    destruct (Gauss.lil_set n W j i (row_get (nth i W []) j)) as [W'|e]
      eqn:Hset.
    2:{ exfalso. unfold Gauss.lil_set in Hset.
        rewrite (@index_nth _ W j []) in Hset by lia. cbn [bind] in Hset.
        replace (Nat.leb n i) with false in Hset
          by (symmetry; apply Nat.leb_gt; lia).
        discriminate. }
    exists W'. split; [reflexivity|].
    destruct (lil_set_get _ _ _ _ _ Hset) as [HlenW' Hget].
    split; [lia|].
    intros a b Ha Hb. rewrite (Hget a b), processed_app.
    destruct (Nat.eqb a j && Nat.eqb b i) eqn:E.
    + apply andb_true_iff in E. destruct E as [E1 E2].
      apply Nat.eqb_eq in E1. apply Nat.eqb_eq in E2. subst a b.
      rewrite Hji, !Nat.eqb_refl. cbn [andb]. rewrite orb_true_r.
      rewrite (Hread i j Hi Hj), Hij. reflexivity.
    + rewrite (Hread a b Ha Hb).
      replace (Nat.eqb i b && Nat.eqb j a) with false.
      * rewrite orb_false_r. reflexivity.
      * symmetry. rewrite andb_comm, (Nat.eqb_sym j a), (Nat.eqb_sym i b).
        exact E.
Qed.

Lemma borrow_fold (todo : list (nat * nat)) :
  forall (W : Gauss.lil) (done : list (nat * nat)),
    reads W done ->
    Forall (fun e => (fst e < n)%nat /\ (snd e < n)%nat
                     /\ listed (fst e) (snd e) = true) todo ->
    exists W',
      fold_left (fun acc e => W' <- acc ;;
                              Gauss.borrow n indices W' (fst e) (snd e))
                todo (Ok W) = Ok W'
      /\ reads W' (done ++ todo).
Proof.
  induction todo as [|[i j] todo IH]; intros W done HW Hall.
  - exists W. rewrite app_nil_r. split; [reflexivity | exact HW].
  - apply Forall_cons_iff in Hall. destruct Hall as [(Hi & Hj & Hij) Hrest].
    cbn [fst snd] in Hi, Hj, Hij.
    destruct (@borrow_step W done i j HW Hi Hj Hij) as (W1 & HW1 & Hread1).
    cbn [fold_left bind fst snd]. rewrite HW1.
    destruct (IH W1 (done ++ [(i, j)]) Hread1 Hrest) as (W' & HW' & Hread').
    exists W'. split; [exact HW'|].
    rewrite <- app_assoc in Hread'. exact Hread'.
Qed.

Lemma edges_spec (i j : nat) :
  In (i, j) (Gauss.edges indices)
  <-> (i < n)%nat /\ In j (nth i indices []).
Proof.
  unfold Gauss.edges. rewrite in_flat_map. split.
  - intros ([i' row] & Hin & Hj). cbn [fst snd] in Hj.
    apply in_map_iff in Hj. destruct Hj as (j' & Heq & Hj').
    injection Heq as <- <-.
    apply in_enumerate_rows in Hin. destruct Hin as [Hr Hrow].
    rewrite Nat.sub_0_r in Hrow.
    split; [lia|]. rewrite (nth_error_nth _ _ [] Hrow). exact Hj'.
  - intros [Hi Hj]. exists (i, nth i indices []). split.
    + eapply nth_error_In. apply nth_error_enumerate.
      apply nth_error_nth'. lia.
    + cbn [fst snd]. apply in_map. exact Hj.
Qed.

Lemma listed_in (a b : nat) : listed a b = true <-> In b (nth a indices []).
Proof.
  rewrite existsb_exists. split.
  - intros (x & Hx & E). apply Nat.eqb_eq in E. subst x. exact Hx.
  - intros H. exists b. split; [exact H | apply Nat.eqb_refl].
Qed.

Lemma processed_all (b a : nat) :
  (b < n)%nat -> processed (Gauss.edges indices) b a = listed b a.
Proof.
  intros Hb. apply eq_true_iff_eq. rewrite listed_in, existsb_exists. split.
  - intros ([i j] & Hin & E). cbn [fst snd] in E.
    apply andb_true_iff in E. destruct E as [E1 E2].
    apply Nat.eqb_eq in E1. apply Nat.eqb_eq in E2. subst i j.
    apply edges_spec in Hin. apply Hin.
  - intros H. exists (b, a). split.
    + apply edges_spec. split; assumption.
    + cbn [fst snd]. rewrite !Nat.eqb_refl. reflexivity.
Qed.

(** The loop returns, and what it returns is symmetric when the weights of
    opposite edges agree. *)
Lemma borrow_all_symmetric (W0 : Gauss.lil) :
  reads W0 (@nil (nat * nat)) ->
  (forall a b, (a < n)%nat -> (b < n)%nat ->
     listed a b = true -> listed b a = true -> w a b = w b a) ->
  exists W,
    Gauss.borrow_all n indices W0 = Ok W
    /\ List.length W = n
    /\ forall a b, (a < n)%nat -> (b < n)%nat ->
         row_get (nth a W []) b = row_get (nth b W []) a.
Proof.
  intros H0 Hsym. unfold Gauss.borrow_all.
  destruct (@borrow_fold (Gauss.edges indices) W0 [] H0)
    as (W & HW & HlenW & Hread).
  - apply Forall_forall. intros [i j] Hin. cbn [fst snd].
    apply edges_spec in Hin. destruct Hin as [Hi Hj].
    split; [exact Hi|]. split; [|apply listed_in; exact Hj].
    rewrite Forall_forall in Hrange.
    assert (Hrow : In (nth i indices []) indices) by (apply nth_In; lia).
    pose proof (Hrange _ Hrow) as Hr. rewrite Forall_forall in Hr.
    apply Hr, Hj.
  - exists W. split; [exact HW|]. split; [exact HlenW|].
    cbn [app] in Hread. intros a b Ha Hb.
    rewrite (Hread a b Ha Hb), (Hread b a Hb Ha).
    rewrite (processed_all a Hb), (processed_all b Ha).
    destruct (listed a b) eqn:Hab, (listed b a) eqn:Hba; try reflexivity.
    apply Hsym; assumption.
Qed.

(** What the loop returns, entry by entry. *)
Lemma borrow_all_closed (W0 : Gauss.lil) :
  reads W0 (@nil (nat * nat)) ->
  exists W,
    Gauss.borrow_all n indices W0 = Ok W
    /\ List.length W = n
    /\ forall a b, (a < n)%nat -> (b < n)%nat ->
         row_get (nth a W []) b
         = if listed a b then w a b
           else if listed b a then w b a else 0.
Proof.
  intros H0. unfold Gauss.borrow_all.
  destruct (@borrow_fold (Gauss.edges indices) W0 [] H0)
    as (W & HW & HlenW & Hread).
  - apply Forall_forall. intros [i j] Hin. cbn [fst snd].
    apply edges_spec in Hin. destruct Hin as [Hi Hj].
    split; [exact Hi|]. split; [|apply listed_in; exact Hj].
    rewrite Forall_forall in Hrange.
    assert (Hrow : In (nth i indices []) indices) by (apply nth_In; lia).
    pose proof (Hrange _ Hrow) as Hr. rewrite Forall_forall in Hr.
    apply Hr, Hj.
  - exists W. split; [exact HW|]. split; [exact HlenW|].
    cbn [app] in Hread. intros a b Ha Hb.
    rewrite (Hread a b Ha Hb), (processed_all a Hb). reflexivity.
Qed.

End Borrow.

(** * The Gauss kernel on sparse distances *)

Lemma row_from_sparse_exact (row : list (nat * R)) (i m : nat) :
  NoDup (map fst row) ->
  eliminate_zeros_row row = row ->
  List.length row = m ->
  SparseBuilder.row_from_sparse row i (S m)
  = Ok (i :: map fst row, 0 :: map snd row).
Proof.
  intros Hnd Helim Hlen. unfold SparseBuilder.row_from_sparse.
  rewrite Helim.
  assert (Hvalues : map (row_get row) (map fst row) = map snd row).
  { rewrite map_map. apply map_ext_in. intros [c v] Hin. cbn [fst snd].
    apply (row_get_nodup _ _ _ Hnd Hin). }
  rewrite Hvalues, length_map, Hlen, Nat.ltb_irrefl.
  unfold SparseBuilder.assign_tail.
  rewrite !length_map, Hlen, Nat.eqb_refl. reflexivity.
Qed.

Lemma map_snd_enumerate {A B : Type} (F : A -> B) (l : list A) :
  map (fun p : nat * A => F (snd p)) (combine (seq 0 (List.length l)) l)
  = map F l.
Proof.
  rewrite <- (map_map snd F).
  rewrite map_snd_combine by apply length_seq. reflexivity.
Qed.

Lemma eliminate_zeros_none (row : list (nat * R)) :
  Forall (fun e => snd e <> 0) row -> eliminate_zeros_row row = row.
Proof.
  induction 1 as [|e row He _ IH]; [reflexivity|].
  unfold eliminate_zeros_row in *. cbn [filter].
  rewrite Reqb_false by exact He. cbn [negb]. rewrite IH. reflexivity.
Qed.

Section SparseKernel.

Variable D : csr.
Variable k : nat.

Notation n := (List.length (csr_rows D)).

Hypothesis Hcols : n_cols D = n.
Hypothesis Hk : (2 <= k)%nat.
Hypothesis Hrows :
  Forall (fun row =>
            NoDup (map fst row)
            /\ List.length row = (k - 1)%nat
            /\ Forall (fun e => (fst e < n)%nat /\ snd e <> 0) row)
         (csr_rows D).

Notation sq := (fun e : nat * R => (fst e, snd e ^ 2)).
Notation Dsq := (map (map sq) (csr_rows D)).

Lemma sq_row_facts (row : list (nat * R)) :
  In row (csr_rows D) ->
  NoDup (map fst (map sq row))
  /\ eliminate_zeros_row (map sq row) = map sq row
  /\ List.length (map sq row) = (k - 1)%nat
  /\ map fst (map sq row) = map fst row.
Proof.
  intros Hin. rewrite Forall_forall in Hrows.
  destruct (Hrows row Hin) as (Hnd & Hlen & Hall).
  assert (Hfst : map fst (map sq row) = map fst row)
    by (rewrite map_map; reflexivity).
  rewrite Hfst, length_map.
  split; [exact Hnd|]. split; [|split; [exact Hlen | reflexivity]].
  apply eliminate_zeros_none. apply Forall_forall. intros e He.
  apply in_map_iff in He. destruct He as (e0 & <- & He0).
  rewrite Forall_forall in Hall. cbn [snd].
  apply pow_nonzero. apply (Hall e0 He0).
Qed.

Lemma sparse_search :
  SparseBuilder.get_indices_distances_from_sparse_matrix
    (mkCsr (n_cols D) Dsq) k
  = Ok (map (fun p : nat * list (nat * R) => fst p :: map fst (snd p))
            (combine (seq 0 n) Dsq),
        map (fun p : nat * list (nat * R) => 0 :: map snd (snd p))
            (combine (seq 0 n) Dsq)).
Proof.
  unfold SparseBuilder.get_indices_distances_from_sparse_matrix.
  cbn [csr_rows]. rewrite length_map.
  rewrite (@mapM_ok _ _ _
             (fun p : nat * list (nat * R) =>
                (fst p :: map fst (snd p), 0 :: map snd (snd p)))).
  - cbn [bind]. rewrite !map_map. reflexivity.
  - intros [i row] Hin. cbn [fst snd]. apply in_combine_r in Hin.
    apply in_map_iff in Hin. destruct Hin as (row0 & <- & Hrow0).
    destruct (sq_row_facts _ Hrow0) as (Hnd & Helim & Hlen & _).
    replace k with (S (k - 1)) at 1 by lia.
    apply row_from_sparse_exact; assumption.
Qed.

Lemma length_Dsq : List.length Dsq = n.
Proof. apply length_map. Qed.

Lemma sparse_indices :
  Gauss.drop_first
    (map (fun p : nat * list (nat * R) => fst p :: map fst (snd p))
         (combine (seq 0 n) Dsq))
  = map (map fst) (csr_rows D).
Proof.
  unfold Gauss.drop_first. rewrite map_map. cbn [tl].
  rewrite <- length_Dsq at 1.
  rewrite (map_snd_enumerate (map fst) Dsq), map_map.
  apply map_ext. intros row. rewrite map_map. reflexivity.
Qed.

Lemma sparse_distances_sq :
  Gauss.drop_first
    (map (fun p : nat * list (nat * R) => 0 :: map snd (snd p))
         (combine (seq 0 n) Dsq))
  = map (map (fun e => snd e ^ 2)) (csr_rows D).
Proof.
  unfold Gauss.drop_first. rewrite map_map. cbn [tl].
  rewrite <- length_Dsq at 1.
  rewrite (map_snd_enumerate (map snd) Dsq), map_map.
  apply map_ext. intros row. rewrite map_map. reflexivity.
Qed.

Lemma sparse_sigmas :
  mapM (fun row : list R =>
          match row with
          | [] => Raise (Unmodelled "median of an empty row is nan")
          | _ => Ok (median row)
          end)
       (map (map (fun e => snd e ^ 2)) (csr_rows D))
  = Ok (Gauss.sigmas_sq_sparse D).
Proof.
  unfold Gauss.sigmas_sq_sparse.
  rewrite (@mapM_ok _ _ _ median).
  - rewrite map_map. reflexivity.
  - intros row Hin. apply in_map_iff in Hin.
    destruct Hin as (row0 & <- & Hrow0).
    rewrite Forall_forall in Hrows.
    destruct (Hrows row0 Hrow0) as (_ & Hlen & _).
    destruct row0 as [|e row0]; [cbn in Hlen; lia | reflexivity].
Qed.

Lemma length_sigmas_sq : List.length (Gauss.sigmas_sq_sparse D) = n.
Proof. unfold Gauss.sigmas_sq_sparse. apply length_map. Qed.

Lemma weight_sparse_closed (i j : nat) (dsq : R) :
  (j < n)%nat ->
  Gauss.weight_sparse (map sqrt (Gauss.sigmas_sq_sparse D))
                      (Gauss.sigmas_sq_sparse D) i j dsq
  = Ok (Gauss.weight_closed (Gauss.sigmas_sq_sparse D) i j dsq).
Proof.
  intros Hj. unfold Gauss.weight_sparse, Gauss.weight_closed.
  rewrite (@index_nth _ (map sqrt (Gauss.sigmas_sq_sparse D)) j 0)
    by (rewrite length_map, length_sigmas_sq; exact Hj).
  rewrite (@index_nth _ (Gauss.sigmas_sq_sparse D) j 0)
    by (rewrite length_sigmas_sq; exact Hj).
  cbn [bind]. cbv zeta.
  rewrite (@nth_map_in _ _ sqrt (Gauss.sigmas_sq_sparse D) j 0 0)
    by (rewrite length_sigmas_sq; exact Hj).
  destruct (Nat.lt_ge_cases i n) as [Hi|Hi].
  - rewrite (@nth_map_in _ _ sqrt (Gauss.sigmas_sq_sparse D) i 0 0)
      by (rewrite length_sigmas_sq; exact Hi).
    reflexivity.
  - rewrite !(nth_overflow _ _ (n := i))
      by (rewrite ?length_map, length_sigmas_sq; exact Hi).
    rewrite sqrt_0. reflexivity.
Qed.

Lemma sparse_data :
  mapM (fun ir : nat * list (nat * R) =>
          mapM (fun e : nat * R =>
                  w <- Gauss.weight_sparse
                         (map sqrt (Gauss.sigmas_sq_sparse D))
                         (Gauss.sigmas_sq_sparse D)
                         (fst ir) (fst e) (snd e) ;;
                  Ok (fst e, w))
               (snd ir))
       (combine (seq 0 (List.length Dsq)) Dsq)
  = Ok (map (fun ir : nat * list (nat * R) =>
               map (fun e : nat * R =>
                      (fst e,
                       Gauss.weight_closed (Gauss.sigmas_sq_sparse D)
                                           (fst ir) (fst e) (snd e)))
                   (snd ir))
            (combine (seq 0 (List.length Dsq)) Dsq)).
Proof.
  apply mapM_ok. intros [i row] Hin. cbn [fst snd].
  apply in_combine_r in Hin. apply in_map_iff in Hin.
  destruct Hin as (row0 & <- & Hrow0).
  apply mapM_ok. intros e He. apply in_map_iff in He.
  destruct He as (e0 & <- & He0). cbn [fst snd].
  rewrite weight_sparse_closed; [reflexivity|].
  rewrite Forall_forall in Hrows.
  destruct (Hrows row0 Hrow0) as (_ & _ & Hall).
  rewrite Forall_forall in Hall. apply (Hall e0 He0).
Qed.

Hypothesis Hsym :
  forall i j, (i < n)%nat -> (j < n)%nat ->
    In j (map fst (nth i (csr_rows D) [])) ->
    In i (map fst (nth j (csr_rows D) [])) ->
    csr_get D i j = csr_get D j i.

Notation ss := (Gauss.sigmas_sq_sparse D).
Notation w :=
  (fun a b : nat => Gauss.weight_closed ss a b (row_get (nth a Dsq []) b)).
Notation data :=
  (map (fun ir : nat * list (nat * R) =>
          map (fun e : nat * R =>
                 (fst e, Gauss.weight_closed ss (fst ir) (fst e) (snd e)))
              (snd ir))
       (combine (seq 0 (List.length Dsq)) Dsq)).

Lemma row_in (a : nat) : (a < n)%nat -> In (nth a (csr_rows D) []) (csr_rows D).
Proof. intros Ha. apply nth_In. exact Ha. Qed.

Lemma nth_Dsq (a : nat) :
  (a < n)%nat -> nth a Dsq [] = map sq (nth a (csr_rows D) []).
Proof.
  intros Ha. apply (@nth_map_in _ _ (map sq) (csr_rows D) a [] [] Ha).
Qed.

(** What the weights read before the loop. *)
Lemma sparse_weights_read (a b : nat) :
  (a < n)%nat -> (b < n)%nat ->
  row_get (nth a (map sum_duplicates data) []) b
  = if existsb (Nat.eqb b) (nth a (map (map fst) (csr_rows D)) [])
    then w a b else 0.
Proof.
  intros Ha Hb.
  rewrite (@nth_map_in _ _ sum_duplicates data a [] [])
    by (rewrite length_map, length_combine, length_seq, Nat.min_id,
          length_Dsq; exact Ha).
  rewrite row_get_sum_duplicates.
  rewrite (@nth_enumerate_map _ _ _ Dsq a [] [])
    by (rewrite length_Dsq; exact Ha).
  cbn [fst snd].
  rewrite (@nth_map_in _ _ (map fst) (csr_rows D) a [] [] Ha).
  rewrite (nth_Dsq Ha).
  set (row := nth a (csr_rows D) []).
  destruct (sq_row_facts _ (row_in Ha)) as (Hnd & _ & _ & Hfst).
  fold row in Hnd, Hfst.
  assert (Hfst' : map fst
                    (map (fun e : nat * R =>
                            (fst e, Gauss.weight_closed ss a (fst e) (snd e)))
                         (map sq row))
                  = map fst row)
    by (rewrite !map_map; reflexivity).
  destruct (existsb (Nat.eqb b) (map fst row)) eqn:E.
  - apply existsb_exists in E. destruct E as (b' & Hin & Eb).
    apply Nat.eqb_eq in Eb. subst b'.
    apply in_map_iff in Hin. destruct Hin as ([c v] & Hc & Hin).
    cbn [fst] in Hc. subst c.
    assert (Hv : row_get (map sq row) b = v ^ 2).
    { apply (row_get_nodup _ _ _ Hnd).
      apply in_map_iff. exists (b, v). split; [reflexivity | exact Hin]. }
    rewrite Hv.
    apply row_get_nodup.
    + rewrite Hfst'. rewrite <- Hfst. exact Hnd.
    + apply in_map_iff. exists (b, v ^ 2). split; [reflexivity|].
      apply in_map_iff. exists (b, v). split; [reflexivity | exact Hin].
  - unfold row_get. rewrite row_get_absent; [reflexivity|].
    rewrite Hfst'. intros Hin.
    assert (existsb (Nat.eqb b) (map fst row) = true); [|congruence].
    apply existsb_exists. exists b. split; [exact Hin | apply Nat.eqb_refl].
Qed.

Lemma stored_square (a b : nat) :
  (a < n)%nat ->
  In b (map fst (nth a (csr_rows D) [])) ->
  row_get (nth a Dsq []) b = csr_get D a b ^ 2.
Proof.
  intros Ha Hin. rewrite (nth_Dsq Ha). unfold csr_get.
  set (row := nth a (csr_rows D) []) in *.
  destruct (sq_row_facts _ (row_in Ha)) as (Hnd & _ & _ & Hfst).
  fold row in Hnd, Hfst.
  apply in_map_iff in Hin. destruct Hin as ([c v] & Hc & Hin).
  cbn [fst] in Hc. subst c.
  rewrite (@row_get_nodup row b v); [| rewrite <- Hfst; exact Hnd | exact Hin].
  apply (row_get_nodup _ _ _ Hnd).
  apply in_map_iff. exists (b, v). split; [reflexivity | exact Hin].
Qed.

Lemma existsb_eqb_in (b : nat) (l : list nat) :
  existsb (Nat.eqb b) l = true -> In b l.
Proof.
  intros H. apply existsb_exists in H. destruct H as (x & Hx & E).
  apply Nat.eqb_eq in E. subst x. exact Hx.
Qed.

Lemma sparse_weights_symmetric (a b : nat) :
  (a < n)%nat -> (b < n)%nat ->
  existsb (Nat.eqb b) (nth a (map (map fst) (csr_rows D)) []) = true ->
  existsb (Nat.eqb a) (nth b (map (map fst) (csr_rows D)) []) = true ->
  w a b = w b a.
Proof.
  intros Ha Hb Hab Hba.
  rewrite (@nth_map_in _ _ (map fst) (csr_rows D) a [] [] Ha) in Hab.
  rewrite (@nth_map_in _ _ (map fst) (csr_rows D) b [] [] Hb) in Hba.
  apply existsb_eqb_in in Hab. apply existsb_eqb_in in Hba.
  cbv beta.
  rewrite (@stored_square a b Ha Hab), (@stored_square b a Hb Hba).
  rewrite (Hsym Ha Hb Hab Hba).
  unfold Gauss.weight_closed. cbv zeta.
  rewrite (Rplus_comm (nth a ss 0)).
  replace (2 * sqrt (nth a ss 0) * sqrt (nth b ss 0))
    with (2 * sqrt (nth b ss 0) * sqrt (nth a ss 0)) by ring.
  reflexivity.
Qed.

Lemma gauss_sparse_symmetric :
  exists W,
    Gauss.gauss_sparse D k = Ok W
    /\ List.length (csr_rows W) = n
    /\ forall i j, (i < n)%nat -> (j < n)%nat ->
         csr_get W i j = csr_get W j i.
Proof.
  unfold Gauss.gauss_sparse.
  rewrite sparse_search. cbn [bind fst snd].
  rewrite sparse_indices, sparse_distances_sq, sparse_sigmas. cbn [bind].
  rewrite sparse_data. cbn [bind]. rewrite Hcols.
  destruct (@borrow_all_symmetric n (map (map fst) (csr_rows D)) w)
    with (W0 := map sum_duplicates data) as (W & HW & HlenW & Hsymm).
  - apply length_map.
  - apply Forall_forall. intros r Hr. apply in_map_iff in Hr.
    destruct Hr as (row & <- & Hrow).
    rewrite Forall_forall in Hrows.
    destruct (Hrows row Hrow) as (_ & _ & Hall).
    apply Forall_forall. intros c Hc. apply in_map_iff in Hc.
    destruct Hc as (e & <- & He). rewrite Forall_forall in Hall.
    apply (Hall e He).
  - split.
    + transitivity (List.length data); [apply length_map|].
      transitivity (List.length (combine (seq 0 (List.length Dsq)) Dsq));
        [apply length_map|].
      rewrite length_combine, length_seq, Nat.min_id. apply length_Dsq.
    + intros a b Ha Hb. cbn [existsb].
      apply sparse_weights_read; assumption.
  - intros a b Ha Hb Hab Hba.
    apply sparse_weights_symmetric; assumption.
  - rewrite HW. cbn [bind]. eexists. split; [reflexivity|].
    cbn [csr_rows]. split; [exact HlenW|].
    intros i j Hi Hj. unfold csr_get. cbn [csr_rows].
    apply Hsymm; assumption.
Qed.

(** The sparse path in closed form. *)
Lemma gauss_sparse_closed :
  exists W,
    Gauss.gauss_sparse D k = Ok W
    /\ forall i j, (i < n)%nat -> (j < n)%nat ->
         csr_get W i j
         = if existsb (Nat.eqb j) (map fst (nth i (csr_rows D) []))
           then Gauss.weight_closed ss i j (csr_get D i j ^ 2)
           else if existsb (Nat.eqb i) (map fst (nth j (csr_rows D) []))
                then Gauss.weight_closed ss j i (csr_get D j i ^ 2)
                else 0.
Proof.
  unfold Gauss.gauss_sparse.
  rewrite sparse_search. cbn [bind fst snd].
  rewrite sparse_indices, sparse_distances_sq, sparse_sigmas. cbn [bind].
  rewrite sparse_data. cbn [bind]. rewrite Hcols.
  destruct (@borrow_all_closed n (map (map fst) (csr_rows D)) w)
    with (W0 := map sum_duplicates data) as (W & HW & HlenW & Hread).
  - apply length_map.
  - apply Forall_forall. intros r Hr. apply in_map_iff in Hr.
    destruct Hr as (row & <- & Hrow).
    rewrite Forall_forall in Hrows.
    destruct (Hrows row Hrow) as (_ & _ & Hall).
    apply Forall_forall. intros c Hc. apply in_map_iff in Hc.
    destruct Hc as (e & <- & He). rewrite Forall_forall in Hall.
    apply (Hall e He).
  - split.
    + transitivity (List.length data); [apply length_map|].
      transitivity (List.length (combine (seq 0 (List.length Dsq)) Dsq));
        [apply length_map|].
      rewrite length_combine, length_seq, Nat.min_id. apply length_Dsq.
    + intros a b Ha Hb. cbn [existsb].
      apply sparse_weights_read; assumption.
  - rewrite HW. cbn [bind]. eexists. split; [reflexivity|].
    intros i j Hi Hj. unfold csr_get at 1. cbn [csr_rows].
    rewrite (Hread i j Hi Hj).
    rewrite (@nth_map_in _ _ (map fst) (csr_rows D) i [] [] Hi).
    rewrite (@nth_map_in _ _ (map fst) (csr_rows D) j [] [] Hj).
    cbv beta.
    destruct (existsb (Nat.eqb j) (map fst (nth i (csr_rows D) []))) eqn:Eij.
    + rewrite (@stored_square i j Hi (existsb_eqb_in _ _ Eij)). reflexivity.
    + destruct (existsb (Nat.eqb i) (map fst (nth j (csr_rows D) [])))
        eqn:Eji; [|reflexivity].
      rewrite (@stored_square j i Hj (existsb_eqb_in _ _ Eji)). reflexivity.
Qed.

End SparseKernel.




(** * The self-distance in the sparse distance matrix *)

(** A slot whose value is not zero holds a neighbour other than the
    observation itself, with the distance listed for it. *)
Lemma slot_nonzero knn_indices knn_dists n_obs i j r c v :
  SparseBuilder.slot knn_indices knn_dists n_obs i j = Ok (r, c, v) ->
  v <> 0 ->
  r = i /\ c <> Z.of_nat i
  /\ nth_error (nth i knn_indices []) j = Some c
  /\ nth_error (nth i knn_dists []) j = Some v.
Proof.
  unfold SparseBuilder.slot, index.
  destruct (nth_error knn_indices i) as [row|] eqn:Hrow; [|discriminate].
  cbn [bind].
  destruct (nth_error row j) as [c0|] eqn:Hc; [|discriminate].
  cbn [bind].
  rewrite (nth_error_nth _ _ [] Hrow).
  destruct (Z.eqb c0 (-1)).
  - intros H Hv. injection H as <- <- <-. contradiction.
  - destruct (Z.eqb c0 (Z.of_nat i)) eqn:E.
    + cbn [bind]. destruct (Nat.leb n_obs i); [discriminate|].
      intros H Hv. injection H as <- <- <-. contradiction.
    + apply Z.eqb_neq in E.
      destruct (nth_error knn_dists i) as [dr|] eqn:Hdr; [|discriminate].
      cbn [bind]. destruct (nth_error dr j) as [d|] eqn:Hd; [|discriminate].
      cbn [bind]. destruct (Nat.leb n_obs i); [discriminate|].
      intros H Hv. injection H as <- <- <-.
      rewrite (nth_error_nth _ _ [] Hdr). auto.
Qed.

Lemma slots_nonzero knn_indices knn_dists n_obs n_neighbors entries :
  SparseBuilder.slots knn_indices knn_dists n_obs n_neighbors = Ok entries ->
  forall r c v, In (r, c, v) entries -> v <> 0 ->
    c <> Z.of_nat r
    /\ exists j, nth_error (nth r knn_indices []) j = Some c
                 /\ nth_error (nth r knn_dists []) j = Some v.
Proof.
  unfold SparseBuilder.slots. intros H r c v Hin Hv.
  destruct (mapM _ (seq 0 (List.length knn_indices))) as [written|e] eqn:Hw;
    [|discriminate].
  cbn [bind] in H. injection H as <-.
  apply in_app_or in Hin. destruct Hin as [Hin|Hin].
  - apply in_concat in Hin. destruct Hin as (ws & Hws & Hin).
    destruct (mapM_in _ _ Hw _ Hws) as (i & _ & Hi).
    destruct (mapM_in _ _ Hi _ Hin) as (j & _ & Hj).
    destruct (@slot_nonzero _ _ _ _ _ _ _ _ Hj Hv) as (-> & Hc & Hi' & Hd).
    split; [exact Hc|]. exists j. auto.
  - apply repeat_spec in Hin. injection Hin as -> -> ->. contradiction.
Qed.

Lemma insert_entry_pos (e : nat * R) (row : list (nat * R)) :
  0 < snd e -> Forall (fun x => 0 < snd x) row ->
  Forall (fun x => 0 < snd x) (insert_entry e row).
Proof.
  intros He. induction 1 as [|e' row He' Hrow IH]; cbn [insert_entry].
  - constructor; [exact He|constructor].
  - destruct (Nat.ltb (fst e) (fst e')).
    + constructor; [exact He|]. constructor; assumption.
    + destruct (Nat.eqb (fst e) (fst e')).
      * constructor; [cbn [snd]; lra|exact Hrow].
      * constructor; assumption.
Qed.

(** Summing duplicates of positive values leaves positive values. *)
Lemma sum_duplicates_pos (row : list (nat * R)) :
  Forall (fun x => 0 < snd x) row ->
  Forall (fun x => 0 < snd x) (sum_duplicates row).
Proof.
  unfold sum_duplicates.
  assert (H : forall acc,
            Forall (fun x => 0 < snd x) acc ->
            Forall (fun x : nat * R => 0 < snd x) row ->
            Forall (fun x => 0 < snd x)
                   (fold_left (fun acc e => insert_entry e acc) row acc)).
  { induction row as [|e row IH]; intros acc Hacc Hrow; cbn [fold_left].
    - exact Hacc.
    - inversion Hrow as [|x l He Hrow']; subst.
      apply IH; [apply insert_entry_pos; assumption|exact Hrow']. }
  intros Hrow. apply H; [constructor|exact Hrow].
Qed.

Lemma in_combine_nth_error {A B : Type} (l : list A) (l' : list B)
    (a : A) (b : B) :
  In (a, b) (combine l l') ->
  exists j, nth_error l j = Some a /\ nth_error l' j = Some b.
Proof.
  revert l'. induction l as [|x l IH]; intros [|y l'] Hin;
    try contradiction.
  cbn [combine] in Hin. destruct Hin as [Heq|Hin].
  - injection Heq as -> ->. exists 0%nat. split; reflexivity.
  - destruct (IH _ Hin) as (j & H1 & H2). exists (S j). split; assumption.
Qed.

Lemma nth_error_seq_eq (n i i' : nat) :
  nth_error (seq 0 n) i = Some i' -> i' = i /\ (i < n)%nat.
Proof.
  intros Hi.
  assert (Hlt : (i < List.length (seq 0 n))%nat)
    by (apply nth_error_Some; rewrite Hi; discriminate).
  rewrite length_seq in Hlt.
  rewrite nth_error_seq in Hi. apply Nat.ltb_lt in Hlt as Hb.
  rewrite Hb in Hi. injection Hi as <-. split; [reflexivity|exact Hlt].
Qed.

(** The entries the umap variant stores in row [i]. *)
Lemma umap_matrix_stored knn_indices knn_dists n_obs n_neighbors M :
  SparseBuilder.get_sparse_matrix_from_indices_distances_umap
    knn_indices knn_dists n_obs n_neighbors = Ok M ->
  forall i row c v,
    nth_error (csr_rows M) i = Some row -> In (c, v) row ->
    (exists j d,
        nth_error (nth i knn_indices []) j = Some (Z.of_nat c)
        /\ nth_error (nth i knn_dists []) j = Some d /\ d <> 0)
    /\ (Forall (Forall (fun d => 0 <= d)) knn_dists -> 0 < v).
Proof.
  unfold SparseBuilder.get_sparse_matrix_from_indices_distances_umap.
  destruct (SparseBuilder.slots _ _ _ _) as [entries|e] eqn:Hs;
    [|discriminate].
  cbn [bind]. unfold SparseBuilder.coo_matrix.
  destruct (forallb _ entries); [|discriminate].
  destruct (forallb _ entries); [|discriminate].
  destruct (forallb _ entries) eqn:Hnonneg; [|discriminate].
  cbn [bind]. intros H. injection H as <-.
  unfold SparseBuilder.tocsr. cbn [csr_rows].
  intros i row c v Hrow Hin.
  rewrite nth_error_map in Hrow.
  destruct (nth_error (seq 0 n_obs) i) as [i'|] eqn:Hi; [|discriminate].
  destruct (@nth_error_seq_eq _ _ _ Hi) as [-> _].
  cbn [option_map] in Hrow. injection Hrow as <-.
  set (kept := filter (fun e : nat * Z * R => Nat.eqb (fst (fst e)) i)
                      (SparseBuilder.coo_eliminate_zeros entries)) in *.
  assert (Hkept : forall r c0 v0, In (r, c0, v0) kept ->
            r = i /\ (0 <= c0)%Z /\ v0 <> 0 /\ In (r, c0, v0) entries).
  { intros r c0 v0 Hk. apply filter_In in Hk. destruct Hk as [Hk Hr].
    cbn [fst] in Hr. apply Nat.eqb_eq in Hr.
    unfold SparseBuilder.coo_eliminate_zeros in Hk.
    apply filter_In in Hk. destruct Hk as [Hk Hv]. cbn [snd] in Hv.
    rewrite forallb_forall in Hnonneg.
    pose proof (Hnonneg _ Hk) as Hc0. cbn [fst snd] in Hc0.
    apply Z.leb_le in Hc0.
    repeat split; try assumption.
    intros ->. rewrite Reqb_true in Hv by reflexivity. discriminate. }
  split.
  - apply sum_duplicates_cols in Hin. destruct Hin as (v' & Hin).
    apply in_map_iff in Hin. destruct Hin as ([[r c0] v0] & Heq & Hin).
    cbn [fst snd] in Heq. injection Heq as <- <-.
    destruct (Hkept _ _ _ Hin) as (-> & Hc0 & Hv0 & He).
    destruct (@slots_nonzero _ _ _ _ _ Hs _ _ _ He Hv0) as (_ & j & Hj & Hd).
    exists j, v0. rewrite Z2Nat.id by exact Hc0. auto.
  - intros Hnn.
    assert (Hpos : Forall (fun x : nat * R => 0 < snd x)
              (map (fun e : nat * Z * R => (Z.to_nat (snd (fst e)), snd e))
                   kept)).
    { apply Forall_forall. intros x Hx. apply in_map_iff in Hx.
      destruct Hx as ([[r c0] v0] & <- & Hk). cbn [fst snd].
      destruct (Hkept _ _ _ Hk) as (-> & _ & Hv0 & He).
      destruct (@slots_nonzero _ _ _ _ _ Hs _ _ _ He Hv0) as (_ & j & _ & Hd).
      assert (0 <= v0); [|lra].
      rewrite Forall_forall in Hnn.
      destruct (nth_in_or_default i knn_dists []) as [Hrow|Hrow].
      - pose proof (Hnn _ Hrow) as Hr. rewrite Forall_forall in Hr.
        apply Hr. eapply nth_error_In. exact Hd.
      - rewrite Hrow in Hd. destruct j; discriminate. }
    pose proof (sum_duplicates_pos Hpos) as Hall.
    rewrite Forall_forall in Hall. apply (Hall (c, v) Hin).
Qed.

(** C6, amended: the matrix built from arrays of shape
    [(n_obs, n_neighbors)] stores no self-distance and no other zero.
    In the umap variant, row [i] holds no entry at column [i]; each entry
    it holds is at a column listed for [i] in a slot whose distance is not
    zero (the slots indexed -1 and the zero-valued slots are dropped with
    the self-distance 0), and when no distance is negative every stored
    value is positive. In the numpy variant, for [n_neighbors >= 1], every
    stored entry is a listed slot with its distance, and that distance is
    not zero. *)
Theorem C6_self_distance_is_not_stored :
  (forall (knn_indices : list (list Z)) (knn_dists : list (list R))
          (n_obs n_neighbors : nat),
      List.length knn_indices = n_obs ->
      Forall (fun r => List.length r = n_neighbors) knn_indices ->
      List.length knn_dists = n_obs ->
      Forall (fun r => List.length r = n_neighbors) knn_dists ->
      Forall (Forall (fun c => (-1 <= c < Z.of_nat n_obs)%Z)) knn_indices ->
      exists M,
        SparseBuilder.get_sparse_matrix_from_indices_distances_umap
          knn_indices knn_dists n_obs n_neighbors = Ok M
        /\ List.length (csr_rows M) = n_obs
        /\ forall i row c v,
             nth_error (csr_rows M) i = Some row -> In (c, v) row ->
             c <> i
             /\ (exists j d,
                    nth_error (nth i knn_indices []) j = Some (Z.of_nat c)
                    /\ nth_error (nth i knn_dists []) j = Some d
                    /\ d <> 0)
             /\ (Forall (Forall (fun d => 0 <= d)) knn_dists -> 0 < v))
  /\ (forall (indices : list (list nat)) (distances : list (list R))
             (n_obs n_neighbors : nat),
        (1 <= n_neighbors)%nat ->
        List.length indices = n_obs ->
        Forall (fun r => List.length r = n_neighbors) indices ->
        List.length distances = n_obs ->
        Forall (fun r => List.length r = n_neighbors) distances ->
        exists D,
          SparseBuilder.get_sparse_matrix_from_indices_distances_numpy
            indices distances n_obs n_neighbors = Ok D
          /\ List.length (csr_rows D) = n_obs
          /\ forall i row c v,
               nth_error (csr_rows D) i = Some row -> In (c, v) row ->
               v <> 0
               /\ exists j,
                    nth_error (nth i indices []) j = Some c
                    /\ nth_error (nth i distances []) j = Some v).
Proof.
  split.
  - intros knn_indices knn_dists n_obs n_neighbors H1 H2 H3 H4 H5.
    destruct (@umap_matrix_returns knn_indices knn_dists n_obs n_neighbors
                H1 H2 H3 H4 H5) as (M & HM).
    exists M. split; [exact HM|].
    destruct (umap_matrix_entries _ _ _ _ HM) as [Hlen Hent].
    split; [exact Hlen|].
    intros i row c v Hrow Hin.
    destruct (Hent i row c v Hrow Hin) as [Hc _].
    destruct (@umap_matrix_stored _ _ _ _ _ HM i row c v Hrow Hin)
      as [Hslot Hpos].
    split; [exact Hc|]. split; [exact Hslot | exact Hpos].
  - intros indices distances n_obs n_neighbors Hk H1 H2 H3 H4.
    unfold SparseBuilder.get_sparse_matrix_from_indices_distances_numpy.
    replace (Nat.eqb n_neighbors 0) with false
      by (symmetry; apply Nat.eqb_neq; lia).
    rewrite (length_concat_uniform H2), (length_concat_uniform H4), H1, H3.
    rewrite Nat.eqb_refl. cbn [negb]. rewrite Nat.ltb_irrefl.
    eexists. split; [reflexivity|]. cbn [csr_rows].
    split; [rewrite length_map, length_seq; reflexivity|].
    intros i row c v Hrow Hin.
    rewrite nth_error_map in Hrow.
    destruct (nth_error (seq 0 n_obs) i) as [i'|] eqn:Hi; [|discriminate].
    destruct (@nth_error_seq_eq _ _ _ Hi) as [-> Hlt].
    cbn [option_map] in Hrow. injection Hrow as <-.
    unfold eliminate_zeros_row in Hin. apply filter_In in Hin.
    destruct Hin as [Hin Hv]. cbn [snd] in Hv.
    split.
    + intros ->. rewrite Reqb_true in Hv by reflexivity. discriminate.
    + rewrite slice_combine in Hin.
      rewrite (@slice_concat_uniform _ indices n_neighbors i H2) in Hin
        by lia.
      rewrite (@slice_concat_uniform _ distances n_neighbors i H4) in Hin
        by lia.
      apply in_combine_nth_error. exact Hin.
Qed.

Lemma C6_witness :
  (exists M,
      SparseBuilder.get_sparse_matrix_from_indices_distances_umap
        [[0; 1]; [1; 0]]%Z [[0; 1]; [0; 1]] 2 2 = Ok M
      /\ List.length (csr_rows M) = 2%nat)
  /\ exists D,
       SparseBuilder.get_sparse_matrix_from_indices_distances_numpy
         [[0; 1]; [1; 0]]%nat [[0; 1]; [0; 1]] 2 2 = Ok D
       /\ List.length (csr_rows D) = 2%nat.
Proof.
  destruct C6_self_distance_is_not_stored as [Humap Hnumpy]. split.
  - destruct (Humap [[0; 1]; [1; 0]]%Z [[0; 1]; [0; 1]] 2%nat 2%nat)
      as (M & HM & Hlen & _).
    + reflexivity.
    + repeat constructor.
    + reflexivity.
    + repeat constructor.
    + repeat constructor; cbn; lia.
    + exists M. split; assumption.
  - destruct (Hnumpy [[0; 1]; [1; 0]]%nat [[0; 1]; [0; 1]] 2%nat 2%nat)
      as (D & HD & Hlen & _).
    + lia.
    + reflexivity.
    + repeat constructor.
    + reflexivity.
    + repeat constructor.
    + exists D. split; assumption.
Defined.

(** C6 as stated fails: for two observations, each listing itself at
    distance 0 and the other at distance 1, both variants store the single
    entry of value 1 in each row and nothing at [(0, 0)] and [(1, 1)]. *)
Lemma C6_counterexample :
  SparseBuilder.get_sparse_matrix_from_indices_distances_umap
    [[0; 1]; [1; 0]]%Z [[0; 1]; [0; 1]] 2 2
  = Ok (mkCsr 2 [[(1%nat, 1)]; [(0%nat, 1)]])
  /\ SparseBuilder.get_sparse_matrix_from_indices_distances_numpy
       [[0; 1]; [1; 0]]%nat [[0; 1]; [0; 1]] 2 2
     = Ok (mkCsr 2 [[(1%nat, 1)]; [(0%nat, 1)]]).
Proof.
  split.
  - unfold SparseBuilder.get_sparse_matrix_from_indices_distances_umap,
      SparseBuilder.slots, SparseBuilder.coo_matrix, SparseBuilder.tocsr,
      SparseBuilder.coo_eliminate_zeros, sum_duplicates.
    r_run. reflexivity.
  - unfold SparseBuilder.get_sparse_matrix_from_indices_distances_numpy,
      eliminate_zeros_row, slice.
    r_run. reflexivity.
Qed.

(** * The neighbour count in use and the count on record *)

(** The arrays of the exact search have [n_neighbors] columns. *)
Lemma row_from_dense_width (row : list R) (k : nat) (ind : list nat)
    (dis : list R) :
  SparseBuilder.row_from_dense row k = Ok (ind, dis) ->
  List.length ind = k /\ List.length dis = k.
Proof.
  unfold SparseBuilder.row_from_dense.
  destruct (Nat.ltb (List.length row) (Nat.max 1 k)) eqn:E; [discriminate|].
  apply Nat.ltb_ge in E. intros H. injection H as <- <-.
  unfold take_at. rewrite length_map, length_firstn, length_argsort.
  lia.
Qed.

Lemma dense_search_width (D : list (list R)) (k : nat)
    (ki : list (list nat)) (kd : list (list R)) :
  SparseBuilder.get_indices_distances_from_dense_matrix D k = Ok (ki, kd) ->
  List.length ki = List.length D
  /\ List.length kd = List.length D
  /\ Forall (fun r => List.length r = k) ki
  /\ Forall (fun r => List.length r = k) kd.
Proof.
  unfold SparseBuilder.get_indices_distances_from_dense_matrix.
  destruct (mapM _ D) as [rows|e] eqn:Hm; [|discriminate].
  cbn [bind]. intros H. injection H as <- <-.
  destruct (mapM_nth _ _ Hm) as [Hlen _].
  rewrite !length_map. split; [exact Hlen|]. split; [exact Hlen|].
  split; apply Forall_forall; intros r Hr; apply in_map_iff in Hr;
    destruct Hr as ([ind dis] & <- & Hin);
    destruct (mapM_in _ _ Hm _ Hin) as (row & _ & Hrow);
    apply row_from_dense_width in Hrow; cbn [fst snd]; apply Hrow.
Qed.

Lemma length_filter_le {A : Type} (p : A -> bool) (l : list A) :
  (List.length (filter p l) <= List.length l)%nat.
Proof.
  induction l as [|x l IH]; [reflexivity|]. cbn [filter].
  destruct (p x); cbn [List.length]; lia.
Qed.

(** A row of the numpy variant stores at most [n_neighbors] entries. *)
Lemma numpy_matrix_width (indices : list (list nat))
    (distances : list (list R)) (n_obs k : nat) (D : csr) :
  SparseBuilder.get_sparse_matrix_from_indices_distances_numpy
    indices distances n_obs k = Ok D ->
  List.length (csr_rows D) = n_obs
  /\ Forall (fun row => (List.length row <= k)%nat) (csr_rows D).
Proof.
  unfold SparseBuilder.get_sparse_matrix_from_indices_distances_numpy.
  destruct (Nat.eqb k 0); [discriminate|]. cbv zeta.
  destruct (negb _); [discriminate|].
  destruct (Nat.ltb _ _); [discriminate|].
  intros H. injection H as <-. cbn [csr_rows].
  split; [rewrite length_map, length_seq; reflexivity|].
  apply Forall_forall. intros row Hrow. apply in_map_iff in Hrow.
  destruct Hrow as (i & <- & _). unfold eliminate_zeros_row.
  etransitivity; [apply length_filter_le|].
  unfold slice. rewrite length_firstn. lia.
Qed.

Lemma length_insert_entry (e : nat * R) (row : list (nat * R)) :
  (List.length (insert_entry e row) <= S (List.length row))%nat.
Proof.
  induction row as [|e' row IH]; cbn [insert_entry]; [reflexivity|].
  destruct (Nat.ltb (fst e) (fst e')); [cbn; lia|].
  destruct (Nat.eqb (fst e) (fst e')); cbn [List.length]; lia.
Qed.

Lemma length_sum_duplicates (row : list (nat * R)) :
  (List.length (sum_duplicates row) <= List.length row)%nat.
Proof.
  unfold sum_duplicates.
  assert (H : forall acc,
            (List.length (fold_left (fun acc e => insert_entry e acc) row acc)
             <= List.length acc + List.length row)%nat).
  { induction row as [|e row IH]; intros acc; cbn [fold_left List.length].
    - lia.
    - etransitivity; [apply IH|].
      pose proof (length_insert_entry e acc). lia. }
  apply (H []).
Qed.

Lemma filter_none {A : Type} (p : A -> bool) (l : list A) :
  (forall x, In x l -> p x = false) -> filter p l = [].
Proof.
  induction l as [|x l IH]; intros H; [reflexivity|]. cbn [filter].
  rewrite (H x (or_introl eq_refl)). apply IH.
  intros y Hy. apply H. right. exact Hy.
Qed.

(** Of blocks of at most [k] entries, of which only block [i] holds
    entries that pass a test, at most [k] entries pass it. *)
Lemma filter_one_block {A : Type} (p : A -> bool) (k i : nat)
    (ws : list (list A)) :
  forall s,
    (forall a w x, nth_error ws a = Some w -> In x w -> p x = true ->
                   (s + a)%nat = i) ->
    Forall (fun w => (List.length w <= k)%nat) ws ->
    (List.length (filter p (List.concat ws)) <= k)%nat.
Proof.
  induction ws as [|w ws IH]; intros s Hone Hlen; [cbn; lia|].
  inversion Hlen as [|x l Hw Hws]; subst. cbn [List.concat].
  rewrite filter_app, length_app.
  destruct (Nat.eq_dec s i) as [->|Hne].
  - rewrite (@filter_none _ p (List.concat ws)).
    + pose proof (length_filter_le p w). cbn [List.length]. lia.
    + intros x Hx. apply in_concat in Hx. destruct Hx as (w' & Hw' & Hx).
      apply In_nth_error in Hw'. destruct Hw' as (a & Ha).
      destruct (p x) eqn:E; [|reflexivity].
      pose proof (Hone (S a) w' x Ha Hx E). lia.
  - rewrite (@filter_none _ p w).
    + cbn [List.length]. apply (IH (S s)); [|exact Hws].
      intros a w' x Ha Hx E. pose proof (Hone (S a) w' x Ha Hx E). lia.
    + intros x Hx. destruct (p x) eqn:E; [|reflexivity].
      pose proof (Hone 0%nat w x eq_refl Hx E). lia.
Qed.

(** A row of the umap variant stores at most [n_neighbors] entries. *)
Lemma umap_matrix_width (knn_indices : list (list Z))
    (knn_dists : list (list R)) (n_obs k : nat) (M : csr) :
  SparseBuilder.get_sparse_matrix_from_indices_distances_umap
    knn_indices knn_dists n_obs k = Ok M ->
  List.length (csr_rows M) = n_obs
  /\ Forall (fun row => (List.length row <= k)%nat) (csr_rows M).
Proof.
  unfold SparseBuilder.get_sparse_matrix_from_indices_distances_umap,
    SparseBuilder.slots.
  destruct (mapM _ (seq 0 (List.length knn_indices))) as [written|e] eqn:Hw;
    [|discriminate].
  cbn [bind]. unfold SparseBuilder.coo_matrix.
  destruct (forallb _ _); [|discriminate].
  destruct (forallb _ _); [|discriminate].
  destruct (forallb _ _); [|discriminate].
  cbn [bind]. intros H. injection H as <-.
  unfold SparseBuilder.tocsr. cbn [csr_rows].
  split; [rewrite length_map, length_seq; reflexivity|].
  apply Forall_forall. intros row Hrow. apply in_map_iff in Hrow.
  destruct Hrow as (i & <- & _).
  etransitivity; [apply length_sum_duplicates|]. rewrite length_map.
  unfold SparseBuilder.coo_eliminate_zeros.
  rewrite filter_app, filter_app, length_app.
  rewrite (@filter_none _ _ (repeat _ _)).
  2:{ intros x Hx. apply repeat_spec in Hx. subst x. cbn [snd].
      rewrite Reqb_true by reflexivity. reflexivity. }
  cbn [filter List.length]. rewrite Nat.add_0_r.
  set (p := fun e : nat * Z * R =>
              negb (Reqb (snd e) 0) && Nat.eqb (fst (fst e)) i).
  assert (Hp : forall l,
            filter (fun e : nat * Z * R => Nat.eqb (fst (fst e)) i)
                   (filter (fun e => negb (Reqb (snd e) 0)) l)
            = filter p l).
  { induction l as [|x l IHl]; [reflexivity|]. cbn [filter].
    assert (Hx : p x = negb (Reqb (snd x) 0) && Nat.eqb (fst (fst x)) i)
      by reflexivity.
    rewrite Hx.
    destruct (negb (Reqb (snd x) 0)); cbn [andb filter].
    - destruct (Nat.eqb (fst (fst x)) i); rewrite IHl; reflexivity.
    - exact IHl. }
  rewrite Hp.
  destruct (mapM_nth _ _ Hw) as [_ Hnth].
  apply (@filter_one_block _ p k i written 0%nat).
  - intros a w [[r c] v] Ha Hx E. unfold p in E. cbn [fst snd] in E.
    apply andb_true_iff in E. destruct E as [Hv Hr].
    apply Nat.eqb_eq in Hr. subst r.
    assert (Hv0 : v <> 0).
    { intros ->. rewrite Reqb_true in Hv by reflexivity. discriminate. }
    assert (Ha' : (a < List.length written)%nat)
      by (apply nth_error_Some; rewrite Ha; discriminate).
    destruct (mapM_nth _ _ Hw) as [Hlen _]. rewrite length_seq in Hlen.
    destruct (Hnth a a) as (w' & Hw' & Hslots).
    { rewrite nth_error_seq.
      replace (Nat.ltb a (List.length knn_indices)) with true
        by (symmetry; apply Nat.ltb_lt; lia).
      reflexivity. }
    rewrite Ha in Hw'. injection Hw' as <-.
    destruct (mapM_in _ _ Hslots _ Hx) as (j & _ & Hj).
    destruct (@slot_nonzero _ _ _ _ _ _ _ _ Hj Hv0) as (-> & _).
    reflexivity.
  - apply Forall_forall. intros w Hin.
    destruct (mapM_in _ _ Hw _ Hin) as (a & _ & Hslots).
    destruct (mapM_nth _ _ Hslots) as [Hlen _].
    rewrite Hlen, length_seq. lia.
Qed.

Section NeighborCount.

Variable choose_representation :
  Neighbors.AnnData -> option string -> option nat -> list (list R).
Variable pairwise_distances : list (list R) -> string -> list (list R).
Variable nearest_neighbors :
  list (list R) -> nat -> string -> list (list Z) * list (list R).
Variable fuzzy_simplicial_set :
  nat -> nat -> list (list Z) -> list (list R) -> csr.
Variable connected_components : csr -> nat * list nat.

(** C10: when the requested [n_neighbors] exceeds [n_obs], a call of
    [neighbors] that returns has worked with [1 + n_obs/2] neighbours.
    The object holds that count. The search ran with it: the exact search
    on the pairwise distances, whose index and distance arrays then have
    that many columns, or the approximate search. The distance matrix
    written is built from the arrays found, with that count: by the numpy
    variant after the exact search with the method ['gauss'], the array of
    pairwise distances itself without [knn], the umap variant otherwise;
    a sparse one stores at most that many entries in a row. The
    connectivities written are those of the Gauss kernel, or of
    [fuzzy_simplicial_set], for that count. The parameter record holds
    the requested value, which is larger than the count in use as soon as
    there is an observation. *)
Theorem C10_recorded_n_neighbors_is_the_request
  (adata : Neighbors.AnnData) (n_neighbors : nat) (n_pcs : option nat)
  (use_rep : option string) (knn_arg : bool) (method metric : string)
  (metric_kwds : list (string * R)) (block : Neighbors.uns_neighbors)
  (self : Neighbors.obj) :
  let n_obs := fst (Neighbors.shape adata) in
  let effective := (1 + n_obs / 2)%nat in
  let X := choose_representation adata use_rep n_pcs in
  let dense :=
    (String.eqb metric "euclidean" && Nat.ltb (List.length X) 8192)
    || negb knn_arg in
  (n_obs < n_neighbors)%nat ->
  Neighbors.neighbors choose_representation pairwise_distances
    nearest_neighbors fuzzy_simplicial_set connected_components
    adata n_neighbors n_pcs use_rep knn_arg method metric metric_kwds
  = Ok (block, self) ->
  Neighbors.n_neighbors_attr self = Some effective
  /\ (exists (found : list (list nat)) (ki : list (list Z))
             (kd : list (list R)) (D W : matrix),
        (if dense
         then SparseBuilder.get_indices_distances_from_dense_matrix
                (pairwise_distances X metric) effective = Ok (found, kd)
              /\ ki = map (map Z.of_nat) found
              /\ Forall (fun r => List.length r = effective) ki
              /\ Forall (fun r => List.length r = effective) kd
         else nearest_neighbors
                (if Nat.ltb (List.length X) 4096
                 then pairwise_distances X metric else X)
                effective
                (if Nat.ltb (List.length X) 4096
                 then "precomputed"%string else metric)
              = (ki, kd))
        /\ Neighbors.u_distances block = Some D
        /\ (if dense && String.eqb method "gauss"
            then if knn_arg
                 then exists s,
                        SparseBuilder.get_sparse_matrix_from_indices_distances_numpy
                          found kd (List.length X) effective = Ok s
                        /\ D = Sparse s
                 else D = Dense (pairwise_distances X metric)
            else exists s,
                   SparseBuilder.get_sparse_matrix_from_indices_distances_umap
                     ki kd n_obs effective = Ok s
                   /\ D = Sparse s)
        /\ (forall s, D = Sparse s ->
              Forall (fun row => (List.length row <= effective)%nat)
                     (csr_rows s))
        /\ Neighbors.u_connectivities block = Some W
        /\ (if String.eqb method "gauss"
            then Gauss._compute_connectivities_diffmap knn_arg D effective
                 = Ok W
            else W = Sparse (fuzzy_simplicial_set n_obs effective ki kd)))
  /\ option_map Neighbors.p_n_neighbors (Neighbors.u_params block)
     = Some n_neighbors
  /\ ((0 < n_obs)%nat -> (effective < n_neighbors)%nat).
Proof.
  intros n_obs effective X dense Hlt H.
  unfold Neighbors.neighbors in H.
  destruct (Neighbors.__init__ connected_components adata None)
    as [o|e] eqn:Hinit; [|discriminate].
  cbn [bind] in H.
  destruct (init_state _ _ _ Hinit) as (_ & _ & Hadata).
  assert (Hadj : Neighbors.adjust_n_neighbors
                   (fst (Neighbors.shape (Neighbors._adata o))) n_neighbors
                 = effective).
  { rewrite Hadata. unfold Neighbors.adjust_n_neighbors.
    fold n_obs. apply Nat.ltb_lt in Hlt. rewrite Hlt. reflexivity. }
  destruct (Neighbors.compute_neighbors _ _ _ _ _ o n_neighbors knn_arg
              n_pcs use_rep method false metric) as [o' [e|]] eqn:Hc;
    [discriminate|].
  injection H as <- <-.
  cbn [Neighbors.u_params Neighbors.u_distances Neighbors.u_connectivities
       option_map Neighbors.p_n_neighbors].
  split.
  { rewrite (compute_neighbors_n_neighbors _ _ _ _ _ _ _ _ _ _ _ _ _ Hc).
    rewrite Hadj. reflexivity. }
  split; [|split; [reflexivity|]].
  2:{ intros Hpos. subst effective.
      assert (n_obs / 2 < n_obs)%nat by (apply Nat.div_lt; lia). lia. }
  revert Hc. unfold Neighbors.compute_neighbors, Neighbors.try.
  cbv zeta. rewrite Hadj.
  cbn [Neighbors._adata Neighbors.set_knn Neighbors.set_n_neighbors].
  rewrite Hadata. fold X. fold n_obs.
  fold dense. clear Hadj. clearbody dense effective X n_obs.
  destruct (String.eqb method "umap") eqn:Eu.
  - (* method = 'umap' *)
    apply String.eqb_eq in Eu. subst method.
    destruct knn_arg; [|discriminate].
    cbn [negb andb orb String.eqb Ascii.eqb Bool.eqb].
    rewrite andb_false_r, orb_true_r.
    destruct dense eqn:Ed.
    + destruct (SparseBuilder.get_indices_distances_from_dense_matrix _ _)
        as [[found kd]|e] eqn:Hsearch; [|discriminate].
      destruct (SparseBuilder.get_sparse_matrix_from_indices_distances_numpy
                  _ _ _ _) as [D0|e]; [|discriminate].
      unfold Neighbors.compute_connectivities_umap.
      destruct (SparseBuilder.get_sparse_matrix_from_indices_distances_umap
                  _ _ _ _) as [s|e] eqn:Hs; [|discriminate].
      cbn. intros Hc. injection Hc as <-. cbn.
      destruct (dense_search_width _ _ Hsearch) as (_ & _ & Hwi & Hwd).
      exists found, (map (map Z.of_nat) found), kd, (Sparse s),
        (Sparse (fuzzy_simplicial_set n_obs effective
                   (map (map Z.of_nat) found) kd)).
      split.
      { split; [reflexivity|]. split; [reflexivity|].
        split; [|exact Hwd].
        apply Forall_forall. intros r Hr. apply in_map_iff in Hr.
        destruct Hr as (r' & <- & Hr'). rewrite length_map.
        rewrite Forall_forall in Hwi. apply (Hwi r' Hr'). }
      split; [reflexivity|].
      split; [exists s; split; [exact Hs | reflexivity]|].
      split; [|split; reflexivity].
      intros s' Hs'. injection Hs' as <-.
      apply (umap_matrix_width _ _ _ _ Hs).
    + destruct (nearest_neighbors _ _ _) as [ki kd] eqn:Hsearch.
      unfold Neighbors.compute_connectivities_umap.
      destruct (SparseBuilder.get_sparse_matrix_from_indices_distances_umap
                  _ _ _ _) as [s|e] eqn:Hs; [|discriminate].
      cbn. intros Hc. injection Hc as <-. cbn.
      exists [], ki, kd, (Sparse s),
        (Sparse (fuzzy_simplicial_set n_obs effective ki kd)).
      split; [reflexivity|]. split; [reflexivity|].
      split; [exists s; split; [exact Hs | reflexivity]|].
      split; [|split; reflexivity].
      intros s' Hs'. injection Hs' as <-.
      apply (umap_matrix_width _ _ _ _ Hs).
  - cbn [andb orb negb].
    destruct (String.eqb method "gauss") eqn:Eg; [|discriminate].
    apply String.eqb_eq in Eg. subst method. cbn [negb].
    rewrite andb_true_r, orb_false_r.
    destruct dense eqn:Ed; cbn [negb].
    + destruct (SparseBuilder.get_indices_distances_from_dense_matrix _ _)
        as [[found kd]|e] eqn:Hsearch; [|discriminate].
      destruct (dense_search_width _ _ Hsearch) as (_ & _ & Hwi & Hwd).
      assert (Hwz : Forall (fun r : list Z => List.length r = effective)
                      (map (map Z.of_nat) found)).
      { apply Forall_forall. intros r Hr. apply in_map_iff in Hr.
        destruct Hr as (r' & <- & Hr'). rewrite length_map.
        rewrite Forall_forall in Hwi. apply (Hwi r' Hr'). }
      destruct knn_arg.
      * destruct (SparseBuilder.get_sparse_matrix_from_indices_distances_numpy
                    _ _ _ _) as [s|e] eqn:Hs; [|discriminate].
        cbn -[Gauss._compute_connectivities_diffmap].
        destruct (Gauss._compute_connectivities_diffmap true (Sparse s)
                    effective) as [W|e] eqn:HW;
          cbn -[Gauss._compute_connectivities_diffmap]; [|discriminate].
        intros Hc. injection Hc as <-.
        exists found, (map (map Z.of_nat) found), kd, (Sparse s), W.
        split; [auto|].
        split; [destruct W as [Wd|[n [|r Wr]]]; reflexivity|].
        split; [exists s; split; [exact Hs | reflexivity]|].
        split; [intros s' Hs'; injection Hs' as <-;
                apply (numpy_matrix_width _ _ _ _ Hs)|].
        split; [destruct W as [Wd|[n [|r Wr]]]; reflexivity|exact HW].
      * cbn -[Gauss._compute_connectivities_diffmap].
        destruct (Gauss._compute_connectivities_diffmap false
                    (Dense (pairwise_distances X metric)) effective)
          as [W|e] eqn:HW;
          cbn -[Gauss._compute_connectivities_diffmap]; [|discriminate].
        intros Hc. injection Hc as <-.
        exists found, (map (map Z.of_nat) found), kd,
          (Dense (pairwise_distances X metric)), W.
        split; [auto|].
        split; [destruct W as [Wd|[n [|r Wr]]]; reflexivity|].
        split; [reflexivity|].
        split; [intros s' Hs'; discriminate|].
        split; [destruct W as [Wd|[n [|r Wr]]]; reflexivity|exact HW].
    + destruct (nearest_neighbors _ _ _) as [ki kd] eqn:Hsearch.
      unfold Neighbors.compute_connectivities_umap.
      destruct (SparseBuilder.get_sparse_matrix_from_indices_distances_umap
                  _ _ _ _) as [s|e] eqn:Hs; [|discriminate].
      cbn -[Gauss._compute_connectivities_diffmap].
      destruct (Gauss._compute_connectivities_diffmap knn_arg (Sparse s)
                  effective) as [W|e] eqn:HW;
          cbn -[Gauss._compute_connectivities_diffmap]; [|discriminate].
      intros Hc. injection Hc as <-.
      exists [], ki, kd, (Sparse s), W.
      split; [reflexivity|].
      split; [destruct W as [Wd|[n [|r Wr]]]; reflexivity|].
      split; [exists s; split; [exact Hs | reflexivity]|].
      split; [intros s' Hs'; injection Hs' as <-;
              apply (umap_matrix_width _ _ _ _ Hs)|].
      split; [destruct W as [Wd|[n [|r Wr]]]; reflexivity|exact HW].
Qed.

End NeighborCount.

Lemma C10_witness :
  exists block self,
    Neighbors.neighbors Examples.choose_representation
      Examples.pairwise_distances Examples.nearest_neighbors
      Examples.fuzzy_simplicial_set Examples.connected_components
      Examples.adata2 5 None None true "umap" "cosine" []
    = Ok (block, self)
    /\ Neighbors.n_neighbors_attr self = Some 2%nat
    /\ option_map Neighbors.p_n_neighbors (Neighbors.u_params block)
       = Some 5%nat
    /\ exists D, Neighbors.u_distances block = Some D
         /\ forall s, D = Sparse s ->
              Forall (fun row => (List.length row <= 2)%nat) (csr_rows s).
Proof.
  destruct neighbors_adata2_returns as (block & self & H).
  exists block, self. split; [exact H|].
  destruct (@C10_recorded_n_neighbors_is_the_request
              Examples.choose_representation Examples.pairwise_distances
              Examples.nearest_neighbors Examples.fuzzy_simplicial_set
              Examples.connected_components
              Examples.adata2 5 None None true "umap" "cosine" []
              block self)
    as (Hn & (found & ki & kd & D & W & _ & HD & _ & Hw & _) & Hp & _).
  - cbn. lia.
  - exact H.
  - split; [exact Hn|]. split; [exact Hp|].
    exists D. split; [exact HD | exact Hw].
Defined.

(** * Rows with too few neighbours: no padding *)

(** C5, on the code.  Rows with fewer than [k - 1] entries that are not
    zero are not padded with [-1]: the arrays start out as zeros and the
    whole set of entries is assigned to the [k - 1] remaining columns.
    With [k = 2] an empty row makes the extraction raise the [ValueError] of
    a failed broadcast; with [k = 3] a row with one entry has that entry
    repeated in both remaining columns. The empty row is reached from
    [neighbors] itself: on two observations that coincide, with
    [n_neighbors = 2] and the method ['gauss'], the zero distances are
    dropped from the sparse matrix and the call raises. *)
Theorem C5_under_complete_rows_are_not_padded :
  SparseBuilder.get_indices_distances_from_sparse_matrix
    Examples.under_complete 2
  = Raise (ValueError "could not broadcast input array")
  /\ SparseBuilder.get_indices_distances_from_sparse_matrix
       Examples.single_neighbour 3
     = Ok ([[0; 1; 1]; [1; 0; 0]]%nat, [[0; 1; 1]; [0; 2; 2]])
  /\ Neighbors.neighbors Examples.choose_representation
       Examples.coincident_distances Examples.nearest_neighbors
       Examples.fuzzy_simplicial_set Examples.connected_components
       Examples.twins 2 None None true "gauss" "euclidean" []
     = Raise (ValueError "could not broadcast input array").
Proof.
  split; [|split].
  - unfold SparseBuilder.get_indices_distances_from_sparse_matrix,
      SparseBuilder.row_from_sparse, eliminate_zeros_row,
      Examples.under_complete.
    r_run. reflexivity.
  - unfold SparseBuilder.get_indices_distances_from_sparse_matrix,
      SparseBuilder.row_from_sparse, eliminate_zeros_row,
      Examples.single_neighbour.
    r_run. unfold row_get, Rsum. cbn. repeat f_equal; lra.
  - unfold Neighbors.neighbors, Neighbors.compute_neighbors, Neighbors.try.
    r_run. reflexivity.
Qed.

(** * The Gauss kernel on an over-complete row *)

Lemma weight_pos (a b x : R) :
  0 < a -> 0 < b -> 0 < sqrt (2 * sqrt a * sqrt b / (a + b)) * exp x.
Proof.
  intros Ha Hb. apply Rmult_lt_0_compat; [|apply exp_pos].
  apply sqrt_lt_R0. apply Rdiv_lt_0_compat; [|lra].
  apply Rmult_lt_0_compat; [apply Rmult_lt_0_compat; [lra|]|];
    apply sqrt_lt_R0; assumption.
Qed.

Lemma over_complete_weights :
  exists W,
    Gauss._compute_connectivities_diffmap true
      (Sparse Examples.over_complete) 2 = Ok (Sparse W)
    /\ 0 < csr_get W 0 2 /\ csr_get W 2 0 = 0.
Proof.
  unfold Gauss._compute_connectivities_diffmap, Gauss.gauss_sparse,
    Examples.over_complete.
  cbn [csr_rows n_cols map fst snd].
  unfold SparseBuilder.get_indices_distances_from_sparse_matrix,
    SparseBuilder.row_from_sparse, eliminate_zeros_row.
  r_run.
  eexists. split; [reflexivity|].
  unfold csr_get, row_get, Rsum. cbn.
  split; [|reflexivity].
  rewrite Rplus_0_l. apply weight_pos; lra.
Qed.

(** The search result in which observation 0 does not list itself gives
    the over-complete distance matrix. *)
Lemma missed_self_matrix :
  SparseBuilder.get_sparse_matrix_from_indices_distances_umap
    [[1; 2]; [1; 0]; [2; 1]]%Z [[1; 2]; [0; 1]; [0; 1.5]] 3 2
  = Ok Examples.over_complete.
Proof.
  unfold SparseBuilder.get_sparse_matrix_from_indices_distances_umap,
    SparseBuilder.slots, SparseBuilder.coo_matrix, SparseBuilder.tocsr,
    SparseBuilder.coo_eliminate_zeros, sum_duplicates.
  r_run.
  change (Pos.to_nat 1) with 1%nat. change (Pos.to_nat 2) with 2%nat.
  reflexivity.
Qed.

(** C1, on the code.  On the sparse path a row that stores more than
    [n_neighbors - 1] distances is cut to its nearest ones for the
    bandwidths and the borrow loop, but weights are computed for all its
    stored entries, and the entries left out of the cut are neither
    mirrored nor zeroed. For the three observations of [over_complete]
    and [n_neighbors = 2] the connectivities hold a positive weight at
    [(0, 2)] and nothing at [(2, 0)]. [compute_neighbors] reaches this
    input when the approximate search does not list observation 0 among
    its own neighbours. *)
Theorem C1_sparse_gauss_connectivities_of_an_over_complete_row :
  (exists W,
      Gauss._compute_connectivities_diffmap true
        (Sparse Examples.over_complete) 2 = Ok (Sparse W)
      /\ 0 < csr_get W 0 2 /\ csr_get W 2 0 = 0)
  /\ exists self' W,
       Neighbors.compute_neighbors Examples.choose_representation
         Examples.manhattan3 Examples.missed_self
         Examples.fuzzy_simplicial_set Examples.connected_components
         Examples.fresh3 2 true None None "gauss" false "manhattan"
       = (self', None)
       /\ Neighbors._distances self' = Some (Sparse Examples.over_complete)
       /\ Neighbors._connectivities self' = Some (Sparse W)
       /\ 0 < csr_get W 0 2 /\ csr_get W 2 0 = 0.
Proof.
  split; [exact over_complete_weights|].
  destruct over_complete_weights as (W & HW & H02 & H20).
  unfold Neighbors.compute_neighbors, Neighbors.try,
    Neighbors.compute_connectivities_umap, Examples.missed_self.
  cbn -[SparseBuilder.get_sparse_matrix_from_indices_distances_umap
        Gauss._compute_connectivities_diffmap].
  rewrite missed_self_matrix.
  cbn -[Gauss._compute_connectivities_diffmap].
  rewrite HW.
  cbn. do 2 eexists. split; [reflexivity|]. cbn.
  split; [reflexivity|]. split; [reflexivity|]. split; assumption.
Qed.

(** * The transition matrix is row-stochastic *)

(** C2.  For the connectivities of a weighted graph (a square, symmetric
    array without negative weights whose columns, and so rows, have a
    positive sum), with or without density normalization,
    [compute_transitions] returns, [transitions] then returns, its
    entries are not negative and each of its rows sums to 1. Sums and
    products are those of the reals: the rounding of [float64], which the
    claim allows for by its tolerance, is not modelled. *)
Theorem C2_transitions_is_row_stochastic
    (Wm : matrix) (density_normalize : bool) :
  let W := Transitions.entries Wm in
  let n := List.length W in
  Transitions.weighted_graph W ->
  exists Zm Tsym T,
    Transitions.compute_transitions (Some Wm) density_normalize
    = Ok (Zm, Tsym)
    /\ Transitions.transitions (Some Zm) (Some Tsym) = Ok T
    /\ (forall i j, (i < n)%nat -> (j < n)%nat ->
          0 <= Transitions.get (Transitions.entries T) i j)
    /\ forall i, (i < n)%nat ->
         rsum n (fun j => Transitions.get (Transitions.entries T) i j) = 1.
Proof.
  intros W n HW. subst n W.
  destruct (@transitions_closed Wm density_normalize HW)
    as (Zm & Tsym & T & H1 & H2 & Hc & _ & H3).
  exists Zm, Tsym, T. split; [exact H1|]. split; [exact H2|].
  cbv beta zeta in *.
  set (W := Transitions.entries Wm) in *. set (n := List.length W) in *.
  split.
  - intros i j Hi Hj. rewrite (H3 i j Hi Hj).
    apply Rmult_le_pos.
    + apply (@kernel_nonneg W density_normalize HW i j Hi Hj).
    + apply Rlt_le, Rinv_0_lt_compat. exact (Hc i Hi).
  - intros i Hi.
    rewrite (@rsum_ext n _
               (fun j => / rsum n (fun a =>
                             Transitions.kernel W density_normalize a i)
                         * Transitions.kernel W density_normalize j i)).
    + rewrite rsum_scal. apply Rinv_l.
      apply Rgt_not_eq. exact (Hc i Hi).
    + intros j Hj. rewrite (H3 i j Hi Hj).
      rewrite (@kernel_sym W density_normalize HW i j Hi Hj).
      unfold Rdiv. apply Rmult_comm.
Qed.

Lemma C2_witness :
  exists Zm Tsym T,
    Transitions.compute_transitions (Some Examples.pair_graph) true
    = Ok (Zm, Tsym)
    /\ Transitions.transitions (Some Zm) (Some Tsym) = Ok T
    /\ forall i, (i < 2)%nat ->
         rsum 2 (fun j => Transitions.get (Transitions.entries T) i j) = 1.
Proof.
  destruct (@C2_transitions_is_row_stochastic Examples.pair_graph true
              pair_graph_weighted)
    as (Zm & Tsym & T & H1 & H2 & _ & H3).
  exists Zm, Tsym, T. split; [exact H1|]. split; [exact H2 | exact H3].
Defined.
